(* ===================================================================== *)
(* Explorador de Paises: the browser client (script.js) and the weather  *)
(* gateway it talks to.                                                  *)
(*                                                                       *)
(* Part I    JavaScript values as JSON.parse produces them               *)
(* Part II   the page state: DOM fragments, timers, closure variables    *)
(* Part III  async functions as resumable tasks, and the event loop      *)
(* Part IV   the functions of script.js                                  *)
(* Part V    the weather gateway and loader                              *)
(* Part VI   what is observed of a page and of a run                     *)
(* Part VII  theorems                                                    *)
(* ===================================================================== *)

From Stdlib Require Import Ascii String ZArith.
From stdpp Require Import gmap strings list fin_maps pretty.

Set Warnings "-register-all".

Open Scope string_scope.
Open Scope list_scope.
Open Scope Z_scope.

(* ===================================================================== *)
(* Part I. JavaScript values                                             *)
(* ===================================================================== *)

(** The double-quote character, for the markup the script assembles. *)
Definition dq : string := String (ascii_of_nat 34) EmptyString.

(** The line feed, for the template literals that span lines. *)
Definition nl : string := String (ascii_of_nat 10) EmptyString.

(** A value decoded by [response.json()].  Numbers are kept abstract
    ([Num]): IEEE doubles are observed only through the operations of
    [Engine] below.  An object is the list of its own properties in
    enumeration order. *)
Inductive JsVal (Num : Type) : Type :=
| JUndefined
| JNull
| JBool (b : bool)
| JNum (n : Num)
| JStr (s : string)
| JArr (items : list (JsVal Num))
| JObj (props : list (string * JsVal Num)).

Arguments JUndefined {Num}.
Arguments JNull {Num}.
Arguments JBool {Num} b.
Arguments JNum {Num} n.
Arguments JStr {Num} s.
Arguments JArr {Num} items.
Arguments JObj {Num} props.

(** A thrown value.  Everything this script throws or catches is an
    Error object, and only [name] and [message] are ever read. *)
Record JsError := mkError { err_name : string; err_message : string }.

(** Result of a synchronous expression that may throw. *)
Inductive Exn (A : Type) : Type :=
| Ok (a : A)
| Raise (e : JsError).
Arguments Ok {A} a.
Arguments Raise {A} e.

#[global] Instance Exn_ret : MRet Exn := λ A a, Ok a.
#[global] Instance Exn_bind : MBind Exn :=
  λ A B f x, match x with Ok a => f a | Raise e => Raise e end.

(** What the JavaScript engine and its locale data decide. *)
Class Engine (Num : Type) := {
  (** ToBoolean on a number: false for 0, -0 and NaN. *)
  num_truthy : Num → bool;
  (** [n === 0] *)
  num_is_zero : Num → bool;
  (** ToString on a number. *)
  num_toString : Num → string;
  (** [v.toLocaleString('es-CR')] for a [v] that inherits the method. *)
  toLocaleString_esCR : JsVal Num → string;
  (** [new Date(v).toLocaleString('es-CR')]. *)
  date_toLocaleString_esCR : JsVal Num → string;
  (** Message of the TypeError raised by reading or writing property
      [k] of [undefined] or [null]. *)
  nullish_access_message : JsVal Num → string → string;
  (** Message of the TypeError raised by calling a non-function [v.k]. *)
  not_a_function_message : JsVal Num → string → string;
  (** Message of the TypeError raised by ToPrimitive on an object that
      has no primitive value. *)
  cannot_convert_message : string;
  (** The UTF-16 code units of a string, each as a string of its own:
      what indexing a string and [Object.values] of a string yield. *)
  code_units : string → list string
}.

Section JsValues.
Context {Num : Type} `{!Engine Num}.

#[local] Abbreviation Val := (JsVal Num).

(** ToBoolean. *)
Definition truthy (v : Val) : bool :=
  match v with
  | JUndefined | JNull => false
  | JBool b => b
  | JNum n => num_truthy n
  | JStr s => negb (String.eqb s "")
  | JArr _ | JObj _ => true
  end.

Definition nullish (v : Val) : bool :=
  match v with JUndefined | JNull => true | _ => false end.

(** [separated sep parts] is Array.prototype.join on strings. *)
Fixpoint separated (sep : string) (parts : list string) : string :=
  match parts with
  | [] => ""
  | [p] => p
  | p :: rest => p +:+ sep +:+ separated sep rest
  end.

(** The string that ToString gives for a value that has one; whether it
    has one is decided by [ToPrimitive_error] below, and the script's
    conversions go through [ToString]. *)
Fixpoint toStr (v : Val) : string :=
  match v with
  | JUndefined => "undefined"
  | JNull => "null"
  | JBool true => "true"
  | JBool false => "false"
  | JNum n => num_toString n
  | JStr s => s
  | JArr items =>
      separated ","
        ((fix each (l : list Val) : list string :=
            match l with
            | [] => []
            | x :: l' => (if nullish x then "" else toStr x) :: each l'
            end) items)
  | JObj _ => "[object Object]"
  end.

(** Own-property lookup in an object's property list. *)
Fixpoint own (k : string) (props : list (string * Val)) : option Val :=
  match props with
  | [] => None
  | (k', v) :: rest => if String.eqb k k' then Some v else own k rest
  end.

Definition typeError (msg : string) : JsError := mkError "TypeError" msg.

(** The TypeError of ToPrimitive, when [v] has no primitive value.  The
    values here are parsed JSON: an object converts through the
    inherited [toString] unless it has a property [toString] of its
    own, which is data and not callable; an array converts its elements
    (join skips [undefined] and [null]) and fails on the first that
    does not convert. *)
Fixpoint ToPrimitive_error (v : Val) : option JsError :=
  match v with
  | JObj props =>
      match own "toString" props with
      | Some _ => Some (typeError cannot_convert_message)
      | None => None
      end
  | JArr items =>
      (fix each (l : list Val) : option JsError :=
         match l with
         | [] => None
         | x :: l' =>
             match ToPrimitive_error x with
             | Some e => Some e
             | None => each l'
             end
         end) items
  | _ => None
  end.

(** ToString, as a template literal applies it to [${v}], the
    [textContent] setter to the value assigned, and [new Error] to its
    argument. *)
Definition ToString (v : Val) : Exn string :=
  match ToPrimitive_error v with
  | Some e => Raise e
  | None => Ok (toStr v)
  end.

(** [v.k] for the property names this script reads ([message],
    [detail], [temperature], [name], ...): none of them is inherited
    from a prototype, so on anything but an object with that own
    property the read yields [undefined]; on [undefined] and [null]
    it throws. *)
Definition prop (v : Val) (k : string) : Exn Val :=
  match v with
  | JUndefined | JNull => Raise (typeError (nullish_access_message v k))
  | JObj props => Ok (default JUndefined (own k props))
  | _ => Ok JUndefined
  end.

(** [v[0]]. *)
Definition first (v : Val) : Exn Val :=
  match v with
  | JUndefined | JNull => Raise (typeError (nullish_access_message v "0"))
  | JArr items => Ok (default JUndefined (head items))
  | JStr s => Ok (default JUndefined (head (JStr <$> code_units s)))
  | JObj props => Ok (default JUndefined (own "0" props))
  | _ => Ok JUndefined
  end.

(** [Object.values(v)]. *)
Definition object_values (v : Val) : Exn Val :=
  match v with
  | JUndefined | JNull =>
      Raise (typeError "Cannot convert undefined or null to object")
  | JObj props => Ok (JArr (props.*2))
  | JArr items => Ok (JArr items)
  | JStr s => Ok (JArr (JStr <$> code_units s))
  | _ => Ok (JArr [])
  end.

(** The TypeError of [v.toLocaleString('es-CR')], a method call, if it
    throws: on [undefined] and [null]; on an object whose own
    [toLocaleString] property (data, never a function) shadows the
    inherited method, or whose own [toString] does, which the inherited
    method calls; on an array, on the first element, [undefined] and
    [null] apart, whose call throws. *)
Fixpoint toLocaleString_error (v : Val) : option JsError :=
  match v with
  | JUndefined | JNull =>
      Some (typeError (nullish_access_message v "toLocaleString"))
  | JObj props =>
      match own "toLocaleString" props, own "toString" props with
      | Some _, _ => Some (typeError (not_a_function_message v "toLocaleString"))
      | None, Some _ => Some (typeError (not_a_function_message v "toString"))
      | None, None => None
      end
  | JArr items =>
      (fix each (l : list Val) : option JsError :=
         match l with
         | [] => None
         | x :: l' =>
             match (if nullish x then None else toLocaleString_error x) with
             | Some e => Some e
             | None => each l'
             end
         end) items
  | _ => None
  end.

(** [v.toLocaleString('es-CR')]. *)
Definition call_toLocaleString (v : Val) : Exn string :=
  match toLocaleString_error v with
  | Some e => Raise e
  | None => Ok (toLocaleString_esCR v)
  end.

(** [new Date(v).toLocaleString('es-CR')]: the constructor applies
    ToPrimitive to [v]; formatting a date, valid or not, does not
    throw. *)
Definition Date_toLocaleString (v : Val) : Exn string :=
  match ToPrimitive_error v with
  | Some e => Raise e
  | None => Ok (date_toLocaleString_esCR v)
  end.

(** [v !== 'N/A']. *)
Definition is_not_NA (v : Val) : bool :=
  match v with
  | JStr s => negb (String.eqb s "N/A")
  | _ => true
  end.

(** [new Error(x)]: the message is ToString of the argument, and is
    empty when the argument is [undefined]. *)
Definition new_Error (x : Val) : Exn JsError :=
  match x with
  | JUndefined => Ok (mkError "Error" "")
  | _ => message ← ToString x; Ok (mkError "Error" message)
  end.

End JsValues.

(* ===================================================================== *)
(* Part II. The page: elements, timers, closure variables                *)
(* ===================================================================== *)

Section Page.
Context {Num : Type}.
#[local] Abbreviation Val := (JsVal Num).

(** The closures the script registers as event handlers, interval
    callbacks and [onclick] properties. *)
Inductive Callback : Type :=
| CbFetchWeather (cca3 : Val) (force : bool)
    (** [() => fetchWeatherForCountry(cca3, force)] *)
| CbOpenModal (cca3 : Val) (isFromSavedView : bool)
    (** [() => openModal(country.cca3, source === 'local')] *)
| CbSaveCountry (country : Val)
    (** [() => saveCountry(country)], line 230 *)
| CbDeleteCountry (cca3 : Val)
    (** [() => deleteCountry(countryCode)], line 194 *)
| CbDismissMessage.
    (** [clickHandler] of a call of showCustomMessage whose promise
        nobody awaits (lines 244 and 360) *)

(** What was last assigned to an element: [textContent] or [innerHTML]. *)
Inductive Content : Type :=
| Text (s : string)
| Html (markup : string).

(** A DOM element, as far as the script observes it.  [descendants]
    lists, in tree order, the elements below it that the model
    allocates: the ones carrying an id or class the script queries,
    and the direct children of the two grids. *)
Record Element := mkElement {
  classes : gset string;
  data_view : option string;
  content : Content;
  disabled : bool;
  onclick : option Callback;
  listeners : list Callback;
  descendants : list nat
}.

Definition set_classes (f : gset string → gset string) (e : Element) :=
  mkElement (f (classes e)) (data_view e) (content e) (disabled e)
            (onclick e) (listeners e) (descendants e).
Definition set_content (c : Content) (e : Element) :=
  mkElement (classes e) (data_view e) c (disabled e)
            (onclick e) (listeners e) (descendants e).
Definition set_disabled (b : bool) (e : Element) :=
  mkElement (classes e) (data_view e) (content e) b
            (onclick e) (listeners e) (descendants e).
Definition set_onclick (cb : Callback) (e : Element) :=
  mkElement (classes e) (data_view e) (content e) (disabled e)
            (Some cb) (listeners e) (descendants e).
Definition set_listeners (f : list Callback → list Callback) (e : Element) :=
  mkElement (classes e) (data_view e) (content e) (disabled e)
            (onclick e) (f (listeners e)) (descendants e).
Definition set_descendants (f : list nat → list nat) (e : Element) :=
  mkElement (classes e) (data_view e) (content e) (disabled e)
            (onclick e) (listeners e) (f (descendants e)).

(** An active [setInterval] registration. *)
Record Interval := mkInterval { iv_callback : Callback; iv_delay : Z }.

Record Request := mkRequest { rq_method : string; rq_url : string }.

Inductive Body : Type :=
| JsonBody (v : Val)
| NotJson (syntax_error : string).
    (** [response.json()] rejects with a SyntaxError of this message *)

Record Response := mkResponse { status : Z; body : Body }.

(** [response.ok] *)
Definition resp_ok (r : Response) : bool :=
  (200 <=? status r) && (status r <=? 299).

Inductive FetchReply : Type :=
| NetFail (e : JsError)      (** the promise of [fetch] rejects *)
| NetResp (r : Response).

(** The mutable state one page load of the script works on.
    [elems] is the store of element objects, attached or not;
    [byId] is what [document.getElementById] finds, so it holds the
    attached elements only. *)
Record Page := mkPage {
  byId : gmap string nat;
  elems : gmap nat Element;
  focused : option nat;
  weatherUpdateIntervalId : option positive;
  currentCountryCodeInModal : option Val;
  timers : gmap positive Interval;
  requests : list Request;
  console : list JsError
}.

Definition upd_byId (f : gmap string nat → gmap string nat) (p : Page) :=
  mkPage (f (byId p)) (elems p) (focused p) (weatherUpdateIntervalId p)
         (currentCountryCodeInModal p) (timers p) (requests p) (console p).
Definition upd_elems (f : gmap nat Element → gmap nat Element) (p : Page) :=
  mkPage (byId p) (f (elems p)) (focused p) (weatherUpdateIntervalId p)
         (currentCountryCodeInModal p) (timers p) (requests p) (console p).
Definition set_focused (r : nat) (p : Page) :=
  mkPage (byId p) (elems p) (Some r) (weatherUpdateIntervalId p)
         (currentCountryCodeInModal p) (timers p) (requests p) (console p).
Definition set_weatherUpdateIntervalId (h : option positive) (p : Page) :=
  mkPage (byId p) (elems p) (focused p) h
         (currentCountryCodeInModal p) (timers p) (requests p) (console p).
Definition set_currentCountryCodeInModal (c : option Val) (p : Page) :=
  mkPage (byId p) (elems p) (focused p) (weatherUpdateIntervalId p)
         c (timers p) (requests p) (console p).
Definition upd_timers (f : gmap positive Interval → gmap positive Interval)
    (p : Page) :=
  mkPage (byId p) (elems p) (focused p) (weatherUpdateIntervalId p)
         (currentCountryCodeInModal p) (f (timers p)) (requests p) (console p).
Definition log_request (rq : Request) (p : Page) :=
  mkPage (byId p) (elems p) (focused p) (weatherUpdateIntervalId p)
         (currentCountryCodeInModal p) (timers p) (requests p ++ [rq]) (console p).
Definition console_error (e : JsError) (p : Page) :=
  mkPage (byId p) (elems p) (focused p) (weatherUpdateIntervalId p)
         (currentCountryCodeInModal p) (timers p) (requests p) (console p ++ [e]).

(** ** DOM operations *)

Definition getElementById (p : Page) (id : string) : option nat := byId p !! id.

(** Mutate the element object [r]. *)
Definition modify (r : nat) (f : Element → Element) : Page → Page :=
  upd_elems (alter f r).

Definition classList_add (r : nat) (c : string) : Page → Page :=
  modify r (set_classes (λ cs, cs ∪ {[c]})).
Definition classList_remove (r : nat) (c : string) : Page → Page :=
  modify r (set_classes (λ cs, cs ∖ {[c]})).
(** [classList.toggle(c, force)] *)
Definition classList_toggle (r : nat) (c : string) (force : bool) : Page → Page :=
  if force then classList_add r c else classList_remove r c.

Definition has_class (p : Page) (c : string) (r : nat) : bool :=
  match elems p !! r with
  | Some e => bool_decide (c ∈ classes e)
  | None => false
  end.

(** [el.querySelector('.c')]: the first descendant of class [c]. *)
Definition querySelector (p : Page) (c : string) (r : nat) : option nat :=
  match elems p !! r with
  | Some e => List.find (has_class p c) (descendants e)
  | None => None
  end.

Definition set_textContent (r : nat) (s : string) : Page → Page :=
  modify r (set_content (Text s)).

(** Elements below [r] leave the document when [r.innerHTML] is
    assigned; the objects themselves stay in the store, where a
    closure that captured them can still write to them. *)
Definition detach_below (r : nat) (p : Page) : Page :=
  match elems p !! r with
  | Some e =>
      upd_byId (filter (λ kv, kv.2 ∉ descendants e))
               (modify r (set_descendants (λ _, [])) p)
  | None => p
  end.

(** [r.innerHTML = markup], before the elements the markup declares
    are created (see [create]). *)
Definition set_innerHTML (r : nat) (markup : string) (p : Page) : Page :=
  modify r (set_content (Html markup)) (detach_below r p).

(** Create an element object; it is not yet in the document. *)
Definition createElement (e : Element) (p : Page) : nat * Page :=
  let r := fresh (dom (elems p)) in
  (r, upd_elems (<[r := e]>) p).

(** Put the element [r] into the document, as the last descendant of
    each of [ancestors], under the id [id] when it has one. *)
Definition attach (ancestors : list nat) (id : option string) (r : nat)
    (p : Page) : Page :=
  let p1 := foldr (λ a, modify a (set_descendants (λ ds, ds ++ [r]))) p ancestors in
  match id with
  | Some i => upd_byId (<[i := r]>) p1
  | None => p1
  end.

Definition create (ancestors : list nat) (id : option string) (e : Element)
    (p : Page) : nat * Page :=
  let '(r, p1) := createElement e p in (r, attach ancestors id r p1).

(** [el.childElementCount], see [descendants]. *)
Definition childElementCount (p : Page) (r : nat) : nat :=
  match elems p !! r with
  | Some e => length (descendants e)
  | None => 0%nat
  end.

(** ** Timers *)

(** [setInterval(cb, delay)]: registers the callback under a handle
    that no active timer uses. *)
Definition setInterval (cb : Callback) (delay : Z) (p : Page) : positive * Page :=
  let h := fresh (dom (timers p)) in
  (h, upd_timers (<[h := mkInterval cb delay]>) p).

Definition clearInterval (h : positive) : Page → Page :=
  upd_timers (delete h).

End Page.

Arguments Callback Num : clear implicits.
Arguments Content : clear implicits.
Arguments Element Num : clear implicits.
Arguments Interval Num : clear implicits.
Arguments Body Num : clear implicits.
Arguments Response Num : clear implicits.
Arguments FetchReply Num : clear implicits.
Arguments Page Num : clear implicits.


(* ===================================================================== *)
(* Part III. Async functions as resumable tasks; the event loop          *)
(* ===================================================================== *)

Section Tasks.
Context {Num : Type}.
#[local] Abbreviation Val := (JsVal Num).

(** The body of a function of the script.  Synchronous statements read
    and write the page; [Fetch] and [Yield] are the points where an
    [await] hands control back to the event loop; [Spawn] is a call to
    an async function whose promise is dropped. *)
Inductive Task : Type :=
| Ret
| Throw (e : JsError)
| Read (k : Page Num → Task)
| Write (f : Page Num → Page Num) (k : Task)
| Fetch (rq : Request) (k : FetchReply Num → Task)
| Yield (k : Task)
| Spawn (t : Task) (k : Task).

(** [t; rest]: also [await t; rest] for a call [t] of an async function. *)
Fixpoint seq (t rest : Task) : Task :=
  match t with
  | Ret => rest
  | Throw e => Throw e
  | Read k => Read (λ p, seq (k p) rest)
  | Write f k => Write f (seq k rest)
  | Fetch rq k => Fetch rq (λ r, seq (k r) rest)
  | Yield k => Yield (seq k rest)
  | Spawn t' k => Spawn t' (seq k rest)
  end.

(** [try { t } catch (error) { h error }] *)
Fixpoint try_catch (t : Task) (h : JsError → Task) : Task :=
  match t with
  | Ret => Ret
  | Throw e => h e
  | Read k => Read (λ p, try_catch (k p) h)
  | Write f k => Write f (try_catch k h)
  | Fetch rq k => Fetch rq (λ r, try_catch (k r) h)
  | Yield k => Yield (try_catch k h)
  | Spawn t' k => Spawn t' (try_catch k h)
  end.

(** [try { t } finally { fin }] *)
Fixpoint try_finally (t fin : Task) : Task :=
  match t with
  | Ret => fin
  | Throw e => seq fin (Throw e)
  | Read k => Read (λ p, try_finally (k p) fin)
  | Write f k => Write f (try_finally k fin)
  | Fetch rq k => Fetch rq (λ r, try_finally (k r) fin)
  | Yield k => Yield (try_finally k fin)
  | Spawn t' k => Spawn t' (try_finally k fin)
  end.

(** A synchronous expression that may throw, inside a task. *)
Definition lift {A : Type} (x : Exn A) (k : A → Task) : Task :=
  match x with
  | Ok a => k a
  | Raise e => Throw e
  end.

(** [const response = await fetch(url)] *)
Definition await_fetch (url : string) (k : Response Num → Task) : Task :=
  Fetch (mkRequest "GET" url)
        (λ reply, match reply with
                  | NetFail e => Throw e
                  | NetResp r => k r
                  end).

(** [const data = await response.json()] *)
Definition await_json (r : Response Num) (k : Val → Task) : Task :=
  Yield (match body r with
         | JsonBody v => k v
         | NotJson msg => Throw (mkError "SyntaxError" msg)
         end).

(** ** The event loop *)

(** A task parked at an [await]. *)
Inductive Blocked : Type :=
| OnFetch (rq : Request) (k : FetchReply Num → Task)
| OnYield (k : Task).

Inductive Outcome : Type :=
| Completed
| Rejected (e : JsError)
| Suspended (b : Blocked).

Definition parked (o : Outcome) : list Blocked :=
  match o with
  | Suspended b => [b]
  | _ => []
  end.

(** Run a task up to its first [await].  The request of a [fetch] goes
    out when [fetch] is called.  A spawned task runs up to its own first
    [await] at the call; what is left of it is returned in the list. *)
Fixpoint run (t : Task) (p : Page Num) : Page Num * list Blocked * Outcome :=
  match t with
  | Ret => (p, [], Completed)
  | Throw e => (p, [], Rejected e)
  | Read k => run (k p) p
  | Write f k => run k (f p)
  | Fetch rq k => (log_request rq p, [], Suspended (OnFetch rq k))
  | Yield k => (p, [], Suspended (OnYield k))
  | Spawn t' k =>
      let '(p1, bs1, o1) := run t' p in
      let '(p2, bs2, o2) := run k p1 in
      (p2, bs1 ++ parked o1 ++ bs2, o2)
  end.

(** Drive one task to its end with nothing else running in between:
    each [fetch] it awaits settles with the next reply of [replies].
    Returned are the page, the tasks it spawned (parked), how it ended,
    and the replies it did not consume. *)
Fixpoint drive (t : Task) (p : Page Num) (replies : list (FetchReply Num))
    : Page Num * list Blocked * Outcome * list (FetchReply Num) :=
  match t with
  | Ret => (p, [], Completed, replies)
  | Throw e => (p, [], Rejected e, replies)
  | Read k => drive (k p) p replies
  | Write f k => drive k (f p) replies
  | Fetch rq k =>
      match replies with
      | [] => (log_request rq p, [], Suspended (OnFetch rq k), [])
      | r :: rest => drive (k r) (log_request rq p) rest
      end
  | Yield k => drive k p replies
  | Spawn t' k =>
      let '(p1, bs1, o1) := run t' p in
      let '(p2, bs2, o2, rest) := drive k p1 replies in
      (p2, bs1 ++ parked o1 ++ bs2, o2, rest)
  end.

(** [fetches_le n t]: on no path does [t] itself call [fetch] more than
    [n] times, whatever the replies and whatever the page looks like
    when it is read. *)
Inductive fetches_le : nat → Task → Prop :=
| fl_ret n : fetches_le n Ret
| fl_throw n e : fetches_le n (Throw e)
| fl_read n k : (∀ p, fetches_le n (k p)) → fetches_le n (Read k)
| fl_write n f k : fetches_le n k → fetches_le n (Write f k)
| fl_fetch n rq k : (∀ r, fetches_le n (k r)) → fetches_le (S n) (Fetch rq k)
| fl_yield n k : fetches_le n k → fetches_le n (Yield k)
| fl_spawn n t k : fetches_le n k → fetches_le n (Spawn t k).

End Tasks.

Arguments Task Num : clear implicits.
Arguments Blocked Num : clear implicits.
Arguments Outcome Num : clear implicits.

Notation "'let!' x ':=' e 'in' k" := (lift e (λ x, k))
  (at level 10, x name, e at level 100, k at level 200, only parsing).

(* ===================================================================== *)
(* Part IV. script.js                                                    *)
(* ===================================================================== *)

(** The element references the script takes once, when the document
    has loaded (lines 6-21), for the functions modelled here. *)
Record Consts := mkConsts {
  navLinks : list nat;
  views : list nat;
  countriesGrid : nat;
  savedCountriesGrid : nat;
  modalContainer : nat;
  modalAddBtn : nat;
  modalDeleteBtn : nat;
  customMessageModal : nat;
  customMessageText : nat;
  customMessageConfirmBtn : nat;
  customMessageCancelBtn : nat
}.

Section Script.
Context {Num : Type} `{!Engine Num}.
#[local] Abbreviation Val := (JsVal Num).
#[local] Abbreviation Task' := (Task Num).

Definition API_URL : string := "http://127.0.0.1:8000/api".

(** An element as the HTML parser or [document.createElement] makes it. *)
Definition element (cls : gset string) (c : Content) : Element Num :=
  mkElement cls None c false None [] [].

(** Allocate an element object and go on with its reference. *)
Definition Alloc (e : Element Num) (k : nat → Task') : Task' :=
  Read (λ p, let r := fresh (dom (elems p)) in
             Write (upd_elems (<[r := e]>)) (k r)).

(** [r.innerHTML = '<p class="cls">inner</p>'] *)
Definition innerHTML_paragraph (r : nat) (cls inner : string) (k : Task') : Task' :=
  Write (set_innerHTML r ("<p class=" +:+ dq +:+ cls +:+ dq +:+ ">" +:+ inner +:+ "</p>")) $
  Alloc (element {[cls]} (Html inner)) (λ para,
  Write (attach [r] None para) k).

(** The [if (weatherUpdateIntervalId) { clearInterval(...); ... = null; }]
    block that switchView, openModal and closeModal share.  A timer
    handle is a positive integer, hence truthy. *)
Definition clear_weather_interval (k : Task') : Task' :=
  Read (λ p,
    match weatherUpdateIntervalId p with
    | Some h =>
        Write (clearInterval h) $
        Write (set_weatherUpdateIntervalId None) k
    | None => k
    end).

(** ** fetchWeatherForCountry (lines 249-300) *)

Definition weather_markup (temperature windspeed time last_updated : string) : string :=
  nl
  +:+ "                    <p><strong>Temperatura:</strong> " +:+ temperature +:+ "°C</p>" +:+ nl
  +:+ "                    <p><strong>Velocidad del viento:</strong> " +:+ windspeed +:+ " m/s</p>" +:+ nl
  +:+ "                    <p><strong>Hora de la medición:</strong> " +:+ time +:+ "</p>" +:+ nl
  +:+ "                    <p class=" +:+ dq +:+ "last-updated-text" +:+ dq +:+ ">Última actualización: " +:+ last_updated +:+ "</p>" +:+ nl
  +:+ "                ".

(** The template of lines 279-284: each substitution is evaluated and
    converted in turn, so the first that throws decides the error. *)
Definition weather_details (weatherData : Val) : Exn string :=
  temperature ← prop weatherData "temperature";
  temperature_text ← ToString temperature;
  windspeed ← prop weatherData "windspeed";
  windspeed_text ← ToString windspeed;
  time ← prop weatherData "time";
  time_text ← Date_toLocaleString time;
  last_updated ← prop weatherData "last_updated";
  last_updated_text ← Date_toLocaleString last_updated;
  Ok (weather_markup temperature_text windspeed_text time_text last_updated_text).

(** What the [try] block does with the response. *)
Definition on_weather_response (statusText details : nat) (response : Response Num)
    : Task' :=
  if negb (resp_ok response) then
    await_json response (λ errorData,
      let! detail := prop errorData "detail" in
      let! error := new_Error (if truthy detail then detail
                               else JStr "No se pudo obtener el clima.") in
      Throw error)
  else
    await_json response (λ weatherData,
      let! message := prop weatherData "message" in
      if truthy message then
        let! text := ToString message in
        Write (set_textContent statusText text) $
        Write (set_innerHTML details "") Ret
      else
        let! temperature := prop weatherData "temperature" in
        let! windspeed := prop weatherData "windspeed" in
        if is_not_NA temperature && is_not_NA windspeed then
          Write (set_textContent statusText "Clima actual:") $
          let! markup := weather_details weatherData in
          Write (set_innerHTML details markup) Ret
        else
          Write (set_textContent statusText
                   "Datos de clima no disponibles o incompletos.") $
          Write (set_innerHTML details "") Ret).

(** The request of line 266.  The country code is taken to have a
    string value: the conversion of a code that has none throws before
    the request, and no statement below is about such a code without
    saying so. *)
Definition weather_request (cca3 : Val) : Request :=
  mkRequest "GET" (API_URL +:+ "/weather/" +:+ toStr cca3).

(** The [try] block, once the five elements are at hand. *)
Definition weather_try (cca3 : Val) (statusText details : nat) : Task' :=
  await_fetch (rq_url (weather_request cca3))
              (on_weather_response statusText details).

Definition weather_catch (statusText details : nat) (error : JsError) : Task' :=
  Write (set_textContent statusText
           ("Error al cargar clima: " +:+ err_message error)) $
  Write (set_innerHTML details "") $
  Write (console_error error) Ret.

Definition weather_finally (spinner btn : nat) : Task' :=
  Write (classList_add spinner "hidden") $
  Write (modify btn (set_disabled false)) $
  Write (set_textContent btn "Consultar Clima") Ret.

Definition fetchWeatherForCountry (cca3 : Val) (force : bool) : Task' :=
  Read (λ p,
    let weatherStatusElement := getElementById p "weather-status" in
    let weatherStatusTextElement := getElementById p "weather-status-text" in
    let weatherDetailsElement := getElementById p "weather-details" in
    let consultarClimaBtn := getElementById p "consultar-clima-btn" in
    let spinnerElement :=
      match weatherStatusElement with
      | Some st => querySelector p "spinner" st
      | None => None
      end in
    match weatherStatusElement, weatherStatusTextElement,
          weatherDetailsElement, consultarClimaBtn, spinnerElement with
    | Some _, Some statusText, Some details, Some btn, Some spinner =>
        Write (classList_remove spinner "hidden") $
        Write (modify btn (set_disabled true)) $
        Write (set_textContent btn "Actualizando...") $
        Write (set_textContent statusText "Cargando clima...") $
        Write (set_innerHTML details "") $
        try_finally
          (try_catch (weather_try cca3 statusText details)
                     (weather_catch statusText details))
          (weather_finally spinner btn)
    | _, _, _, _, _ => Ret
    end).

(** ** showCustomMessage (lines 26-43) *)

Section WithConsts.
Context (K : Consts).

(** The synchronous effect of [showCustomMessage(message)], as openModal
    (line 244) and displaySavedCountries (line 360) call it: neither
    awaits the promise it returns.  saveCountry and deleteCountry, which
    await it, are not modelled. *)
Definition showCustomMessage (message : string) (k : Task') : Task' :=
  Write (set_innerHTML (customMessageText K) ("<p>" +:+ message +:+ "</p>")) $
  Write (classList_remove (customMessageConfirmBtn K) "hidden") $
  Write (classList_add (customMessageCancelBtn K) "hidden") $
  Write (classList_remove (customMessageModal K) "hidden") $
  Write (set_focused (customMessageConfirmBtn K)) $
  Write (modify (customMessageConfirmBtn K)
           (set_listeners (λ l, l ++ [CbDismissMessage]))) k.

(** Drop one registration of the handler, as [removeEventListener]
    does with the closure that is running. *)
Fixpoint remove_listener (cb_is : Callback Num → bool) (l : list (Callback Num))
    : list (Callback Num) :=
  match l with
  | [] => []
  | cb :: rest => if cb_is cb then rest else cb :: remove_listener cb_is rest
  end.

(** [clickHandler] (lines 36-40) of a call of showCustomMessage whose
    promise nobody awaits: its [resolve(true)] resumes nothing.  What a
    click resumes in saveCountry and deleteCountry, which await the
    message, is not modelled. *)
Definition clickHandler : Task' :=
  Write (classList_add (customMessageModal K) "hidden") $
  Write (modify (customMessageConfirmBtn K)
           (set_listeners (remove_listener
              (λ cb, match cb with CbDismissMessage => true | _ => false end)))) Ret.

(** ** createCard (lines 165-179) *)

Definition card_markup (flagUrl countryName : string) : string :=
  nl
  +:+ "            <img src=" +:+ dq +:+ flagUrl +:+ dq +:+ " class=" +:+ dq +:+ "card-img" +:+ dq +:+ " alt=" +:+ dq +:+ "Bandera de " +:+ countryName +:+ dq +:+ ">" +:+ nl
  +:+ "            <div class=" +:+ dq +:+ "card-body" +:+ dq +:+ ">" +:+ nl
  +:+ "                <h3>" +:+ countryName +:+ "</h3>" +:+ nl
  +:+ "            </div>" +:+ nl
  +:+ "        ".

(** The click handler reads [country.cca3] when it runs; [country] is
    an immutable value, so the read is done here. *)
Definition createCard (country : Val) (container : nat) (source : string)
    (k : Task') : Task' :=
  Alloc (element {["card"]} (Html "")) (λ card,
  let! flags := prop country "flags" in
  let! flagUrl := (if truthy flags then prop flags "png"
                   else prop country "flag_url") in
  let! name := prop country "name" in
  let! common := prop name "common" in
  let countryName := if truthy common then common else name in
  let! flagText := ToString flagUrl in
  let! nameText := ToString countryName in
  Write (set_innerHTML card (card_markup flagText nameText)) $
  let! cca3 := prop country "cca3" in
  Write (modify card (set_listeners
           (λ l, l ++ [CbOpenModal cca3 (String.eqb source "local")]))) $
  Write (attach [container] None card) k).

(** [countries.forEach(country => createCard(country, container, source))] *)
Definition forEach_createCard (countries : Val) (container : nat)
    (source : string) (k : Task') : Task' :=
  match countries with
  | JArr items => foldr (λ country, createCard country container source) k items
  | JUndefined | JNull =>
      Throw (typeError (nullish_access_message countries "forEach"))
  | _ => Throw (typeError (not_a_function_message countries "forEach"))
  end.

(** ** fetchAndDisplayCountries and its callers (lines 138-162) *)

Definition fetchAndDisplayCountries (endpoint : string) : Task' :=
  innerHTML_paragraph (countriesGrid K) "loading-text" "Cargando países..." $
  try_catch
    (await_fetch (API_URL +:+ endpoint) (λ response,
       if negb (resp_ok response) then
         Throw (mkError "Error" "No se encontraron países con ese criterio.")
       else
         await_json response (λ countries,
           Write (set_innerHTML (countriesGrid K) "") $
           forEach_createCard countries (countriesGrid K) "browse" Ret)))
    (λ error,
       innerHTML_paragraph (countriesGrid K) "error-text" (err_message error) Ret).

Definition fetchCountriesByRegion (region : string) : Task' :=
  let endpoint := if String.eqb region "all" then "/countries/all"
                  else "/countries/by-region/" +:+ region in
  Spawn (fetchAndDisplayCountries endpoint) Ret.

Definition fetchCountriesBySubregion (subregion : string) : Task' :=
  Spawn (fetchAndDisplayCountries ("/countries/by-subregion/" +:+ subregion)) Ret.

Definition fetchCountriesByName (name : string) : Task' :=
  Spawn (fetchAndDisplayCountries ("/countries/by-name/" +:+ name)) Ret.

(** ** displaySavedCountries (lines 341-362) *)

(** [countries.length === 0] *)
Definition length_is_zero (countries : Val) : Exn bool :=
  match countries with
  | JUndefined | JNull =>
      Raise (typeError (nullish_access_message countries "length"))
  | JArr items => Ok (bool_decide (items = []))
  | JStr s => Ok (String.eqb s "")
  | JObj props =>
      Ok (match own "length" props with
          | Some (JNum n) => num_is_zero n
          | _ => false
          end)
  | _ => Ok false
  end.

Definition displaySavedCountries : Task' :=
  innerHTML_paragraph (savedCountriesGrid K) "loading-text"
    "Cargando países guardados..." $
  try_catch
    (await_fetch (API_URL +:+ "/saved-countries") (λ response,
       if negb (resp_ok response) then
         Throw (mkError "Error" "No se pudo conectar a la base de datos.")
       else
         await_json response (λ countries,
           Write (set_innerHTML (savedCountriesGrid K) "") $
           let! empty := length_is_zero countries in
           if empty then
             innerHTML_paragraph (savedCountriesGrid K) "placeholder-text"
               "No has guardado ningún país todavía." Ret
           else
             forEach_createCard countries (savedCountriesGrid K) "local" Ret)))
    (λ error,
       innerHTML_paragraph (savedCountriesGrid K) "error-text" (err_message error) $
       showCustomMessage
         ("⚠️ Error al cargar países guardados: " +:+ err_message error) Ret).

(** ** switchView (lines 84-103) *)

Definition dataset_view (p : Page Num) (link : nat) : option string :=
  match elems p !! link with
  | Some e => data_view e
  | None => None
  end.

(** [viewName] is a [data-view] attribute or ['home']; [None] stands
    for [undefined], the value of a missing attribute. *)
Definition switchView (viewName : option string) : Task' :=
  Write (λ p, foldl (λ q view, classList_add view "hidden" q) p (views K)) $
  Read (λ p,
    (match getElementById p ("view-" +:+ default "undefined" viewName) with
     | Some activeView => Write (classList_remove activeView "hidden")
     | None => λ k, k
     end) $
  Write (λ q, foldl (λ q' link,
                 classList_toggle link "active"
                   (bool_decide (dataset_view q' link = viewName)) q')
               q (navLinks K)) $
  Read (λ q,
    (if bool_decide (viewName = Some "browse")
        && (childElementCount q (countriesGrid K) =? 0)%nat
     then Spawn (fetchCountriesByRegion "all") else λ k, k) $
    (if bool_decide (viewName = Some "local")
     then Spawn displaySavedCountries else λ k, k) $
    clear_weather_interval $
    Write (set_currentCountryCodeInModal None) Ret)).

(** ** openModal (lines 181-246) *)

Definition details_markup (name capital population region currency language : string)
    : string :=
  nl
  +:+ "                <h2>" +:+ name +:+ "</h2>" +:+ nl
  +:+ "                <p><strong>Capital:</strong> " +:+ capital +:+ "</p>" +:+ nl
  +:+ "                <p><strong>Población:</strong> " +:+ population +:+ "</p>" +:+ nl
  +:+ "                <p><strong>Región:</strong> " +:+ region +:+ "</p>" +:+ nl
  +:+ "                <p><strong>Moneda:</strong> " +:+ currency +:+ "</p>" +:+ nl
  +:+ "                <p><strong>Idioma Principal:</strong> " +:+ language +:+ "</p>" +:+ nl
  +:+ "                <div class=" +:+ dq +:+ "weather-info" +:+ dq +:+ ">" +:+ nl
  +:+ "                    <h3>Clima Actual</h3>" +:+ nl
  +:+ "                    <p id=" +:+ dq +:+ "weather-status" +:+ dq +:+ ">" +:+ nl
  +:+ "                        <span class=" +:+ dq +:+ "spinner hidden" +:+ dq +:+ "></span> <span id=" +:+ dq +:+ "weather-status-text" +:+ dq +:+ ">Cargando clima...</span>" +:+ nl
  +:+ "                    </p>" +:+ nl
  +:+ "                    <div id=" +:+ dq +:+ "weather-details" +:+ dq +:+ ">" +:+ nl
  +:+ "                        <!-- Aquí se cargarán los datos del clima -->" +:+ nl
  +:+ "                    </div>" +:+ nl
  +:+ "                    <button id=" +:+ dq +:+ "consultar-clima-btn" +:+ dq +:+ " class=" +:+ dq +:+ "btn-secondary weather-btn" +:+ dq +:+ ">Consultar Clima</button>" +:+ nl
  +:+ "                </div>" +:+ nl
  +:+ "            ".

(** The elements with an id or a queried class that the parser creates
    from [details_markup] below [modalBody], in tree order. *)
Definition mount_weather_info (modalBody : nat) (k : Task') : Task' :=
  Alloc (element ∅ (Html "")) (λ weatherStatus,
  Write (attach [modalBody] (Some "weather-status") weatherStatus) $
  Alloc (element {["spinner"; "hidden"]} (Html "")) (λ spinner,
  Write (attach [weatherStatus; modalBody] None spinner) $
  Alloc (element ∅ (Text "Cargando clima...")) (λ statusText,
  Write (attach [weatherStatus; modalBody] (Some "weather-status-text") statusText) $
  Alloc (element ∅ (Html "")) (λ details,
  Write (attach [modalBody] (Some "weather-details") details) $
  Alloc (element {["btn-secondary"; "weather-btn"]} (Text "Consultar Clima")) (λ btn,
  Write (attach [modalBody] (Some "consultar-clima-btn") btn) k))))).

(** [x ? x[0] : 'N/A'] and its two variants in lines 206-208. *)
Definition capital_of (country : Val) : Exn Val :=
  c ← prop country "capital";
  if truthy c then first c else Ok (JStr "N/A").

Definition currency_of (country : Val) : Exn Val :=
  c ← prop country "currencies";
  if truthy c then vs ← object_values c; v ← first vs; prop v "name"
  else Ok (JStr "N/A").

Definition language_of (country : Val) : Exn Val :=
  c ← prop country "languages";
  if truthy c then vs ← object_values c; first vs
  else Ok (JStr "N/A").

(** Lines 206-227: the markup of the dialog for [country].  Lines
    206-208 are read first; in the template each substitution is
    evaluated and converted in turn.  Any of the reads and conversions
    may throw. *)
Definition country_details (country : Val) : Exn string :=
  capital ← capital_of country;
  currency ← currency_of country;
  language ← language_of country;
  name ← prop country "name";
  common ← prop name "common";
  common_text ← ToString common;
  capital_text ← ToString capital;
  population ← prop country "population";
  population_text ← call_toLocaleString population;
  region ← prop country "region";
  region_text ← ToString region;
  currency_text ← ToString currency;
  language_text ← ToString language;
  Ok (details_markup common_text capital_text population_text
                     region_text currency_text language_text).

(** Line 241: [weatherUpdateIntervalId = setInterval(() =>
    fetchWeatherForCountry(countryCode), 60000)] *)
Definition start_weather_interval (countryCode : Val) (p : Page Num) : Page Num :=
  let '(h, q) := setInterval (CbFetchWeather countryCode false) 60000 p in
  set_weatherUpdateIntervalId (Some h) q.

(** The [try] block of openModal. *)
Definition openModal_try (countryCode : Val) (isFromSavedView : bool)
    (modalBody : nat) : Task' :=
  await_fetch (API_URL +:+ "/country/" +:+ toStr countryCode) (λ response,
    if negb (resp_ok response) then
      Throw (mkError "Error" "No se pudieron cargar los detalles del país.")
    else
      await_json response (λ country,
        let! markup := country_details country in
        Write (set_innerHTML modalBody markup) $
        mount_weather_info modalBody $
        (if negb isFromSavedView
         then Write (modify (modalAddBtn K) (set_onclick (CbSaveCountry country)))
         else λ k, k) $
        Read (λ p,
          (match getElementById p "consultar-clima-btn" with
           | Some consultarClimaBtn =>
               Write (modify consultarClimaBtn
                        (set_listeners (λ l, l ++ [CbFetchWeather countryCode true])))
           | None => λ k, k
           end) $
          seq (fetchWeatherForCountry countryCode false) $
          Write (start_weather_interval countryCode) Ret))).

Definition openModal_catch (modalBody : nat) (error : JsError) : Task' :=
  innerHTML_paragraph modalBody "error-text"
    ("Error al cargar el país: " +:+ err_message error) $
  showCustomMessage
    ("⚠️ Error al cargar los detalles del país: " +:+ err_message error) Ret.

Definition openModal (countryCode : Val) (isFromSavedView : bool) : Task' :=
  Read (λ p,
    match getElementById p "modal-body" with
    | None => Throw (typeError (nullish_access_message JNull "innerHTML"))
    | Some modalBody =>
        innerHTML_paragraph modalBody "loading-text" "Cargando detalles..." $
        clear_weather_interval $
        Write (set_currentCountryCodeInModal (Some countryCode)) $
        (if isFromSavedView then
           λ k, Write (classList_add (modalAddBtn K) "hidden") $
                Write (classList_remove (modalDeleteBtn K) "hidden") $
                Write (modify (modalDeleteBtn K)
                         (set_onclick (CbDeleteCountry countryCode))) k
         else
           λ k, Write (classList_remove (modalAddBtn K) "hidden") $
                Write (classList_add (modalDeleteBtn K) "hidden") k) $
        Write (classList_remove (modalContainer K) "hidden") $
        try_catch (openModal_try countryCode isFromSavedView modalBody)
                  (openModal_catch modalBody)
    end).

(** ** closeModal (lines 302-309) *)

Definition closeModal : Task' :=
  Write (classList_add (modalContainer K) "hidden") $
  clear_weather_interval $
  Write (set_currentCountryCodeInModal None) Ret.

End WithConsts.
End Script.

(** ** The page as a reactive system *)

Section EventLoop.
Context {Num : Type} `{!Engine Num} (K : Consts).

(** The body a registered closure runs.  The bodies of saveCountry and
    deleteCountry (lines 319-339 and 364-385) are not modelled: a click
    that would run one of them is no step of this model. *)
Definition handler (cb : Callback Num) : option (Task Num) :=
  match cb with
  | CbFetchWeather cca3 force => Some (fetchWeatherForCountry cca3 force)
  | CbOpenModal cca3 isFromSavedView => Some (openModal K cca3 isFromSavedView)
  | CbDismissMessage => Some (clickHandler K)
  | CbSaveCountry _ | CbDeleteCountry _ => None
  end.

(** The page together with the tasks parked at an [await]. *)
Record World := mkWorld { page : Page Num; waiting : list (Blocked Num) }.

(** What the browser can do next: dispatch a click, fire an interval,
    settle a pending [fetch] or resume a task whose awaited value is
    ready.  The search box, the region filters, the backdrop of the
    message dialog and the Escape key (lines 72-81 and 109-128) are not
    among the events. *)
Inductive Event : Type :=
| Navigate (viewName : option string)  (** nav link or logo: switchView *)
| Close                                (** close button or backdrop: closeModal *)
| Click (r : nat)                      (** click on a card or button *)
| Tick (h : positive)                  (** the interval [h] fires *)
| Settle (i : nat) (reply : FetchReply Num)
| Resume (i : nat).

(** Call [t] from the event loop: it runs to its first [await]. *)
Definition start (t : Task Num) (w : World) : World :=
  let '(p, bs, o) := run t (page w) in
  mkWorld p (waiting w ++ bs ++ parked o).

(** Elements a click can reach: the children of the two grids, what is
    below the modal body, and the buttons of the two dialogs. *)
Definition in_document (p : Page Num) (r : nat) : bool :=
  let below c := match elems p !! c with
                 | Some e => descendants e
                 | None => []
                 end in
  bool_decide (r ∈ below (countriesGrid K) ++ below (savedCountriesGrid K)
                   ++ match getElementById p "modal-body" with
                      | Some b => below b
                      | None => []
                      end
                   ++ [modalAddBtn K; modalDeleteBtn K; customMessageConfirmBtn K]).

(** All listeners of the clicked element run, each as a call of its own. *)
Fixpoint dispatch (cbs : list (Callback Num)) : option (Task Num) :=
  match cbs with
  | [] => Some Ret
  | cb :: rest =>
      match handler cb, dispatch rest with
      | Some t, Some k => Some (Spawn t k)
      | _, _ => None
      end
  end.

Definition step (w : World) (ev : Event) : option World :=
  match ev with
  | Navigate viewName => Some (start (switchView K viewName) w)
  | Close => Some (start (closeModal K) w)
  | Click r =>
      match elems (page w) !! r with
      | Some e =>
          if in_document (page w) r && negb (disabled e) then
            match dispatch (listeners e ++ option_list (onclick e)) with
            | Some t => Some (start t w)
            | None => None
            end
          else None
      | None => None
      end
  | Tick h =>
      match timers (page w) !! h with
      | Some iv =>
          match handler (iv_callback iv) with
          | Some t => Some (start t w)
          | None => None
          end
      | None => None
      end
  | Settle i reply =>
      match waiting w !! i with
      | Some (OnFetch _ k) => Some (start (k reply) (mkWorld (page w) (delete i (waiting w))))
      | _ => None
      end
  | Resume i =>
      match waiting w !! i with
      | Some (OnYield k) => Some (start k (mkWorld (page w) (delete i (waiting w))))
      | _ => None
      end
  end.

(** A run of the page: the events happen one after the other; [None]
    when one of them is not possible in the state it meets. *)
Fixpoint steps (w : World) (evs : list Event) : option World :=
  match evs with
  | [] => Some w
  | ev :: rest =>
      match step w ev with
      | Some w' => steps w' rest
      | None => None
      end
  end.

(** The events of the passive refresh of the interval [h]: the interval
    fires, a pending [fetch] settles, a parked task resumes.  The user
    does nothing. *)
Definition refresh_event (h : positive) (ev : Event) : Prop :=
  match ev with
  | Tick h' => h' = h
  | Settle _ _ | Resume _ => True
  | Navigate _ | Close | Click _ => False
  end.

End EventLoop.

Arguments World Num : clear implicits.
Arguments Event Num : clear implicits.

(* ===================================================================== *)
(* Part V. The weather gateway and loader                                *)
(* ===================================================================== *)

(** The server side (CacheGateway, Loader, Store) is not part of the
    client script; it is modelled here from its specification. *)
Module Gateway.

Definition TTL : Z := 60.

(** What the Validator/Cleaner accepts: a field is [None] when
    unavailable. *)
Record CleanedFields := mkFields {
  f_temperature : option Z;
  f_windspeed : option Z;
  f_measurement_time : Z
}.

Record WeatherCleanedRecord := mkCleaned {
  fields : CleanedFields;
  last_updated : Z
}.

Record WeatherRawRecord := mkRaw {
  raw_country_code : string;
  fetched_at : Z;
  raw_payload : string
}.

Record Store := mkStore {
  raw : list WeatherRawRecord;
  cleaned : gmap string WeatherCleanedRecord
}.

(** Modelled from the spec: the upsert of the Loader (sections 3 and
    4.4).  The new record's [last_updated] is the local clock; a load
    whose measurement time is older than or equal to the stored one is
    accepted only if the local clock is strictly newer; a write never
    regresses [last_updated]. *)
Definition upsert (now : Z) (f : CleanedFields) (old : option WeatherCleanedRecord)
    : WeatherCleanedRecord :=
  match old with
  | None => mkCleaned f now
  | Some o =>
      if f_measurement_time f <=? f_measurement_time (fields o) then
        if last_updated o <? now then mkCleaned f now else o
      else mkCleaned f (Z.max now (last_updated o))
  end.

(** Modelled from the spec: [Loader.load(code, raw, cleaned | null)]
    (section 4.4).  The raw record is always appended; the cleaned
    record is upserted on acceptance and left alone on rejection. *)
Definition load (now : Z) (code payload : string) (f : option CleanedFields)
    (st : Store) : Store :=
  mkStore (raw st ++ [mkRaw code now payload])
          (match f with
           | Some f' => <[code := upsert now f' (cleaned st !! code)]> (cleaned st)
           | None => cleaned st
           end).

(** One call of [load], as the gateway or the bulk runner issues it. *)
Record LoadCall := mkLoad {
  l_now : Z;
  l_code : string;
  l_payload : string;
  l_fields : option CleanedFields
}.

Definition loads (ls : list LoadCall) (st : Store) : Store :=
  foldl (λ s l, load (l_now l) (l_code l) (l_payload l) (l_fields l) s) st ls.

(** [last_updated] of the record stored for [code], if any. *)
Definition stored_at (st : Store) (code : string) : option Z :=
  last_updated <$> cleaned st !! code.

(** ** CacheGateway (section 4.1) *)

Inductive Failure : Type :=
| UpstreamUnavailable (reason : string)
| ValidationRejected (reason : string).

(** What the Extractor and the Validator make of one extraction. *)
Inductive Fetched : Type :=
| Accepted (payload : string) (f : CleanedFields)
| Invalid (payload : string) (reason : string)
| UpstreamError (reason : string).

(** What a caller of [get] receives. *)
Inductive Outcome : Type :=
| Served (r : WeatherCleanedRecord)
| StaleFallback (r : WeatherCleanedRecord) (why : Failure)
| Failed (why : Failure).

Record State := mkState {
  store : Store;
  (** the callers attached to the extraction in flight, per country *)
  fetching : gmap string (list nat);
  (** the Extractor invocations so far, oldest first *)
  extractions : list string;
  (** what each caller has received *)
  delivered : list (nat * Outcome)
}.

Inductive Event : Type :=
| Get (caller : nat) (code : string) (force : bool) (now : Z)
| Resolve (code : string) (x : Fetched) (now : Z).

Definition fresh_at (now : Z) (r : WeatherCleanedRecord) : bool :=
  now - last_updated r <? TTL.

(** Modelled from the spec: the state machine of section 4.1.  A [get]
    that finds an extraction in flight attaches to it; one that finds a
    fresh record and does not force returns it; any other starts the
    one extraction. *)
Definition get (caller : nat) (code : string) (force : bool) (now : Z)
    (g : State) : State :=
  match fetching g !! code with
  | Some callers =>
      mkState (store g) (<[code := callers ++ [caller]]> (fetching g))
              (extractions g) (delivered g)
  | None =>
      match cleaned (store g) !! code with
      | Some r =>
          if negb force && fresh_at now r then
            mkState (store g) (fetching g) (extractions g)
                    (delivered g ++ [(caller, Served r)])
          else
            mkState (store g) (<[code := [caller]]> (fetching g))
                    (extractions g ++ [code]) (delivered g)
      | None =>
          mkState (store g) (<[code := [caller]]> (fetching g))
                  (extractions g ++ [code]) (delivered g)
      end
  end.

Definition degrade (st : Store) (code : string) (why : Failure) : Outcome :=
  match cleaned st !! code with
  | Some r => StaleFallback r why
  | None => Failed why
  end.

(** Modelled from the spec: the extraction in flight for [code]
    completes.  The store is written once, every attached caller
    receives the one outcome, and the country leaves [fetching]. *)
Definition resolve (code : string) (x : Fetched) (now : Z) (g : State) : State :=
  match fetching g !! code with
  | None => g
  | Some callers =>
      let '(st, out) :=
        match x with
        | Accepted payload f =>
            (load now code payload (Some f) (store g),
             Served (upsert now f (cleaned (store g) !! code)))
        | Invalid payload reason =>
            (load now code payload None (store g),
             degrade (store g) code (ValidationRejected reason))
        | UpstreamError reason =>
            (store g, degrade (store g) code (UpstreamUnavailable reason))
        end in
      mkState st (delete code (fetching g)) (extractions g)
              (delivered g ++ ((λ c, (c, out)) <$> callers))
  end.

Definition handle (g : State) (ev : Event) : State :=
  match ev with
  | Get caller code force now => get caller code force now g
  | Resolve code x now => resolve code x now g
  end.

Definition handle_all (g : State) (evs : list Event) : State :=
  foldl handle g evs.

(** The countries that the calls of [get] among [evs] ask for, in their
    order. *)
Definition requested (evs : list Event) : list string :=
  omap (λ ev, match ev with
              | Get _ code _ _ => Some code
              | Resolve _ _ _ => None
              end) evs.

(** The number of Extractor invocations for [code]. *)
Definition extractions_of (code : string) (g : State) : nat :=
  length (filter (λ c, c = code) (extractions g)).

(** The country has no fresh cleaned record at [now]: it is Empty or
    Stale, and no extraction is in flight for it. *)
Definition needs_extraction (code : string) (now : Z) (g : State) : Prop :=
  fetching g !! code = None ∧
  match cleaned (store g) !! code with
  | Some r => fresh_at now r = false
  | None => True
  end.

End Gateway.

(* ===================================================================== *)
(* Part VI. What is observed of a page and of a run                      *)
(* ===================================================================== *)

Section Observations.
Context {Num : Type} `{!Engine Num}.
#[local] Abbreviation Val := (JsVal Num).

(** The element [r] carries the content [c]. *)
Definition shows (p : Page Num) (r : nat) (c : Content) : Prop :=
  content <$> elems p !! r = Some c.

(** [r.disabled], when [r] is a live element. *)
Definition is_disabled (p : Page Num) (r : nat) : option bool :=
  disabled <$> elems p !! r.

(** The five lookups of lines 250-254 succeed. *)
Record weather_found (p : Page Num) (statusText details btn spinner : nat)
    : Prop := {
  wf_status : ∃ st, getElementById p "weather-status" = Some st
                    ∧ querySelector p "spinner" st = Some spinner;
  wf_text : getElementById p "weather-status-text" = Some statusText;
  wf_details : getElementById p "weather-details" = Some details;
  wf_btn : getElementById p "consultar-clima-btn" = Some btn
}.

(** The elements fetchWeatherForCountry writes to are in the document,
    and are four different live objects, as elements with different
    ids are. *)
Record weather_elements (p : Page Num) (statusText details btn spinner : nat)
    : Prop := {
  we_found : weather_found p statusText details btn spinner;
  we_distinct : NoDup [statusText; details; btn; spinner];
  we_live : Forall (λ r, is_Some (elems p !! r)) [statusText; details; btn; spinner]
}.

(** One of the five lookups of lines 250-254 comes back empty. *)
Definition weather_element_missing (p : Page Num) : Prop :=
  getElementById p "weather-status" = None
  ∨ getElementById p "weather-status-text" = None
  ∨ getElementById p "weather-details" = None
  ∨ getElementById p "consultar-clima-btn" = None
  ∨ (∃ st, getElementById p "weather-status" = Some st
           ∧ querySelector p "spinner" st = None).

(** The synchronous statements of lines 259-263. *)
Definition weather_begin (statusText details btn spinner : nat) (p : Page Num)
    : Page Num :=
  set_innerHTML details ""
    (set_textContent statusText "Cargando clima..."
       (set_textContent btn "Actualizando..."
          (modify btn (set_disabled true)
             (classList_remove spinner "hidden" p)))).

(** The statements of the [finally] block, lines 296-298. *)
Definition weather_end (btn spinner : nat) (p : Page Num) : Page Num :=
  set_textContent btn "Consultar Clima"
    (modify btn (set_disabled false) (classList_add spinner "hidden" p)).

(** [q] has the element objects, the timers and the closure variables
    of [p]; the objects may have been written to. *)
Record retouched (p q : Page Num) : Prop := {
  rt_dom : dom (elems q) = dom (elems p);
  rt_timers : timers q = timers p;
  rt_interval : weatherUpdateIntervalId q = weatherUpdateIntervalId p;
  rt_country : currentCountryCodeInModal q = currentCountryCodeInModal p
}.

(** The run ended normally and its last statement was line 241. *)
Definition ends_with_interval (countryCode : Val)
    (result : Page Num * list (Blocked Num) * Outcome Num * list (FetchReply Num))
    : Prop :=
  ∃ q bs rest, result = (start_weather_interval countryCode q, bs, Completed, rest).

(** Whatever the page, [t] driven with [rs] ends that way. *)
Definition reaches_interval (countryCode : Val) (t : Task Num)
    (rs : list (FetchReply Num)) : Prop :=
  ∀ p, ends_with_interval countryCode (drive t p rs).

End Observations.

(** ** Properties of a task over all its runs *)

Section Behaviour.
Context {Num : Type} `{!Engine Num}.
#[local] Abbreviation Val := (JsVal Num).

(** [settles t]: on no path, whatever the page and the replies, does an
    exception escape [t] (the promise of the call is never rejected). *)
Inductive settles : Task Num → Prop :=
| st_Ret : settles Ret
| st_Read k : (∀ p, settles (k p)) → settles (Read k)
| st_Write f k : settles k → settles (Write f k)
| st_Fetch rq k : (∀ r, settles (k r)) → settles (Fetch rq k)
| st_Yield k : settles k → settles (Yield k)
| st_Spawn t k : settles k → settles (Spawn t k).

(** [respects R t]: every write of [t], of the tasks it spawns and of
    what they do after an [await], takes a page to an [R]-related one. *)
Inductive respects (R : Page Num → Page Num → Prop) : Task Num → Prop :=
| rs_Ret : respects R Ret
| rs_Throw e : respects R (Throw e)
| rs_Read k : (∀ p, respects R (k p)) → respects R (Read k)
| rs_Write f k : (∀ p, R p (f p)) → respects R k → respects R (Write f k)
| rs_Fetch rq k :
    (∀ p, R p (log_request rq p)) → (∀ r, respects R (k r)) →
    respects R (Fetch rq k)
| rs_Yield k : respects R k → respects R (Yield k)
| rs_Spawn t k : respects R t → respects R k → respects R (Spawn t k).

Definition respects_blocked (R : Page Num → Page Num → Prop) (b : Blocked Num)
    : Prop :=
  match b with
  | OnFetch _ k => ∀ r, respects R (k r)
  | OnYield k => respects R k
  end.

(** The part of the page that is not the document: timers, closure
    variables and the two logs. *)
Definition frame (p : Page Num)
    : gmap positive (Interval Num) * option positive * option Val
      * list Request * list JsError :=
  (timers p, weatherUpdateIntervalId p, currentCountryCodeInModal p,
   requests p, console p).

(** [q] has the frame of [p]. *)
Definition same_frame (p q : Page Num) : Prop := frame q = frame p.

(** Every active interval fires every 60000 ms and calls
    fetchWeatherForCountry for some country, without [force]. *)
Definition weather_intervals_only (p : Page Num) : Prop :=
  ∀ h iv, timers p !! h = Some iv →
          iv_delay iv = 60000 ∧ ∃ cca3, iv_callback iv = CbFetchWeather cca3 false.

(** Whatever intervals [p] has, if they are weather intervals then so
    are those of [q]. *)
Definition keeps_weather_intervals (p q : Page Num) : Prop :=
  weather_intervals_only p → weather_intervals_only q.

(** [q] has the intervals of [p], and the handle that line 241 keeps is
    the same. *)
Definition timers_kept (p q : Page Num) : Prop :=
  timers q = timers p ∧ weatherUpdateIntervalId q = weatherUpdateIntervalId p.

(** [sends_within l t]: on every path the calls of [fetch] that [t]
    makes are, in their order, among the requests of [l], each used at
    most once; [t] starts no other task. *)
Inductive sends_within : list Request → Task Num → Prop :=
| sw_Ret l : sends_within l Ret
| sw_Throw l e : sends_within l (Throw e)
| sw_Read l k : (∀ p, sends_within l (k p)) → sends_within l (Read k)
| sw_Write l f k :
    (∀ p, requests (f p) = requests p) → sends_within l k →
    sends_within l (Write f k)
| sw_Fetch rq l k : (∀ r, sends_within l (k r)) → sends_within (rq :: l) (Fetch rq k)
| sw_Yield l k : sends_within l k → sends_within l (Yield k)
| sw_skip rq l t : sends_within l t → sends_within (rq :: l) t.

(** The timers once the block of lines 183-186 has run. *)
Definition without_weather_interval (p : Page Num) : gmap positive (Interval Num) :=
  match weatherUpdateIntervalId p with
  | Some h => delete h (timers p)
  | None => timers p
  end.

(** The exception that the [try] block of openModal throws before it
    touches the page (lines 195-208 and 211-215), if [reply] makes it
    throw one. *)
Definition openModal_error (reply : FetchReply Num) : option JsError :=
  match reply with
  | NetFail e => Some e
  | NetResp response =>
      if negb (resp_ok response) then
        Some (mkError "Error" "No se pudieron cargar los detalles del país.")
      else
        match body response with
        | NotJson msg => Some (mkError "SyntaxError" msg)
        | JsonBody country =>
            match country_details country with
            | Raise e => Some e
            | Ok _ => None
            end
        end
  end.

(** The elements listed as descendants of [r]. *)
Definition children_of (p : Page Num) (r : nat) : list (Element Num) :=
  match elems p !! r with
  | Some e => omap (λ d, elems p !! d) (descendants e)
  | None => []
  end.

(** What createCard reads from a country (lines 168-169 and 177) and
    converts in its template (lines 171-176): the text of the flag's
    address, the name on the card, and the code its click opens. *)
Definition card_data (country : Val) : Exn (string * string * Val) :=
  flags ← prop country "flags";
  flagUrl ← (if truthy flags then prop flags "png" else prop country "flag_url");
  name ← prop country "name";
  common ← prop name "common";
  flagText ← ToString flagUrl;
  nameText ← ToString (if truthy common then common else name);
  cca3 ← prop country "cca3";
  Ok (flagText, nameText, cca3).

(** The card createCard appends for such data. *)
Definition card_element (source : string) (d : string * string * Val)
    : Element Num :=
  mkElement {["card"]} None (Html (card_markup d.1.1 d.1.2))
            false None [CbOpenModal d.2 (String.eqb source "local")] [].

(** All the cards of a list of countries, or the first error. *)
Fixpoint cards_data (countries : list Val)
    : Exn (list (string * string * Val)) :=
  match countries with
  | [] => Ok []
  | country :: rest =>
      d ← card_data country;
      ds ← cards_data rest;
      Ok (d :: ds)
  end.

(** The container [r] lists live elements that are the cards of [ds],
    in that order. *)
Definition holds_cards (source : string) (p : Page Num) (r : nat)
    (ds : list (string * string * Val)) : Prop :=
  ∃ g, elems p !! r = Some g
       ∧ Forall2 (λ c d, elems p !! c = Some (card_element source d))
                 (descendants g) ds.

(** The exception that the [try] block of fetchAndDisplayCountries
    throws on [reply] (lines 154-158), if it throws one. *)
Definition listing_error (reply : FetchReply Num) : option JsError :=
  match reply with
  | NetFail e => Some e
  | NetResp response =>
      if negb (resp_ok response) then
        Some (mkError "Error" "No se encontraron países con ese criterio.")
      else
        match body response with
        | NotJson msg => Some (mkError "SyntaxError" msg)
        | JsonBody (JArr items) =>
            match cards_data items with
            | Raise e => Some e
            | Ok _ => None
            end
        | JsonBody ((JUndefined | JNull) as v) =>
            Some (typeError (nullish_access_message v "forEach"))
        | JsonBody v => Some (typeError (not_a_function_message v "forEach"))
        end
  end.

(** saveCountry, lines 320-325: the record it posts.  Both reads of a
    nested property throw when [name] or [flags] is missing. *)
Definition countryData (country : Val) : Exn Val :=
  cca3 ← prop country "cca3";
  name ← prop country "name";
  common ← prop name "common";
  region ← prop country "region";
  flags ← prop country "flags";
  png ← prop flags "png";
  Ok (JObj [("cca3", cca3); ("name", common); ("region", region);
            ("flag_url", png)]).

End Behaviour.

(** ** The page after a block of statements *)

Section Effects.
Context {Num : Type} `{!Engine Num} (K : Consts).
#[local] Abbreviation Val := (JsVal Num).

(** The page after [r.innerHTML = '<p class="cls">inner</p>']. *)
Definition with_paragraph (r : nat) (cls inner : string) (p : Page Num) : Page Num :=
  let p1 := set_innerHTML r ("<p class=" +:+ dq +:+ cls +:+ dq +:+ ">" +:+ inner +:+ "</p>") p in
  let para := fresh (dom (elems p1)) in
  attach [r] None para (upd_elems (<[para := element {[cls]} (Html inner)]>) p1).

(** The page after the block of lines 183-186 (98-101, 304-307). *)
Definition cleared (p : Page Num) : Page Num :=
  match weatherUpdateIntervalId p with
  | Some h => set_weatherUpdateIntervalId None (clearInterval h p)
  | None => p
  end.

(** The page after lines 27-32 and 41 of showCustomMessage. *)
Definition message_shown (message : string) (p : Page Num) : Page Num :=
  modify (customMessageConfirmBtn K) (set_listeners (λ l, l ++ [CbDismissMessage]))
    (set_focused (customMessageConfirmBtn K)
       (classList_remove (customMessageModal K) "hidden"
          (classList_add (customMessageCancelBtn K) "hidden"
             (classList_remove (customMessageConfirmBtn K) "hidden"
                (set_innerHTML (customMessageText K) ("<p>" +:+ message +:+ "</p>")
                   p))))).

(** The page after lines 189-196 of openModal. *)
Definition buttons_shown (countryCode : Val) (isFromSavedView : bool)
    (p : Page Num) : Page Num :=
  classList_remove (modalContainer K) "hidden"
    (if isFromSavedView then
       modify (modalDeleteBtn K) (set_onclick (CbDeleteCountry countryCode))
         (classList_remove (modalDeleteBtn K) "hidden"
            (classList_add (modalAddBtn K) "hidden" p))
     else
       classList_add (modalDeleteBtn K) "hidden"
         (classList_remove (modalAddBtn K) "hidden" p)).

(** The page openModal leaves when its [try] block throws [error]
    before it has written anything (lines 182-196 and 243-244). *)
Definition openModal_failed (countryCode : Val) (isFromSavedView : bool)
    (modalBody : nat) (error : JsError) (p : Page Num) : Page Num :=
  message_shown
    ("⚠️ Error al cargar los detalles del país: " +:+ err_message error)
    (with_paragraph modalBody "error-text"
       ("Error al cargar el país: " +:+ err_message error)
       (log_request
          (mkRequest "GET" (API_URL +:+ "/country/" +:+ toStr countryCode))
          (buttons_shown countryCode isFromSavedView
             (set_currentCountryCodeInModal (Some countryCode)
                (cleared
                   (with_paragraph modalBody "loading-text"
                      "Cargando detalles..." p)))))).

(** The element [x] of [p], if it is live, is live in [q], where it is
    related to what it was by [I]. *)
Definition touched (x : nat) (I : Element Num → Element Num → Prop)
    (p q : Page Num) : Prop :=
  ∀ a, elems p !! x = Some a → ∃ a', elems q !! x = Some a' ∧ I a a'.

End Effects.

(* ===================================================================== *)
(* A concrete engine and page, for evaluating the script                 *)
(* ===================================================================== *)

Module Example.

(** Numbers restricted to the integers, printed in decimal. *)
Definition show (v : JsVal Z) : string :=
  match v with
  | JNum n => pretty n
  | JStr s => s
  | _ => "[object Object]"
  end.

(** The characters of a text of one-unit characters. *)
Fixpoint units (s : string) : list string :=
  match s with
  | EmptyString => []
  | String c s' => String c EmptyString :: units s'
  end.

#[export] Instance ZEngine : Engine Z := {|
  num_truthy n := negb (n =? 0);
  num_is_zero n := n =? 0;
  num_toString n := pretty n;
  toLocaleString_esCR := show;
  date_toLocaleString_esCR := show;
  nullish_access_message v k := "Cannot read properties of null (reading '" +:+ k +:+ "')";
  not_a_function_message v k := k +:+ " is not a function";
  cannot_convert_message := "Cannot convert object to primitive value";
  code_units := units
|}.

(** The references of the elements that index.html declares and the
    script looks up when the document has loaded: three nav links and
    their views, the two grids, the country dialog with its buttons,
    the message dialog, and (15) the body of the country dialog. *)
Definition K : Consts :=
  mkConsts [0; 1; 2]%nat [3; 4; 5]%nat 6%nat 7%nat 8%nat 9%nat 10%nat
           11%nat 12%nat 13%nat 14%nat.

Definition static (cls : gset string) (view : option string) : Element Z :=
  mkElement cls view (Html "") false None [] [].

Definition index_html : Page Z :=
  mkPage
    (list_to_map [("view-home", 3%nat); ("view-browse", 4%nat);
                  ("view-local", 5%nat); ("modal-body", 15%nat)])
    (list_to_map
       [(0%nat, static {["nav-link"]} (Some "home"));
        (1%nat, static {["nav-link"]} (Some "browse"));
        (2%nat, static {["nav-link"]} (Some "local"));
        (3%nat, static {["view"]} None);
        (4%nat, static {["view"; "hidden"]} None);
        (5%nat, static {["view"; "hidden"]} None);
        (6%nat, static ∅ None);
        (7%nat, static ∅ None);
        (8%nat, static {["hidden"]} None);
        (9%nat, static ∅ None);
        (10%nat, static {["hidden"]} None);
        (11%nat, static {["hidden"]} None);
        (12%nat, static ∅ None);
        (13%nat, static ∅ None);
        (14%nat, static ∅ None);
        (15%nat, static ∅ None)])
    None None None ∅ [] [].

Definition loaded : World Z := mkWorld index_html [].

Definition country (cca3 name : string) : JsVal Z :=
  JObj [("cca3", JStr cca3);
        ("name", JObj [("common", JStr name)]);
        ("capital", JArr [JStr "San José"]);
        ("population", JNum 5094118);
        ("region", JStr "Americas");
        ("flags", JObj [("png", JStr "https://flagcdn.com/w320/cr.png")])].

Definition CRI : JsVal Z := country "CRI" "Costa Rica".
Definition USA : JsVal Z := country "USA" "United States".

Definition weather : JsVal Z :=
  JObj [("temperature", JNum 25); ("windspeed", JNum 3);
        ("time", JStr "2025-07-01T12:00");
        ("last_updated", JStr "2025-07-01T12:00:05")].

Definition ok_json (v : JsVal Z) : FetchReply Z :=
  NetResp (mkResponse 200 (JsonBody v)).

(** A page showing the country dialog for Costa Rica: the document
    loads, the browse view lists two countries, the first card is
    clicked and both of the dialog's requests are answered. *)
Definition browsing : list (Event Z) :=
  [Navigate (Some "home"); Navigate (Some "browse");
   Settle 0%nat (ok_json (JArr [CRI; USA])); Resume 0%nat].

Definition dialog_open : Page Z :=
  Eval vm_compute in
  match steps K loaded
          (browsing ++ [Click 17%nat; Settle 0%nat (ok_json CRI); Resume 0%nat;
                        Settle 0%nat (ok_json weather); Resume 0%nat]) with
  | Some w => page w
  | None => index_html
  end.

(** The first card is clicked, the dialog is closed while it loads, the
    second card is clicked, and then the four requests are answered,
    Costa Rica's first. *)
Definition two_dialogs : list (Event Z) :=
  browsing ++
  [Click 17%nat; Close; Click 18%nat;
   Settle 0%nat (ok_json CRI); Resume 1%nat;
   Settle 1%nat (ok_json weather); Resume 1%nat;
   Settle 0%nat (ok_json USA); Resume 0%nat;
   Settle 0%nat (ok_json weather); Resume 0%nat].

(** The page once both dialogs of [two_dialogs] have loaded. *)
Definition two_dialogs_page : Page Z :=
  Eval vm_compute in
    match steps K loaded two_dialogs with
    | Some w => page w
    | None => index_html
    end.

(** The page after two countries in a row have failed to load, the
    message of the first not yet dismissed. *)
Definition two_failures : Page Z :=
  Eval vm_compute in
    openModal_failed K (JStr "USA") false 15
      (mkError "Error" "No se pudieron cargar los detalles del país.")
      (openModal_failed K (JStr "CRI") false 15
         (mkError "Error" "No se pudieron cargar los detalles del país.")
         index_html).

Definition stale_store : Gateway.Store :=
  Gateway.mkStore [] {["CRI" := Gateway.mkCleaned (Gateway.mkFields (Some 25) (Some 3) 1000) 1000]}.

Definition idle : Gateway.State := Gateway.mkState stale_store ∅ [] [].

Definition after (cca3 : JsVal Z) (force : bool) (p : Page Z)
    (replies : list (FetchReply Z)) : Page Z :=
  (drive (fetchWeatherForCountry cca3 force) p replies).1.1.1.

Definition partial : list (string * JsVal Z) :=
  [("temperature", JNum 25); ("windspeed", JStr "N/A");
   ("time", JStr "2025-07-01T12:00");
   ("last_updated", JStr "2025-07-01T12:00:05")].

Definition not_found : Response Z :=
  mkResponse 404 (JsonBody (JObj [("detail", JStr "País no encontrado.")])).

End Example.

(* ===================================================================== *)
(* Part VII. Theorems                                                    *)
(* ===================================================================== *)

(** * The loader and the gateway *)

Module GatewayFacts.
Import Gateway Example.

Lemma extractions_follow_gets evs :
  ∀ g, ∃ started,
    extractions (handle_all g evs) = extractions g ++ started
    ∧ sublist started (requested evs).
Proof.
  unfold handle_all.
  induction evs as [|ev evs IH]; intros g; cbn [foldl requested omap list_omap].
  - exists []. split; [by rewrite app_nil_r|constructor].
  - destruct (IH (handle g ev)) as (started & -> & Hsub).
    destruct ev as [caller code force now|code x now]; cbn [handle].
    + unfold get.
      destruct (fetching g !! code) as [callers|]; cbn [extractions].
      { exists started. split; [done|by apply sublist_cons]. }
      assert (Hnew : ∃ started',
                (extractions g ++ [code]) ++ started = extractions g ++ started'
                ∧ sublist started' (code :: requested evs)).
      { exists (code :: started). split; [by rewrite <- app_assoc|].
        by apply sublist_skip. }
      destruct (cleaned (store g) !! code) as [r|]; [|exact Hnew].
      destruct (negb force && fresh_at now r); cbn [extractions]; [|exact Hnew].
      exists started. split; [done|by apply sublist_cons].
    + unfold resolve.
      destruct (fetching g !! code) as [callers|];
        [|by exists started].
      destruct x; cbn [extractions]; by exists started.
Qed.

Lemma upsert_monotone now f o :
  last_updated o ≤ last_updated (upsert now f (Some o)).
Proof.
  unfold upsert.
  destruct (f_measurement_time f <=? f_measurement_time (fields o)).
  - destruct (last_updated o <? now) eqn:Hlt; simpl; lia.
  - simpl. lia.
Qed.

Lemma load_monotone now code' payload f st code t :
  stored_at st code = Some t →
  ∃ t', stored_at (load now code' payload f st) code = Some t' ∧ t ≤ t'.
Proof.
  unfold stored_at, load. intros Hst. simpl.
  destruct f as [f'|]; [|eauto with lia].
  destruct (decide (code' = code)) as [->|Hne].
  - rewrite lookup_insert_eq. simpl.
    destruct (cleaned st !! code) as [o|] eqn:Ho; [|done].
    simpl in Hst. injection Hst as <-.
    eexists. split; [done|]. apply upsert_monotone.
  - rewrite lookup_insert_ne by done. eauto with lia.
Qed.

(** C2. Successive loads never decrease the stored [last_updated] of a
    country, whatever measurement times and clock readings they carry. *)
Theorem last_updated_never_decreases (ls : list LoadCall) (st : Store)
    (code : string) (t : Z) :
  stored_at st code = Some t →
  ∃ t', stored_at (loads ls st) code = Some t' ∧ t ≤ t'.
Proof.
  revert st t. induction ls as [|l ls IH]; intros st t Hst.
  - exists t. split; [done|lia].
  - destruct (load_monotone (l_now l) (l_code l) (l_payload l) (l_fields l)
                            st code t Hst) as (t1 & H1 & Hle).
    destruct (IH _ _ H1) as (t2 & H2 & Hle2).
    exists t2. split; [exact H2|lia].
Qed.

Lemma handle_all_cons g ev evs :
  handle_all g (ev :: evs) = handle_all (handle g ev) evs.
Proof. reflexivity. Qed.

Lemma handle_all_app g evs1 evs2 :
  handle_all g (evs1 ++ evs2) = handle_all (handle_all g evs1) evs2.
Proof. apply foldl_app. Qed.

(** While an extraction is in flight, further calls only attach. *)
Lemma gets_attach code (calls : list (nat * bool * Z)) :
  ∀ g callers,
    fetching g !! code = Some callers →
    handle_all g ((λ c, Get c.1.1 code c.1.2 c.2) <$> calls)
    = mkState (store g) (<[code := callers ++ calls.*1.*1]> (fetching g))
              (extractions g) (delivered g).
Proof.
  induction calls as [|[[c f] now] calls IH]; intros g callers Hg.
  - simpl. rewrite app_nil_r, insert_id by done. by destruct g.
  - rewrite fmap_cons, handle_all_cons. simpl handle.
    assert (Hget : get c code f now g
                   = mkState (store g) (<[code := callers ++ [c]]> (fetching g))
                             (extractions g) (delivered g)).
    { unfold get. by rewrite Hg. }
    rewrite Hget, (IH _ (callers ++ [c])); simpl.
    + by rewrite insert_insert_eq, <- app_assoc.
    + by rewrite lookup_insert_eq.
Qed.


Lemma last_updated_never_decreases_witness :
  ∃ t', stored_at
          (loads [mkLoad 1100 "CRI" "{}" (Some (mkFields (Some 24) None 900));
                  mkLoad 1050 "CRI" "{}" (Some (mkFields (Some 26) (Some 2) 1200))]
                 stale_store) "CRI" = Some t' ∧ 1000 ≤ t'.
Proof.
  apply (last_updated_never_decreases _ stale_store "CRI" 1000).
  reflexivity.
Defined.


End GatewayFacts.

(** * The client script *)

Create Rewrite HintDb task.

Section ClientFacts.
Context {Num : Type} `{!Engine Num}.
#[local] Abbreviation Val := (JsVal Num).
Implicit Types (p q : Page Num).

(** ** Reading the element store through the DOM operations *)

Lemma elems_modify r f (p : Page Num) :
  elems (modify r f p) = alter f r (elems p).
Proof. reflexivity. Qed.

Lemma elems_detach_below r (p : Page Num) :
  elems (detach_below r p) = alter (set_descendants (λ _, [])) r (elems p).
Proof.
  unfold detach_below. destruct (elems p !! r) eqn:Hr; simpl; [done|].
  symmetry. apply map_eq. intros j. rewrite lookup_alter.
  case_decide; subst; by rewrite ?Hr.
Qed.

Lemma elems_set_innerHTML r m (p : Page Num) :
  elems (set_innerHTML r m p)
  = alter (set_content (Html m)) r (alter (set_descendants (λ _, [])) r (elems p)).
Proof. unfold set_innerHTML. by rewrite elems_modify, elems_detach_below. Qed.

Lemma elems_set_textContent r s (p : Page Num) :
  elems (set_textContent r s p) = alter (set_content (Text s)) r (elems p).
Proof. reflexivity. Qed.

Lemma elems_classList_add r c (p : Page Num) :
  elems (classList_add r c p) = alter (set_classes (λ cs, cs ∪ {[c]})) r (elems p).
Proof. reflexivity. Qed.

Lemma elems_classList_remove r c (p : Page Num) :
  elems (classList_remove r c p) = alter (set_classes (λ cs, cs ∖ {[c]})) r (elems p).
Proof. reflexivity. Qed.

Lemma elems_console_error e (p : Page Num) : elems (console_error e p) = elems p.
Proof. reflexivity. Qed.

Lemma elems_log_request rq (p : Page Num) : elems (log_request rq p) = elems p.
Proof. reflexivity. Qed.

(** ** What is observed of an element *)

Lemma weather_found_or_missing (p : Page Num) :
  weather_element_missing p
  ∨ ∃ statusText details btn spinner, weather_found p statusText details btn spinner.
Proof.
  unfold weather_element_missing.
  destruct (getElementById p "weather-status") as [st|] eqn:Hst; [|by auto].
  destruct (getElementById p "weather-status-text") as [t|] eqn:Ht; [|by auto].
  destruct (getElementById p "weather-details") as [d|] eqn:Hd; [|by auto 6].
  destruct (getElementById p "consultar-clima-btn") as [b|] eqn:Hb; [|by auto 6].
  destruct (querySelector p "spinner" st) as [sp|] eqn:Hsp.
  - right. exists t, d, b, sp. constructor; eauto.
  - left. do 4 right. eauto.
Qed.

Lemma drive_fetchWeather p cca3 force statusText details btn spinner reply rest :
  weather_found p statusText details btn spinner →
  drive (fetchWeatherForCountry cca3 force) p (reply :: rest)
  = drive (try_finally
             (try_catch
                match reply with
                | NetFail e => Throw e
                | NetResp response => on_weather_response statusText details response
                end
                (weather_catch statusText details))
             (weather_finally spinner btn))
          (log_request (weather_request cca3)
             (weather_begin statusText details btn spinner p))
          rest.
Proof.
  intros [(st & Hst & Hsp) Ht Hd Hb].
  unfold fetchWeatherForCountry. cbn [drive].
  rewrite Hst, Ht, Hd, Hb, Hsp. reflexivity.
Qed.

Lemma drive_fetchWeather_missing p cca3 force replies :
  weather_element_missing p →
  drive (fetchWeatherForCountry cca3 force) p replies = (p, [], Completed, replies).
Proof.
  intros Hmiss. unfold fetchWeatherForCountry. cbn [drive].
  destruct Hmiss as [H|[H|[H|[H|(st & H1 & H2)]]]].
  - by rewrite H.
  - rewrite H. by repeat case_match.
  - rewrite H. by repeat case_match.
  - rewrite H. by repeat case_match.
  - rewrite H1, H2. by repeat case_match.
Qed.

Lemma retouched_refl p : retouched p p.
Proof. by constructor. Qed.

Lemma retouched_modify r f p q : retouched p q → retouched p (modify r f q).
Proof.
  intros []. constructor; try done.
  rewrite elems_modify. by rewrite dom_alter_L.
Qed.

Lemma retouched_set_innerHTML r m p q :
  retouched p q → retouched p (set_innerHTML r m q).
Proof.
  intros []. constructor.
  - rewrite elems_set_innerHTML. by rewrite !dom_alter_L.
  - unfold set_innerHTML, detach_below. by destruct (elems q !! r).
  - unfold set_innerHTML, detach_below. by destruct (elems q !! r).
  - unfold set_innerHTML, detach_below. by destruct (elems q !! r).
Qed.

Lemma retouched_console_error e p q : retouched p q → retouched p (console_error e q).
Proof. by intros []. Qed.

Lemma retouched_log_request rq p q : retouched p q → retouched p (log_request rq q).
Proof. by intros []. Qed.

Create HintDb retouch.

#[local] Hint Resolve retouched_refl retouched_modify retouched_set_innerHTML
  retouched_console_error retouched_log_request : retouch.

#[local] Hint Extern 1 (retouched _ (set_textContent _ _ _)) =>
  apply retouched_modify : retouch.
#[local] Hint Extern 1 (retouched _ (classList_add _ _ _)) =>
  apply retouched_modify : retouch.
#[local] Hint Extern 1 (retouched _ (classList_remove _ _ _)) =>
  apply retouched_modify : retouch.
#[local] Hint Extern 1 (retouched _ (weather_begin _ _ _ _ _)) =>
  unfold weather_begin : retouch.

Lemma requests_modify r f (p : Page Num) : requests (modify r f p) = requests p.
Proof. reflexivity. Qed.

Lemma requests_set_innerHTML r m (p : Page Num) :
  requests (set_innerHTML r m p) = requests p.
Proof. unfold set_innerHTML, detach_below. by destruct (elems p !! r). Qed.

Lemma requests_set_textContent r m (p : Page Num) :
  requests (set_textContent r m p) = requests p.
Proof. reflexivity. Qed.

Lemma requests_console_error e (p : Page Num) :
  requests (console_error e p) = requests p.
Proof. reflexivity. Qed.

Lemma requests_classList_add r c (p : Page Num) :
  requests (classList_add r c p) = requests p.
Proof. reflexivity. Qed.

Lemma requests_classList_remove r c (p : Page Num) :
  requests (classList_remove r c p) = requests p.
Proof. reflexivity. Qed.

Lemma requests_log_request rq (p : Page Num) :
  requests (log_request rq p) = requests p ++ [rq].
Proof. reflexivity. Qed.

Lemma requests_weather_begin a b c d (p : Page Num) :
  requests (weather_begin a b c d p) = requests p.
Proof. unfold weather_begin. by rewrite requests_set_innerHTML. Qed.

Ltac requests_through :=
  rewrite ?requests_set_innerHTML, ?requests_modify, ?requests_set_textContent,
    ?requests_console_error, ?requests_classList_add, ?requests_classList_remove,
    ?requests_log_request, ?requests_weather_begin.

(** Unfold one invocation down to the page it leaves behind, splitting
    on whatever the response leaves undetermined. *)
Ltac weather_step :=
  cbn [drive try_finally try_catch seq lift weather_catch weather_finally];
  match goal with
  | |- context [lift ?x _] => destruct x eqn:?
  | |- context [match ?x with _ => _ end] => destruct x eqn:?
  | |- context [if ?b then _ else _] => destruct b eqn:?
  end.

Ltac weather_cases :=
  unfold on_weather_response, await_json;
  repeat weather_step;
  cbn [drive try_finally try_catch seq lift weather_catch weather_finally].

Lemma retouched_trans p q r : retouched p q → retouched q r → retouched p r.
Proof. intros [] []. constructor; congruence. Qed.

(** The continuation parked at line 266, resumed on any page [q]:
    whatever the reply, it ends having gone through the [finally]
    block. *)
Lemma drive_weather_reply q statusText details btn spinner reply rest :
  ∃ q', drive (try_finally
                 (try_catch
                    match reply with
                    | NetFail e => Throw e
                    | NetResp response =>
                        on_weather_response statusText details response
                    end
                    (weather_catch statusText details))
                 (weather_finally spinner btn)) q rest
        = drive Ret (weather_end btn spinner q') rest
        ∧ retouched q q'
        ∧ requests q' = requests q.
Proof.
  destruct reply as [e|response]; weather_cases;
    (eexists; split; [reflexivity|]; split; [eauto 12 with retouch|]);
    repeat requests_through; reflexivity.
Qed.

(** Whatever the reply, one invocation that found its elements ends
    after that reply, having gone through the [finally] block. *)
Lemma drive_fetchWeather_end p cca3 force statusText details btn spinner reply rest :
  weather_found p statusText details btn spinner →
  ∃ q, drive (fetchWeatherForCountry cca3 force) p (reply :: rest)
       = drive Ret (weather_end btn spinner q) rest
       ∧ retouched p q
       ∧ requests q = requests p ++ [weather_request cca3].
Proof.
  intros Hwe. rewrite (drive_fetchWeather _ _ _ _ _ _ _ _ _ Hwe).
  destruct (drive_weather_reply
              (log_request (weather_request cca3)
                 (weather_begin statusText details btn spinner p))
              statusText details btn spinner reply rest)
    as (q & Hrun & Hq & Hreq).
  exists q. split; [exact Hrun|]. split.
  - eapply retouched_trans; [|exact Hq]. eauto 12 with retouch.
  - rewrite Hreq. by repeat requests_through.
Qed.

Lemma weather_elements_distinct p statusText details btn spinner :
  weather_elements p statusText details btn spinner →
  statusText ≠ details ∧ statusText ≠ btn ∧ statusText ≠ spinner
  ∧ details ≠ btn ∧ details ≠ spinner ∧ btn ≠ spinner.
Proof.
  intros [_ Hnd _].
  repeat (apply NoDup_cons in Hnd as [? Hnd]). set_solver.
Qed.

Lemma weather_elements_live p statusText details btn spinner :
  weather_elements p statusText details btn spinner →
  is_Some (elems p !! statusText) ∧ is_Some (elems p !! details)
  ∧ is_Some (elems p !! btn) ∧ is_Some (elems p !! spinner).
Proof.
  intros [_ _ Hl].
  repeat (apply Forall_cons in Hl as [? Hl]). done.
Qed.

Lemma retouched_live p q r :
  retouched p q → is_Some (elems p !! r) → is_Some (elems q !! r).
Proof. intros [Hd _ _ _] Hr. apply elem_of_dom. rewrite Hd. by apply elem_of_dom. Qed.

(** Look an element up in a page built from DOM operations. *)
Ltac through_page :=
  unfold shows, is_disabled, has_class, weather_end, weather_begin;
  repeat first
    [ rewrite elems_set_innerHTML | rewrite elems_set_textContent
    | rewrite elems_modify | rewrite elems_classList_add
    | rewrite elems_classList_remove | rewrite elems_console_error
    | rewrite elems_log_request ];
  repeat first [ rewrite lookup_alter_eq | rewrite lookup_alter_ne by done ].

(** After the [finally] block the spinner is hidden and the button is
    enabled and carries its label again. *)
Lemma weather_end_observed q btn spinner :
  is_Some (elems q !! btn) → is_Some (elems q !! spinner) → btn ≠ spinner →
  has_class (weather_end btn spinner q) "hidden" spinner = true
  ∧ is_disabled (weather_end btn spinner q) btn = Some false
  ∧ shows (weather_end btn spinner q) btn (Text "Consultar Clima").
Proof.
  intros [eb Hb] [es Hs] Hne. through_page. rewrite Hb, Hs. simpl.
  split; [|done]. apply bool_decide_eq_true. set_solver.
Qed.

(** The status text and the weather details are not touched by the
    [finally] block. *)
Lemma weather_end_shows q btn spinner r c :
  r ≠ btn → r ≠ spinner →
  shows q r c → shows (weather_end btn spinner q) r c.
Proof.
  intros ? ? Hshow. unfold shows in Hshow. through_page.
  destruct (elems q !! r) as [e|] eqn:Hr; [|done].
  by destruct e.
Qed.

(** C10. fetchWeatherForCountry leaves the controls usable on every
    path: when one of its five elements is missing it returns at once,
    with no request and the page untouched; otherwise, whatever the
    reply (a response, ok or not, or a rejected fetch), it ends with
    the spinner hidden, the button enabled and labelled
    'Consultar Clima'. *)
Theorem fetchWeather_restores_ui (p : Page Num) (cca3 : Val) (force : bool) :
  (weather_element_missing p →
   ∀ replies, drive (fetchWeatherForCountry cca3 force) p replies
              = (p, [], Completed, replies))
  ∧ (∀ statusText details btn spinner reply,
       weather_elements p statusText details btn spinner →
       ∃ p', drive (fetchWeatherForCountry cca3 force) p [reply]
             = (p', [], Completed, [])
             ∧ has_class p' "hidden" spinner = true
             ∧ is_disabled p' btn = Some false
             ∧ shows p' btn (Text "Consultar Clima")).
Proof.
  split.
  - intros Hmiss replies. by apply drive_fetchWeather_missing.
  - intros statusText details btn spinner reply Hwe.
    destruct (drive_fetchWeather_end p cca3 force _ _ _ _ reply [] (we_found _ _ _ _ _ Hwe))
      as (q & Hrun & Hq & _).
    destruct (weather_elements_distinct _ _ _ _ _ Hwe) as (_&_&_&_&_&Hne).
    destruct (weather_elements_live _ _ _ _ _ Hwe) as (_&_&Hb&Hs).
    exists (weather_end btn spinner q). split; [exact Hrun|].
    apply weather_end_observed; eauto using retouched_live.
Qed.

(** The same holds when other handlers have run while the request was
    pending: the invocation parks at line 266, and resumed on any page
    [q] in which its spinner and button are still two live objects, it
    ends with the controls restored. *)
Lemma fetchWeather_resumed_anywhere p cca3 force statusText details btn spinner :
  weather_found p statusText details btn spinner →
  ∃ p1 k,
    run (fetchWeatherForCountry cca3 force) p
    = (p1, [], Suspended (OnFetch (weather_request cca3) k))
    ∧ ∀ q reply,
        is_Some (elems q !! btn) → is_Some (elems q !! spinner) → btn ≠ spinner →
        ∃ q', drive (k reply) q [] = (q', [], Completed, [])
              ∧ has_class q' "hidden" spinner = true
              ∧ is_disabled q' btn = Some false
              ∧ shows q' btn (Text "Consultar Clima").
Proof.
  intros [(st & Hst & Hsp) Ht Hd Hb].
  unfold fetchWeatherForCountry. cbn [run].
  rewrite Hst, Ht, Hd, Hb, Hsp.
  cbn [run try_finally try_catch weather_try await_fetch].
  do 2 eexists. split; [reflexivity|].
  intros q reply Hlb Hls Hne. cbv beta.
  destruct (drive_weather_reply q statusText details btn spinner reply [])
    as (q' & Hrun & Hq & _).
  exists (weather_end btn spinner q'). split; [exact Hrun|].
  apply weather_end_observed; eauto using retouched_live.
Qed.


(** ** What the status line and the details area show *)

Lemma shows_text_details q statusText details s m :
  statusText ≠ details →
  is_Some (elems q !! statusText) → is_Some (elems q !! details) →
  shows (set_innerHTML details m (set_textContent statusText s q)) statusText (Text s)
  ∧ shows (set_innerHTML details m (set_textContent statusText s q)) details (Html m).
Proof.
  intros Hne [et Ht] [ed Hd]. through_page. by rewrite Ht, Hd.
Qed.

Lemma shows_console_error e q r c : shows q r c → shows (console_error e q) r c.
Proof. intros H. exact H. Qed.

(** The page an invocation works on after its request has gone out. *)
Lemma weather_begun_live p cca3 statusText details btn spinner :
  weather_elements p statusText details btn spinner →
  let q := log_request (weather_request cca3)
             (weather_begin statusText details btn spinner p) in
  is_Some (elems q !! statusText) ∧ is_Some (elems q !! details)
  ∧ is_Some (elems q !! btn) ∧ is_Some (elems q !! spinner).
Proof.
  intros Hwe q.
  assert (retouched p q) by (subst q; eauto 12 with retouch).
  destruct (weather_elements_live _ _ _ _ _ Hwe) as (?&?&?&?).
  eauto 8 using retouched_live.
Qed.

(** Status line and details survive the [finally] block, and the
    [console.error] of the [catch] block. *)
Lemma weather_shown p cca3 statusText details btn spinner s m :
  weather_elements p statusText details btn spinner →
  shows (weather_end btn spinner
           (set_innerHTML details m
              (set_textContent statusText s
                 (log_request (weather_request cca3)
                    (weather_begin statusText details btn spinner p)))))
        statusText (Text s)
  ∧ shows (weather_end btn spinner
             (set_innerHTML details m
                (set_textContent statusText s
                   (log_request (weather_request cca3)
                      (weather_begin statusText details btn spinner p)))))
          details (Html m).
Proof.
  intros Hwe.
  destruct (weather_elements_distinct _ _ _ _ _ Hwe) as (Htd&Htb&Hts&Hdb&Hds&_).
  destruct (weather_begun_live p cca3 _ _ _ _ Hwe) as (Ht&Hd&_&_).
  destruct (shows_text_details _ statusText details s m Htd Ht Hd) as [Hs Hm].
  split; apply weather_end_shows;
    [exact Htb|exact Hts|exact Hs|exact Hdb|exact Hds|exact Hm].
Qed.

Lemma weather_shown_caught p cca3 statusText details btn spinner s m e :
  weather_elements p statusText details btn spinner →
  shows (weather_end btn spinner
           (console_error e
              (set_innerHTML details m
                 (set_textContent statusText s
                    (log_request (weather_request cca3)
                       (weather_begin statusText details btn spinner p))))))
        statusText (Text s)
  ∧ shows (weather_end btn spinner
             (console_error e
                (set_innerHTML details m
                   (set_textContent statusText s
                      (log_request (weather_request cca3)
                         (weather_begin statusText details btn spinner p))))))
          details (Html m).
Proof.
  intros Hwe.
  destruct (weather_elements_distinct _ _ _ _ _ Hwe) as (Htd&Htb&Hts&Hdb&Hds&_).
  destruct (weather_begun_live p cca3 _ _ _ _ Hwe) as (Ht&Hd&_&_).
  destruct (shows_text_details _ statusText details s m Htd Ht Hd) as [Hs Hm].
  split; apply weather_end_shows;
    [exact Htb|exact Hts|apply shows_console_error, Hs
    |exact Hdb|exact Hds|apply shows_console_error, Hm].
Qed.

(** The same when line 278 had already written the status line before
    the exception was thrown. *)
Lemma weather_shown_caught_late p cca3 statusText details btn spinner s0 s m e :
  weather_elements p statusText details btn spinner →
  shows (weather_end btn spinner
           (console_error e
              (set_innerHTML details m
                 (set_textContent statusText s
                    (set_textContent statusText s0
                       (log_request (weather_request cca3)
                          (weather_begin statusText details btn spinner p)))))))
        statusText (Text s)
  ∧ shows (weather_end btn spinner
             (console_error e
                (set_innerHTML details m
                   (set_textContent statusText s
                      (set_textContent statusText s0
                         (log_request (weather_request cca3)
                            (weather_begin statusText details btn spinner p)))))))
          details (Html m).
Proof.
  intros Hwe.
  destruct (weather_elements_distinct _ _ _ _ _ Hwe) as (Htd&Htb&Hts&Hdb&Hds&_).
  destruct (weather_begun_live p cca3 _ _ _ _ Hwe) as (Ht&Hd&_&_).
  assert (retouched
            (log_request (weather_request cca3)
               (weather_begin statusText details btn spinner p))
            (set_textContent statusText s0
               (log_request (weather_request cca3)
                  (weather_begin statusText details btn spinner p)))) as Hrt
    by (apply retouched_modify, retouched_refl).
  destruct (shows_text_details _ statusText details s m Htd
              (retouched_live _ _ _ Hrt Ht) (retouched_live _ _ _ Hrt Hd))
    as [Hs Hm].
  split; apply weather_end_shows;
    [exact Htb|exact Hts|apply shows_console_error, Hs
    |exact Hdb|exact Hds|apply shows_console_error, Hm].
Qed.

Lemma drive_weather_finally spinner btn (q : Page Num) rest :
  drive (weather_finally spinner btn) q rest
  = (weather_end btn spinner q, [], Completed, rest).
Proof. reflexivity. Qed.

(** ** Stepping a task

    One equation per constructor, so that a run is unfolded by
    rewriting. *)

Section Steps.
Implicit Types (t k fin : Task Num) (h : JsError → Task Num)
  (rs : list (FetchReply Num)).

Lemma drive_Ret p rs : drive Ret p rs = (p, [], Completed, rs).
Proof. reflexivity. Qed.
Lemma drive_Throw e p rs : drive (Throw e) p rs = (p, [], Rejected e, rs).
Proof. reflexivity. Qed.
Lemma drive_Read (k : Page Num → Task Num) p rs :
  drive (Read k) p rs = drive (k p) p rs.
Proof. reflexivity. Qed.
Lemma drive_Write f k p rs : drive (Write f k) p rs = drive k (f p) rs.
Proof. reflexivity. Qed.
Lemma drive_Yield k p rs : drive (Yield k) p rs = drive k p rs.
Proof. reflexivity. Qed.
Lemma drive_Fetch rq (k : FetchReply Num → Task Num) p r rs :
  drive (Fetch rq k) p (r :: rs) = drive (k r) (log_request rq p) rs.
Proof. reflexivity. Qed.

Lemma try_catch_Ret h : try_catch Ret h = Ret.
Proof. reflexivity. Qed.
Lemma try_catch_Throw e h : try_catch (Throw e) h = h e.
Proof. reflexivity. Qed.
Lemma try_catch_Read (k : Page Num → Task Num) h :
  try_catch (Read k) h = Read (λ p, try_catch (k p) h).
Proof. reflexivity. Qed.
Lemma try_catch_Write f k h : try_catch (Write f k) h = Write f (try_catch k h).
Proof. reflexivity. Qed.
Lemma try_catch_Yield k h : try_catch (Yield k) h = Yield (try_catch k h).
Proof. reflexivity. Qed.
Lemma try_catch_Fetch rq (k : FetchReply Num → Task Num) h :
  try_catch (Fetch rq k) h = Fetch rq (λ r, try_catch (k r) h).
Proof. reflexivity. Qed.

Lemma try_finally_Ret fin : try_finally Ret fin = fin.
Proof. reflexivity. Qed.
Lemma try_finally_Throw e fin : try_finally (Throw e) fin = seq fin (Throw e).
Proof. reflexivity. Qed.
Lemma try_finally_Write f k fin :
  try_finally (Write f k) fin = Write f (try_finally k fin).
Proof. reflexivity. Qed.
Lemma try_finally_Yield k fin : try_finally (Yield k) fin = Yield (try_finally k fin).
Proof. reflexivity. Qed.

Lemma seq_Ret k : seq Ret k = k.
Proof. reflexivity. Qed.
Lemma seq_Throw e k : seq (Throw e) k = Throw e.
Proof. reflexivity. Qed.
Lemma seq_Read (t : Page Num → Task Num) k :
  seq (Read t) k = Read (λ p, seq (t p) k).
Proof. reflexivity. Qed.
Lemma seq_Write f t k : seq (Write f t) k = Write f (seq t k).
Proof. reflexivity. Qed.
Lemma seq_Yield t k : seq (Yield t) k = Yield (seq t k).
Proof. reflexivity. Qed.

Lemma lift_Ok {A} (a : A) (k : A → Task Num) : lift (Ok a) k = k a.
Proof. reflexivity. Qed.
Lemma lift_Raise {A} e (k : A → Task Num) : lift (Raise e) k = Throw e.
Proof. reflexivity. Qed.

Lemma weather_catch_eq statusText details error :
  weather_catch (Num:=Num) statusText details error
  = Write (set_textContent statusText
             ("Error al cargar clima: " +:+ err_message error))
      (Write (set_innerHTML details "") (Write (console_error error) Ret)).
Proof. reflexivity. Qed.

End Steps.

#[local] Hint Rewrite drive_Write drive_Yield drive_Fetch drive_Read
  try_catch_Ret try_catch_Throw try_catch_Write try_catch_Yield
  try_finally_Ret try_finally_Throw try_finally_Write try_finally_Yield
  seq_Ret seq_Throw seq_Write seq_Yield
  @lift_Ok @lift_Raise weather_catch_eq : task.

(** Unfold what follows the response, up to the [finally] block. *)
Ltac weather_run := autorewrite with task.

Lemma prop_total (v : Val) k x k' :
  prop v k = Ok x → ∃ y, prop v k' = Ok y.
Proof. destruct v; simpl; intros; try done; eauto. Qed.

Lemma status_200_ok (response : Response Num) :
  status response = 200 → resp_ok response = true.
Proof. unfold resp_ok. by intros ->. Qed.

Lemma ToString_JStr (s : string) : ToString (JStr s : Val) = Ok s.
Proof. reflexivity. Qed.

Lemma weather_details_eq (weatherData temperature windspeed time last_updated : Val)
    t w tm lu :
  prop weatherData "temperature" = Ok temperature →
  prop weatherData "windspeed" = Ok windspeed →
  prop weatherData "time" = Ok time →
  prop weatherData "last_updated" = Ok last_updated →
  ToString temperature = Ok t →
  ToString windspeed = Ok w →
  Date_toLocaleString time = Ok tm →
  Date_toLocaleString last_updated = Ok lu →
  weather_details weatherData = Ok (weather_markup t w tm lu).
Proof.
  intros Ht Hw Htm Hlu Hts Hws Htms Hlus. unfold weather_details.
  rewrite Ht. cbn [mbind Exn_bind]. rewrite Hts. cbn [mbind Exn_bind].
  rewrite Hw. cbn [mbind Exn_bind]. rewrite Hws. cbn [mbind Exn_bind].
  rewrite Htm. cbn [mbind Exn_bind]. rewrite Htms. cbn [mbind Exn_bind].
  rewrite Hlu. cbn [mbind Exn_bind]. rewrite Hlus. reflexivity.
Qed.

(** C5, as the script has it.  For a 200 response whose body is JSON:
    if its [message] is truthy, the status line shows the message,
    converted to a string, and the details area is empty; otherwise (no
    [message], or a falsy one such as the empty string), if
    [temperature] and [windspeed] both differ from 'N/A', the status
    line reads 'Clima actual:' and the details area holds temperature
    in degrees Celsius, wind speed, measurement time and last update.
    A value that has no string (parsed JSON can hold an object with a
    [toString] property of its own) makes the conversion throw inside
    the [try] block: the status line then shows 'Error al cargar
    clima: ' with the message of that error, and the details area is
    empty. *)
Theorem weather_200_response (p : Page Num) (cca3 : Val) (code : string)
    (force : bool) (statusText details btn spinner : nat)
    (response : Response Num) (weatherData message : Val) :
  weather_elements p statusText details btn spinner →
  ToString cca3 = Ok code →
  status response = 200 →
  body response = JsonBody weatherData →
  prop weatherData "message" = Ok message →
  ∃ p', drive (fetchWeatherForCountry cca3 force) p [NetResp response]
        = (p', [], Completed, [])
    ∧ if truthy message then
        match ToString message with
        | Ok text =>
            shows p' statusText (Text text) ∧ shows p' details (Html "")
        | Raise e =>
            shows p' statusText (Text ("Error al cargar clima: " +:+ err_message e))
            ∧ shows p' details (Html "")
        end
      else
        ∀ temperature windspeed,
          prop weatherData "temperature" = Ok temperature →
          prop weatherData "windspeed" = Ok windspeed →
          is_not_NA temperature = true →
          is_not_NA windspeed = true →
          (∀ time last_updated t w tm lu,
             prop weatherData "time" = Ok time →
             prop weatherData "last_updated" = Ok last_updated →
             ToString temperature = Ok t →
             ToString windspeed = Ok w →
             Date_toLocaleString time = Ok tm →
             Date_toLocaleString last_updated = Ok lu →
             shows p' statusText (Text "Clima actual:")
             ∧ shows p' details (Html (weather_markup t w tm lu)))
          ∧ (∀ e,
               weather_details weatherData = Raise e →
               shows p' statusText
                 (Text ("Error al cargar clima: " +:+ err_message e))
               ∧ shows p' details (Html "")).
Proof.
  intros Hwe _ Hstatus Hbody Hmsg.
  destruct (prop_total _ _ _ "temperature" Hmsg) as [t Ht].
  destruct (prop_total _ _ _ "windspeed" Hmsg) as [w Hw].
  rewrite (drive_fetchWeather _ _ _ _ _ _ _ _ _ (we_found _ _ _ _ _ Hwe)).
  unfold on_weather_response, await_json.
  rewrite (status_200_ok _ Hstatus), Hbody. cbn [negb].
  weather_run. rewrite Hmsg. weather_run.
  destruct (truthy message).
  - destruct (ToString message) as [text|e]; weather_run;
      rewrite drive_weather_finally; (eexists; split; [reflexivity|]).
    + exact (weather_shown _ _ _ _ _ _ _ _ Hwe).
    + exact (weather_shown_caught _ _ _ _ _ _ _ _ _ Hwe).
  - rewrite Ht. weather_run. rewrite Hw. weather_run.
    destruct (is_not_NA t && is_not_NA w) eqn:Hna.
    + weather_run.
      destruct (weather_details weatherData) as [markup|e] eqn:Hdetails;
        weather_run; rewrite drive_weather_finally;
        (eexists; split; [reflexivity|]);
        intros ? ? [= <-] [= <-] _ _; split.
      * intros time last_updated t' w' tm lu Htm Hlu Hts Hws Htms Hlus.
        rewrite (weather_details_eq _ _ _ _ _ _ _ _ _ Ht Hw Htm Hlu Hts Hws Htms Hlus)
          in Hdetails.
        injection Hdetails as <-.
        exact (weather_shown _ _ _ _ _ _ _ _ Hwe).
      * intros e [=].
      * intros time last_updated t' w' tm lu Htm Hlu Hts Hws Htms Hlus.
        rewrite (weather_details_eq _ _ _ _ _ _ _ _ _ Ht Hw Htm Hlu Hts Hws Htms Hlus)
          in Hdetails.
        discriminate Hdetails.
      * intros e' [= <-].
        exact (weather_shown_caught_late _ _ _ _ _ _ _ _ _ _ Hwe).
    + weather_run. rewrite drive_weather_finally.
      eexists. split; [reflexivity|].
      intros ? ? [= <-] [= <-] H1 H2.
      by rewrite H1, H2 in Hna.
Qed.

(** C8. A 200 response whose body is an object with no [message] and
    with ['N/A'] as temperature or as wind speed is reported as
    'Datos de clima no disponibles o incompletos.', and the details
    area stays empty: neither measurement is rendered. *)
Theorem weather_partial_record (p : Page Num) (cca3 : Val) (force : bool)
    (statusText details btn spinner : nat) (response : Response Num)
    (fields : list (string * Val)) :
  weather_elements p statusText details btn spinner →
  status response = 200 →
  body response = JsonBody (JObj fields) →
  own "message" fields = None →
  own "temperature" fields = Some (JStr "N/A")
  ∨ own "windspeed" fields = Some (JStr "N/A") →
  ∃ p', drive (fetchWeatherForCountry cca3 force) p [NetResp response]
        = (p', [], Completed, [])
    ∧ shows p' statusText (Text "Datos de clima no disponibles o incompletos.")
    ∧ shows p' details (Html "").
Proof.
  intros Hwe Hstatus Hbody Hmsg Hna.
  rewrite (drive_fetchWeather _ _ _ _ _ _ _ _ _ (we_found _ _ _ _ _ Hwe)).
  unfold on_weather_response, await_json.
  rewrite (status_200_ok _ Hstatus), Hbody. cbn [negb].
  assert (Hprop : ∀ k, prop (JObj fields) k = Ok (default JUndefined (own k fields)))
    by done.
  weather_run. rewrite (Hprop "message"), Hmsg. weather_run.
  change (truthy (default JUndefined None)) with false. cbv iota.
  rewrite (Hprop "temperature"). weather_run.
  rewrite (Hprop "windspeed"). weather_run.
  assert (is_not_NA (default JUndefined (own "temperature" fields))
          && is_not_NA (default JUndefined (own "windspeed" fields)) = false)
    as ->.
  { destruct Hna as [-> | ->]; simpl; [done|]. apply andb_false_r. }
  weather_run. rewrite drive_weather_finally.
  eexists. split; [reflexivity|]. exact (weather_shown _ _ _ _ _ _ _ _ Hwe).
Qed.

Lemma console_modify r f (p : Page Num) : console (modify r f p) = console p.
Proof. reflexivity. Qed.

Lemma console_set_innerHTML r m (p : Page Num) :
  console (set_innerHTML r m p) = console p.
Proof. unfold set_innerHTML, detach_below. by destruct (elems p !! r). Qed.

Lemma requests_log_request_console rq (p : Page Num) :
  console (log_request rq p) = console p.
Proof. reflexivity. Qed.

Lemma console_weather_begin a b c d (p : Page Num) :
  console (weather_begin a b c d p) = console p.
Proof. unfold weather_begin. by rewrite console_set_innerHTML. Qed.

Lemma console_weather_caught e a b c d s (p : Page Num) :
  console (weather_end a b (console_error e (set_innerHTML c "" (set_textContent d s p))))
  = console p ++ [e].
Proof.
  unfold weather_end, set_textContent, classList_add.
  rewrite !console_modify.
  change (console (console_error e ?q)) with (console q ++ [e]).
  by rewrite console_set_innerHTML, console_modify.
Qed.

#[local] Ltac weather_done :=
  match goal with
  | Hrun : drive _ _ _ = _, H : _ ∧ _ ∧ _ |- _ =>
      split; [exact Hrun|]; destruct H as (?&?&?);
      split; [assumption|]; split; [assumption|]; split; [assumption|];
      reflexivity
  end.

(** C6, as the script has it.  For a response that is not ok the
    status line reads 'Error al cargar clima: ' followed by the
    message of the error caught, the details area is emptied and the
    error is logged.  The error is the one line 269 makes from
    [detail], converted to a string, when the body is JSON and its
    [detail] is truthy, and from the fixed text when [detail] is
    missing or falsy; it is the error thrown on the way otherwise: by
    reading a body that is not JSON, by reading [detail] of [null], or
    by converting a [detail] that has no string. *)
Theorem weather_error_response (p : Page Num) (cca3 : Val) (code : string)
    (force : bool) (statusText details btn spinner : nat)
    (response : Response Num) :
  weather_elements p statusText details btn spinner →
  ToString cca3 = Ok code →
  resp_ok response = false →
  ∃ p' error,
    drive (fetchWeatherForCountry cca3 force) p [NetResp response]
    = (p', [], Completed, [])
    ∧ shows p' statusText (Text ("Error al cargar clima: " +:+ err_message error))
    ∧ shows p' details (Html "")
    ∧ console p' = console p ++ [error]
    ∧ match body response with
      | JsonBody errorData =>
          match prop errorData "detail" with
          | Ok detail =>
              if truthy detail then
                match ToString detail with
                | Ok text => error = mkError "Error" text
                | Raise e => error = e
                end
              else error = mkError "Error" "No se pudo obtener el clima."
          | Raise e => error = e
          end
      | NotJson syntax_error => error = mkError "SyntaxError" syntax_error
      end.
Proof.
  intros Hwe _ Hok.
  rewrite (drive_fetchWeather _ _ _ _ _ _ _ _ _ (we_found _ _ _ _ _ Hwe)).
  unfold on_weather_response, await_json. rewrite Hok. cbn [negb].
  assert (Hend : ∀ error,
    ∃ p',
      drive (try_finally
               (try_catch (Throw error) (weather_catch statusText details))
               (weather_finally spinner btn))
            (log_request (weather_request cca3)
               (weather_begin statusText details btn spinner p)) []
      = (p', [], Completed, [])
      ∧ shows p' statusText (Text ("Error al cargar clima: " +:+ err_message error))
      ∧ shows p' details (Html "")
      ∧ console p' = console p ++ [error]).
  { intros error. weather_run. rewrite drive_weather_finally.
    eexists. split; [reflexivity|].
    split; [exact (proj1 (weather_shown_caught _ _ _ _ _ _ _ _ _ Hwe))|].
    split; [exact (proj2 (weather_shown_caught _ _ _ _ _ _ _ _ _ Hwe))|].
    by rewrite console_weather_caught, requests_log_request_console,
      console_weather_begin. }
  destruct (body response) as [errorData|syntax_error].
  - rewrite try_catch_Yield, try_finally_Yield, drive_Yield.
    destruct (prop errorData "detail") as [detail|e]; cbn [lift].
    + destruct (truthy detail) eqn:Htruthy.
      * assert (new_Error detail
                = match ToString detail with
                  | Ok text => Ok (mkError "Error" text)
                  | Raise e => Raise e
                  end) as ->.
        { destruct detail; try reflexivity. discriminate Htruthy. }
        destruct (ToString detail) as [text|e]; cbn [lift].
        -- destruct (Hend (mkError "Error" text)) as (p' & Hrun & H).
           exists p', (mkError "Error" text). weather_done.
        -- destruct (Hend e) as (p' & Hrun & H). exists p', e. weather_done.
      * cbn [new_Error]. rewrite ToString_JStr. cbn [mbind Exn_bind lift].
        destruct (Hend (mkError "Error" "No se pudo obtener el clima."))
          as (p' & Hrun & H).
        exists p', (mkError "Error" "No se pudo obtener el clima."). weather_done.
    + destruct (Hend e) as (p' & Hrun & H). exists p', e. weather_done.
  - rewrite try_catch_Yield, try_finally_Yield, drive_Yield.
    destruct (Hend (mkError "SyntaxError" syntax_error)) as (p' & Hrun & H).
    exists p', (mkError "SyntaxError" syntax_error). weather_done.
Qed.

(** C3, as the script has it.  The [force] argument does not reach the
    request: an invocation with [force = true] is the same task as one
    with [force = false], and it sends the same request. *)
Theorem force_flag_not_conveyed (cca3 : Val) :
  fetchWeatherForCountry cca3 true = fetchWeatherForCountry cca3 false
  ∧ ∀ p replies,
      requests (drive (fetchWeatherForCountry cca3 true) p replies).1.1.1
      = requests (drive (fetchWeatherForCountry cca3 false) p replies).1.1.1.
Proof. split; reflexivity. Qed.

(** ** The dialog and its interval *)

(** When [t] returns normally, [await t; k] inside a [try] goes on
    with [k] inside that [try]. *)
Lemma drive_try_catch_seq (t k : Task Num) h :
  ∀ p rs q bs rs',
    drive t p rs = (q, bs, Completed, rs') →
    drive (try_catch (seq t k) h) p rs
    = let '(q', bs', o, rs'') := drive (try_catch k h) q rs' in
      (q', bs ++ bs', o, rs'').
Proof.
  induction t as [|e|k' IH|f t IH|rq k' IH|t IH|t1 _ t2 IH];
    intros p rs q bs rs' Hrun; cbn [seq try_catch drive] in *.
  - injection Hrun as <- <- <-.
    by destruct (drive (try_catch k h) p rs) as [[[? ?] ?] ?].
  - discriminate.
  - by apply IH.
  - by apply IH.
  - destruct rs as [|r rs]; [discriminate|]. by apply IH.
  - by apply IH.
  - destruct (run t1 p) as [[p1 bs1] o1].
    destruct (drive t2 p1 rs) as [[[p2 bs2] o2] rest] eqn:Ht2.
    injection Hrun as <- <- -> <-.
    rewrite (IH _ _ _ _ _ Ht2).
    destruct (drive (try_catch k h) p2 rest) as [[[? ?] ?] ?].
    by rewrite <- !app_assoc.
Qed.

(** fetchWeatherForCountry never rejects: given a reply, it returns. *)
Lemma fetchWeather_returns p cca3 force reply rest :
  ∃ q rest', drive (fetchWeatherForCountry cca3 force) p (reply :: rest)
             = (q, [], Completed, rest')
             ∧ timers q = timers p
             ∧ weatherUpdateIntervalId q = weatherUpdateIntervalId p.
Proof.
  destruct (weather_found_or_missing p) as [Hmiss|(t & d & b & sp & Hf)].
  - exists p, (reply :: rest). by rewrite drive_fetchWeather_missing.
  - destruct (drive_fetchWeather_end p cca3 force _ _ _ _ reply rest Hf)
      as (q & -> & [_ Ht Hi _] & _).
    by exists (weather_end b sp q), rest.
Qed.

(** What line 241 leaves behind: the interval is registered under a
    handle that was free, with the 60000 ms delay, and the handle is
    recorded. *)
Lemma start_weather_interval_spec countryCode (q : Page Num) :
  ∃ h, weatherUpdateIntervalId (start_weather_interval countryCode q) = Some h
       ∧ timers (start_weather_interval countryCode q)
         = <[h := mkInterval (CbFetchWeather countryCode false) 60000]> (timers q)
       ∧ timers q !! h = None.
Proof.
  exists (fresh (dom (timers q))). repeat split.
  apply not_elem_of_dom, is_fresh.
Qed.

End ClientFacts.

#[global] Hint Rewrite @drive_Write @drive_Yield @drive_Fetch @drive_Read
  @try_catch_Ret @try_catch_Throw @try_catch_Write @try_catch_Yield
  @try_catch_Read @try_catch_Fetch
  @try_finally_Ret @try_finally_Throw @try_finally_Write @try_finally_Yield
  @seq_Ret @seq_Throw @seq_Write @seq_Yield @seq_Read
  @lift_Ok @lift_Raise : task.

Section DialogFacts.
Context {Num : Type} `{!Engine Num} (K : Consts).
#[local] Abbreviation Val := (JsVal Num).
Implicit Types (p q : Page Num) (c countryCode : Val).

Lemma reaches_Write c f k rs :
  reaches_interval c k rs → reaches_interval c (Write f k) rs.
Proof. intros H p. rewrite drive_Write. apply H. Qed.

Lemma reaches_Read c (k : Page Num → Task Num) rs :
  (∀ p, reaches_interval c (k p) rs) → reaches_interval c (Read k) rs.
Proof. intros H p. rewrite drive_Read. apply H. Qed.

Lemma reaches_Yield c k rs :
  reaches_interval c k rs → reaches_interval c (Yield k) rs.
Proof. intros H p. rewrite drive_Yield. apply H. Qed.

Lemma reaches_Fetch c rq (k : FetchReply Num → Task Num) r rs :
  reaches_interval c (k r) rs → reaches_interval c (Fetch rq k) (r :: rs).
Proof. intros H p. rewrite drive_Fetch. apply H. Qed.

Lemma reaches_last c h rs :
  reaches_interval c (try_catch (Write (start_weather_interval c) Ret) h) rs.
Proof.
  intros p. rewrite try_catch_Write, try_catch_Ret, drive_Write, drive_Ret.
  by exists p, [], rs.
Qed.

(** The awaited fetchWeatherForCountry returns, and line 241 follows. *)
Lemma reaches_after_fetchWeather c cca3 force h reply rest :
  reaches_interval c
    (try_catch (seq (fetchWeatherForCountry cca3 force)
                    (Write (start_weather_interval c) Ret)) h)
    (reply :: rest).
Proof.
  intros p.
  destruct (fetchWeather_returns p cca3 force reply rest) as (q & rs' & Hrun & _).
  rewrite (drive_try_catch_seq _ _ h _ _ _ _ _ Hrun).
  destruct (reaches_last c h rs' q) as (q' & bs & rest' & ->).
  by exists q', ([] ++ bs), rest'.
Qed.

(** With the country's details loaded and rendered, openModal awaits
    the first weather fetch and then runs line 241. *)
Lemma drive_openModal p countryCode isFromSavedView modalBody response country
    markup reply rest :
  getElementById p "modal-body" = Some modalBody →
  resp_ok response = true →
  body response = JsonBody country →
  country_details country = Ok markup →
  ends_with_interval countryCode
    (drive (openModal K countryCode isFromSavedView) p
           (NetResp response :: reply :: rest)).
Proof.
  intros Hbody Hok Hjson Hmarkup.
  unfold openModal. rewrite drive_Read, Hbody.
  match goal with |- ends_with_interval _ (drive ?t ?q ?rs) =>
    generalize q; change (reaches_interval countryCode t rs)
  end.
  unfold innerHTML_paragraph, clear_weather_interval, openModal_try,
    await_fetch, await_json, mount_weather_info, Alloc.
  repeat first
    [ lazymatch goal with
      | |- reaches_interval _ (try_catch (seq (fetchWeatherForCountry _ _) _) _) _ =>
          apply reaches_after_fetchWeather
      | |- reaches_interval _ (Write _ _) _ => apply reaches_Write
      | |- reaches_interval _ (Yield _) _ => apply reaches_Yield
      | |- reaches_interval _ (Fetch _ _) _ => apply reaches_Fetch
      | |- reaches_interval _ (Read _) _ => apply reaches_Read; intros ?
      end
    | progress autorewrite with task
    | progress cbv beta iota zeta
    | progress rewrite ?Hok, ?Hjson, ?Hmarkup
    | progress cbn [negb]
    | match goal with
      | |- context [match ?x with _ => _ end] => destruct x eqn:?
      | |- context [if ?b then _ else _] => destruct b eqn:?
      end ].
Qed.

(** closeModal cancels the interval recorded in
    [weatherUpdateIntervalId] and resets both closure variables. *)
Lemma closeModal_clears (p : Page Num) h :
  weatherUpdateIntervalId p = Some h →
  ∃ p', drive (closeModal K) p [] = (p', [], Completed, [])
        ∧ timers p' = delete h (timers p)
        ∧ weatherUpdateIntervalId p' = None
        ∧ currentCountryCodeInModal p' = None.
Proof.
  intros Hh. unfold closeModal, clear_weather_interval.
  rewrite drive_Write, drive_Read.
  change (weatherUpdateIntervalId (classList_add ?r ?c ?q))
    with (weatherUpdateIntervalId q).
  rewrite Hh. autorewrite with task. rewrite drive_Ret.
  eexists. split; [reflexivity|]. by repeat split.
Qed.

End DialogFacts.

(** * The script on a concrete page *)

Module Evaluation.
Import Example.

Lemma dialog_open_elements : weather_elements dialog_open 22 23 24 21.
Proof.
  constructor.
  - constructor; [exists 20%nat; split|..]; vm_compute; reflexivity.
  - apply (bool_decide_unpack _). vm_compute. exact I.
  - apply (bool_decide_unpack _). vm_compute. exact I.
Qed.

(** The page of the dialog, for the lookups of lines 250-254. *)
Lemma dialog_open_lookups :
  getElementById dialog_open "weather-status-text" = Some 22%nat
  ∧ getElementById dialog_open "weather-details" = Some 23%nat
  ∧ getElementById dialog_open "consultar-clima-btn" = Some 24%nat
  ∧ weatherUpdateIntervalId dialog_open = Some 1%positive.
Proof. vm_compute. repeat split; reflexivity. Qed.

(** C3 on the open dialog.  openModal registered the button's listener
    with [force = true] and the interval's callback without it; a click
    on the button and a tick of the interval put the same request on
    the wire. *)
Lemma button_and_interval_send_the_same_request :
  let w := mkWorld dialog_open [] in
  let sent (w' : option (World Z)) := (λ w', requests (page w')) <$> w' in
  (listeners <$> elems dialog_open !! 24%nat)
  = Some [CbFetchWeather (JStr "CRI") true]
  ∧ timers dialog_open !! 1%positive
    = Some (mkInterval (CbFetchWeather (JStr "CRI") false) 60000)
  ∧ sent (step K w (Click 24%nat))
    = Some (requests dialog_open
            ++ [mkRequest "GET" "http://127.0.0.1:8000/api/weather/CRI"])
  ∧ sent (step K w (Tick 1%positive))
    = Some (requests dialog_open
            ++ [mkRequest "GET" "http://127.0.0.1:8000/api/weather/CRI"]).
Proof. vm_compute. repeat split; reflexivity. Qed.

Lemma fetchWeather_restores_ui_witness :
  drive (fetchWeatherForCountry (JStr "CRI") true) index_html
        [NetFail (mkError "TypeError" "Failed to fetch")]
  = (index_html, [], Completed, [NetFail (mkError "TypeError" "Failed to fetch")])
  ∧ ∃ p', drive (fetchWeatherForCountry (JStr "CRI") true) dialog_open
                [NetFail (mkError "TypeError" "Failed to fetch")]
          = (p', [], Completed, [])
          ∧ has_class p' "hidden" 21%nat = true
          ∧ is_disabled p' 24%nat = Some false
          ∧ shows p' 24%nat (Text "Consultar Clima").
Proof.
  split.
  - apply (proj1 (fetchWeather_restores_ui index_html (JStr "CRI") true)).
    left. reflexivity.
  - apply (proj2 (fetchWeather_restores_ui dialog_open (JStr "CRI") true)
             22%nat 23%nat 24%nat 21%nat).
    exact dialog_open_elements.
Defined.

Lemma weather_200_response_witness :
  ∃ p', drive (fetchWeatherForCountry (JStr "CRI") false) dialog_open
              [ok_json weather]
        = (p', [], Completed, [])
        ∧ shows p' 22%nat (Text "Clima actual:")
        ∧ shows p' 23%nat
            (Html (weather_markup "25" "3" "2025-07-01T12:00"
                                  "2025-07-01T12:00:05")).
Proof.
  destruct (weather_200_response dialog_open (JStr "CRI") "CRI" false 22 23 24 21
              (mkResponse 200 (JsonBody weather)) weather JUndefined
              dialog_open_elements eq_refl eq_refl eq_refl eq_refl)
    as (p' & Hrun & Hshown).
  exists p'. split; [exact Hrun|].
  exact (proj1 (Hshown (JNum 25) (JNum 3) eq_refl eq_refl eq_refl eq_refl)
           (JStr "2025-07-01T12:00") (JStr "2025-07-01T12:00:05")
           "25" "3" "2025-07-01T12:00" "2025-07-01T12:00:05"
           eq_refl eq_refl eq_refl eq_refl eq_refl eq_refl).
Defined.

(** C5 as stated fails on a body whose [message] is the empty string:
    the field is there, yet the status line does not show it and the
    details area is filled. *)
Lemma message_field_counterexample :
  let fields := [("message", JStr "")] in
  let p' := after (JStr "CRI") false dialog_open
                  [NetResp (mkResponse 200 (JsonBody (JObj fields)))] in
  own "message" fields = Some (JStr "")
  ∧ shows p' 22%nat (Text "Clima actual:")
  ∧ ¬ shows p' 22%nat (Text "")
  ∧ ¬ shows p' 23%nat (Html "").
Proof.
  vm_compute. repeat split; intros H; discriminate H.
Qed.

Lemma weather_partial_record_witness :
  ∃ p', drive (fetchWeatherForCountry (JStr "CRI") false) dialog_open
              [ok_json (JObj partial)]
        = (p', [], Completed, [])
        ∧ shows p' 22%nat (Text "Datos de clima no disponibles o incompletos.")
        ∧ shows p' 23%nat (Html "").
Proof.
  apply (weather_partial_record dialog_open (JStr "CRI") false 22 23 24 21
           (mkResponse 200 (JsonBody (JObj partial))) partial
           dialog_open_elements eq_refl eq_refl eq_refl).
  right. reflexivity.
Defined.

Lemma weather_error_response_witness :
  ∃ p' error,
    drive (fetchWeatherForCountry (JStr "CRI") false) dialog_open
          [NetResp not_found]
    = (p', [], Completed, [])
    ∧ shows p' 22%nat (Text ("Error al cargar clima: " +:+ err_message error))
    ∧ shows p' 23%nat (Html "")
    ∧ console p' = console dialog_open ++ [error]
    ∧ error = mkError "Error" "País no encontrado.".
Proof.
  apply (weather_error_response dialog_open (JStr "CRI") "CRI" false 22 23 24 21
           not_found dialog_open_elements eq_refl eq_refl).
Defined.

(** C6 as stated fails on an error response whose body is not JSON,
    such as the plain-text page of an unhandled server error: there is
    no [detail], yet the text shown is not the fixed fallback but the
    message of the parse error. *)
Lemma error_body_counterexample :
  let response :=
    mkResponse 500 (NotJson "Unexpected token I in JSON at position 0") in
  let p' := after (JStr "CRI") false dialog_open [NetResp response] in
  resp_ok response = false
  ∧ shows p' 22%nat
      (Text "Error al cargar clima: Unexpected token I in JSON at position 0")
  ∧ ¬ shows p' 22%nat (Text "Error al cargar clima: No se pudo obtener el clima.").
Proof.
  vm_compute. repeat split. intros H. discriminate H.
Qed.

(** C9 fails on the script.  Costa Rica's card is clicked, the dialog is
    closed while it loads, the card of the United States is clicked,
    and the pending requests are answered: both calls of openModal
    reach line 241, and two intervals are left running, of which only
    the second is recorded and can ever be cleared. *)
Theorem overlapping_dialogs_leave_two_intervals :
  match steps K loaded two_dialogs with
  | Some w =>
      waiting w = []
      ∧ size (timers (page w)) = 2%nat
      ∧ timers (page w) !! 1%positive
        = Some (mkInterval (CbFetchWeather (JStr "CRI") false) 60000)
      ∧ timers (page w) !! 2%positive
        = Some (mkInterval (CbFetchWeather (JStr "USA") false) 60000)
      ∧ weatherUpdateIntervalId (page w) = Some 2%positive
      ∧ match steps K w [Close; Navigate (Some "home")] with
        | Some w' => size (timers (page w')) = 1%nat
                     ∧ weatherUpdateIntervalId (page w') = None
        | None => False
        end
  | None => False
  end.
Proof. vm_compute. repeat split; reflexivity. Qed.

End Evaluation.


(** * More of the script: what its functions never do *)

Section BehaviourFacts.
Context {Num : Type} `{!Engine Num}.
#[local] Abbreviation Val := (JsVal Num).
Implicit Types (p q : Page Num) (t k fin : Task Num) (h : JsError → Task Num).

(** ** Exceptions *)

Lemma settles_try_catch t h : (∀ e, settles (h e)) → settles (try_catch t h).
Proof.
  intros Hh. induction t; cbn [try_catch]; try (constructor; auto). apply Hh.
Qed.

Lemma settles_seq t k : settles t → settles k → settles (seq t k).
Proof. intros Ht Hk. induction Ht; cbn [seq]; try (constructor; auto). exact Hk. Qed.

Lemma settles_try_finally t fin :
  settles t → settles fin → settles (try_finally t fin).
Proof.
  intros Ht Hf. induction Ht; cbn [try_finally]; try (constructor; auto). exact Hf.
Qed.

Lemma settles_drive t :
  settles t → ∀ p rs e, (drive t p rs).1.2 ≠ Rejected e.
Proof.
  induction 1 as [|k _ IH|f k _ IH|rq k _ IH|k _ IH|t k _ IH];
    intros p rs e; cbn [drive]; try done; try apply IH.
  - destruct rs; [done|apply IH].
  - destruct (run t p) as [[p1 bs1] o1].
    specialize (IH p1 rs e).
    by destruct (drive k p1 rs) as [[[? ?] ?] ?].
Qed.

(** ** Writes *)

Section Respects.
Context (R : Page Num → Page Num → Prop) `{!PreOrder R}.

Lemma respects_try_catch t h :
  respects R t → (∀ e, respects R (h e)) → respects R (try_catch t h).
Proof.
  intros Ht Hh. induction Ht; cbn [try_catch]; try (constructor; auto). apply Hh.
Qed.

Lemma respects_seq t k : respects R t → respects R k → respects R (seq t k).
Proof.
  intros Ht Hk. induction Ht; cbn [seq]; try (constructor; auto). exact Hk.
Qed.

Lemma respects_try_finally t fin :
  respects R t → respects R fin → respects R (try_finally t fin).
Proof.
  intros Ht Hf. induction Ht; cbn [try_finally seq]; try (constructor; auto).
  - exact Hf.
  - apply respects_seq; [exact Hf|constructor].
Qed.

Lemma run_respects t :
  respects R t →
  ∀ p, R p (run t p).1.1
       ∧ Forall (respects_blocked R) ((run t p).1.2 ++ parked (run t p).2).
Proof.
  induction 1 as [|e|k _ IH|f k Hf _ IH|rq k Hlog Hk _|k Hk _|t k _ IHt _ IHk];
    intros p; cbn [run fst snd parked app].
  - split; [reflexivity|constructor].
  - split; [reflexivity|constructor].
  - apply IH.
  - destruct (IH (f p)) as [HR Hb]. split; [|exact Hb].
    etrans; [apply Hf|exact HR].
  - split; [apply Hlog|]. repeat constructor. exact Hk.
  - split; [reflexivity|]. repeat constructor. exact Hk.
  - destruct (IHt p) as [HR1 Hb1].
    destruct (run t p) as [[p1 bs1] o1]. cbn [fst snd] in *.
    destruct (IHk p1) as [HR2 Hb2].
    destruct (run k p1) as [[p2 bs2] o2]. cbn [fst snd] in *.
    split; [by etrans|].
    rewrite <- !app_assoc. rewrite (app_assoc bs1).
    apply Forall_app. split; [exact Hb1|exact Hb2].
Qed.

Lemma drive_respects t :
  respects R t → ∀ p rs, R p (drive t p rs).1.1.1.
Proof.
  induction 1 as [|e|k _ IH|f k Hf _ IH|rq k Hlog _ IH|k _ IH|t k Ht _ _ IHk];
    intros p rs; cbn [drive fst].
  - reflexivity.
  - reflexivity.
  - apply IH.
  - etrans; [apply Hf|apply IH].
  - destruct rs as [|r rs]; cbn [fst]; [apply Hlog|].
    etrans; [apply Hlog|apply IH].
  - apply IH.
  - destruct (run_respects t Ht p) as [HR1 _].
    destruct (run t p) as [[p1 bs1] o1]. cbn [fst] in HR1.
    specialize (IHk p1 rs).
    destruct (drive k p1 rs) as [[[p2 bs2] o2] rest]. cbn [fst] in *.
    by etrans.
Qed.

End Respects.

End BehaviourFacts.

(** ** The document operations leave the frame alone *)

Section FrameFacts.
Context {Num : Type}.
Implicit Types (p q : Page Num).

Lemma frame_upd_elems g p : frame (upd_elems g p) = frame p.
Proof. reflexivity. Qed.

Lemma frame_upd_byId g p : frame (upd_byId g p) = frame p.
Proof. reflexivity. Qed.

Lemma frame_modify r (g : Element Num → Element Num) p :
  frame (modify r g p) = frame p.
Proof. reflexivity. Qed.

Lemma frame_set_textContent r s p : frame (set_textContent r s p) = frame p.
Proof. reflexivity. Qed.

Lemma frame_classList_add r c p : frame (classList_add r c p) = frame p.
Proof. reflexivity. Qed.

Lemma frame_classList_remove r c p : frame (classList_remove r c p) = frame p.
Proof. reflexivity. Qed.

Lemma frame_classList_toggle r c b p : frame (classList_toggle r c b p) = frame p.
Proof. by destruct b. Qed.

Lemma frame_detach_below r p : frame (detach_below r p) = frame p.
Proof. unfold detach_below. by destruct (elems p !! r). Qed.

Lemma frame_set_innerHTML r m p : frame (set_innerHTML r m p) = frame p.
Proof. unfold set_innerHTML. by rewrite frame_modify, frame_detach_below. Qed.

Lemma frame_set_focused r p : frame (set_focused r p) = frame p.
Proof. reflexivity. Qed.

Lemma frame_attach ancestors id r p : frame (attach ancestors id r p) = frame p.
Proof.
  unfold attach.
  assert (Hfold : frame (foldr (λ a, modify a (set_descendants (λ ds, ds ++ [r])))
                               p ancestors) = frame p).
  { induction ancestors as [|a l IH]; [done|]. simpl. by rewrite frame_modify. }
  destruct id; [rewrite frame_upd_byId|]; exact Hfold.
Qed.

Lemma frame_foldl {A} (g : Page Num → A → Page Num) (l : list A) :
  (∀ q x, frame (g q x) = frame q) → ∀ p, frame (foldl g p l) = frame p.
Proof.
  intros Hg. induction l as [|x l IH]; intros p; [done|].
  simpl. by rewrite IH, Hg.
Qed.

End FrameFacts.

Create HintDb frame.
#[global] Hint Resolve frame_upd_elems frame_upd_byId frame_modify
  frame_set_textContent frame_classList_add frame_classList_remove
  frame_classList_toggle frame_set_innerHTML frame_set_focused frame_attach
  : frame.

(** ** The functions of the script, write by write *)

(** Take a task of the script apart, one constructor at a time. *)
Ltac respects_step_with R_frame R_request R_console :=
  lazymatch goal with
  | |- respects _ Ret => apply rs_Ret
  | |- respects _ (Throw _) => apply rs_Throw
  | |- respects _ (Read _) => apply rs_Read; intros ?
  | |- respects _ (Write (console_error _) _) =>
      apply rs_Write; [intros ?; apply R_console|]
  | |- respects _ (Write _ _) =>
      apply rs_Write; [intros ?; apply R_frame; solve [auto with frame]|]
  | |- respects _ (Yield _) => apply rs_Yield
  | |- respects _ (Fetch _ _) => apply rs_Fetch; [apply R_request|intros ?]
  | |- respects _ (try_catch _ _) => apply respects_try_catch; [|intros ?]
  | |- respects _ (try_finally _ _) => apply respects_try_finally
  | |- respects _ (seq _ _) => apply respects_seq
  | |- respects _ (lift ?x _) => destruct x; cbn [lift]
  | |- respects _ (match ?x with _ => _ end) => destruct x
  | |- respects _ ((if ?b then _ else _) _) => destruct b
  | |- respects _ ((match ?x with _ => _ end) _) => destruct x
  end; cbv beta.

Section ScriptRespects.
Context {Num : Type} `{!Engine Num} (K : Consts).
Context (R : Page Num → Page Num → Prop) `{!PreOrder R}.
Context (R_frame : ∀ p q : Page Num, frame q = frame p → R p q).
Context (R_request : ∀ rq (p : Page Num), R p (log_request rq p)).
Context (R_console : ∀ e (p : Page Num), R p (console_error e p)).
#[local] Abbreviation Val := (JsVal Num).
Implicit Types (p q : Page Num) (t k : Task Num).

#[local] Ltac respects_step := respects_step_with R_frame R_request R_console.

Lemma respects_innerHTML_paragraph r cls inner k :
  respects R k → respects R (innerHTML_paragraph r cls inner k).
Proof. intros Hk. unfold innerHTML_paragraph, Alloc. repeat respects_step. exact Hk. Qed.

Lemma respects_showCustomMessage message k :
  respects R k → respects R (showCustomMessage K message k).
Proof. intros Hk. unfold showCustomMessage. repeat respects_step. exact Hk. Qed.

Lemma respects_clickHandler : respects R (clickHandler K).
Proof. unfold clickHandler. repeat respects_step. Qed.

Lemma respects_createCard country container source k :
  respects R k → respects R (createCard country container source k).
Proof. intros Hk. unfold createCard, Alloc. repeat respects_step; exact Hk. Qed.

Lemma respects_forEach_createCard countries container source k :
  respects R k → respects R (forEach_createCard countries container source k).
Proof.
  intros Hk. unfold forEach_createCard.
  destruct countries as [| | | | |items|]; try apply rs_Throw.
  induction items as [|c items IH]; [exact Hk|].
  simpl. by apply respects_createCard.
Qed.

Lemma respects_fetchAndDisplayCountries endpoint :
  respects R (fetchAndDisplayCountries K endpoint).
Proof.
  unfold fetchAndDisplayCountries, await_fetch, await_json.
  apply respects_innerHTML_paragraph.
  repeat first
    [ apply respects_innerHTML_paragraph
    | apply respects_forEach_createCard
    | respects_step ].
Qed.

Lemma respects_displaySavedCountries : respects R (displaySavedCountries K).
Proof.
  unfold displaySavedCountries, await_fetch, await_json.
  apply respects_innerHTML_paragraph.
  repeat first
    [ apply respects_innerHTML_paragraph
    | apply respects_forEach_createCard
    | apply respects_showCustomMessage
    | respects_step ].
Qed.

Lemma respects_fetchWeatherForCountry cca3 force :
  respects R (fetchWeatherForCountry cca3 force).
Proof.
  unfold fetchWeatherForCountry, weather_try, weather_catch, weather_finally,
    await_fetch, on_weather_response, await_json.
  repeat respects_step.
Qed.

End ScriptRespects.

(** ** The whole page, event by event *)

Section LoopRespects.
Context {Num : Type} `{!Engine Num} (K : Consts).
Context (R : Page Num → Page Num → Prop) `{!PreOrder R}.
Context (R_frame : ∀ p q : Page Num, frame q = frame p → R p q).
Context (R_request : ∀ rq (p : Page Num), R p (log_request rq p)).
Context (R_console : ∀ e (p : Page Num), R p (console_error e p)).
Context (R_clear : ∀ h (p : Page Num), R p (clearInterval h p)).
Context (R_handle : ∀ o (p : Page Num), R p (set_weatherUpdateIntervalId o p)).
Context (R_country : ∀ c (p : Page Num), R p (set_currentCountryCodeInModal c p)).
Context (R_start : ∀ c (p : Page Num), R p (start_weather_interval c p)).
#[local] Abbreviation Val := (JsVal Num).
Implicit Types (p q : Page Num) (t k : Task Num).

#[local] Ltac respects_step := respects_step_with R_frame R_request R_console.

#[local] Ltac respects_all :=
  repeat first
    [ apply respects_innerHTML_paragraph
    | apply respects_forEach_createCard
    | apply respects_showCustomMessage
    | apply respects_fetchWeatherForCountry
    | apply respects_fetchAndDisplayCountries
    | apply respects_displaySavedCountries
    | lazymatch goal with
      | |- respects _ (Write (clearInterval _) _) =>
          apply rs_Write; [intros ?; apply R_clear|]
      | |- respects _ (Write (set_weatherUpdateIntervalId _) _) =>
          apply rs_Write; [intros ?; apply R_handle|]
      | |- respects _ (Write (set_currentCountryCodeInModal _) _) =>
          apply rs_Write; [intros ?; apply R_country|]
      | |- respects _ (Write (start_weather_interval _) _) =>
          apply rs_Write; [intros ?; apply R_start|]
      | |- respects _ (Spawn _ _) => apply rs_Spawn
      end
    | respects_step ]; try done.

Lemma respects_clear_weather_interval k :
  respects R k → respects R (clear_weather_interval k).
Proof. intros Hk. unfold clear_weather_interval. respects_all. Qed.

Lemma respects_closeModal : respects R (closeModal K).
Proof.
  unfold closeModal. respects_all. apply respects_clear_weather_interval.
  respects_all.
Qed.

Lemma respects_fetchCountriesByRegion region :
  respects R (fetchCountriesByRegion K region).
Proof.
  unfold fetchCountriesByRegion. cbv zeta.
  apply rs_Spawn; [|constructor]. by apply respects_fetchAndDisplayCountries.
Qed.

Lemma respects_switchView viewName : respects R (switchView K viewName).
Proof.
  unfold switchView.
  apply rs_Write.
  { intros p. apply R_frame, frame_foldl. auto with frame. }
  apply rs_Read. intros p.
  assert (Htail : respects R
            (clear_weather_interval
               (Write (set_currentCountryCodeInModal None) Ret))).
  { apply respects_clear_weather_interval. respects_all. }
  assert (Hrest : ∀ k0 : Task Num → Task Num,
            (∀ k, respects R k → respects R (k0 k)) →
            respects R
              (k0 (Write (λ q, foldl (λ q' link,
                         classList_toggle link "active"
                           (bool_decide (dataset_view q' link = viewName)) q')
                       q (navLinks K))
                 (Read (λ q,
                    (if bool_decide (viewName = Some "browse")
                        && (childElementCount q (countriesGrid K) =? 0)%nat
                     then Spawn (fetchCountriesByRegion K "all")
                     else λ k, k)
                      ((if bool_decide (viewName = Some "local")
                        then Spawn (displaySavedCountries K) else λ k, k)
                         (clear_weather_interval
                            (Write (set_currentCountryCodeInModal None) Ret)))))))).
  { intros k0 Hk0. apply Hk0. apply rs_Write.
    { intros q. apply R_frame, frame_foldl. auto with frame. }
    apply rs_Read. intros q.
    destruct (bool_decide (viewName = Some "browse")
              && (childElementCount q (countriesGrid K) =? 0)%nat);
      destruct (bool_decide (viewName = Some "local")); cbv beta;
      repeat first
        [ exact Htail
        | apply respects_fetchCountriesByRegion
        | by apply respects_displaySavedCountries
        | apply rs_Spawn ]. }
  destruct (getElementById p ("view-" +:+ default "undefined" viewName)) as [v|].
  - apply (Hrest (Write (classList_remove v "hidden"))).
    intros k Hk. apply rs_Write; [|exact Hk].
    intros q. apply R_frame. auto with frame.
  - apply (Hrest (λ k, k)). auto.
Qed.

Lemma respects_openModal countryCode isFromSavedView :
  respects R (openModal K countryCode isFromSavedView).
Proof.
  unfold openModal. apply rs_Read. intros p.
  destruct (getElementById p "modal-body") as [modalBody|]; [|apply rs_Throw].
  apply respects_innerHTML_paragraph; try assumption.
  apply respects_clear_weather_interval.
  unfold openModal_try, openModal_catch, await_fetch, await_json,
    mount_weather_info, Alloc.
  respects_all.
Qed.

Lemma respects_handler cb t : handler K cb = Some t → respects R t.
Proof.
  destruct cb; intros [= <-].
  - apply respects_fetchWeatherForCountry; assumption.
  - apply respects_openModal.
  - apply respects_clickHandler; assumption.
Qed.

Lemma respects_dispatch cbs t : dispatch K cbs = Some t → respects R t.
Proof.
  revert t. induction cbs as [|cb cbs IH]; intros t; cbn [dispatch].
  - intros [= <-]. constructor.
  - destruct (handler K cb) as [t1|] eqn:H1; [|done].
    destruct (dispatch K cbs) as [k|]; [|done].
    intros [= <-]. constructor; [by eapply respects_handler|by apply IH].
Qed.

Lemma start_respects t w :
  respects R t → Forall (respects_blocked R) (waiting w) →
  R (page w) (page (start t w))
  ∧ Forall (respects_blocked R) (waiting (start t w)).
Proof.
  intros Ht Hw. unfold start.
  destruct (run_respects R t Ht (page w)) as [HR Hb].
  destruct (run t (page w)) as [[p bs] o]. cbn [fst snd page waiting] in *.
  split; [exact HR|]. apply Forall_app. by split.
Qed.

Lemma step_respects w ev w' :
  Forall (respects_blocked R) (waiting w) →
  step K w ev = Some w' →
  R (page w) (page w') ∧ Forall (respects_blocked R) (waiting w').
Proof.
  intros Hw. destruct ev as [v| |r|h|i reply|i]; cbn [step].
  - intros [= <-]. apply start_respects; [apply respects_switchView|done].
  - intros [= <-]. apply start_respects; [apply respects_closeModal|done].
  - destruct (elems (page w) !! r) as [e|]; [|done].
    destruct (in_document K (page w) r && negb (disabled e)); [|done].
    destruct (dispatch K (listeners e ++ option_list (onclick e))) as [t|] eqn:Hd;
      [|done].
    intros [= <-]. apply start_respects; [by eapply respects_dispatch|done].
  - destruct (timers (page w) !! h) as [iv|]; [|done].
    destruct (handler K (iv_callback iv)) as [t|] eqn:Hh; [|done].
    intros [= <-]. apply start_respects; [by eapply respects_handler|done].
  - destruct (waiting w !! i) as [[rq k|k]|] eqn:Hi; try done.
    intros [= <-].
    assert (Hk : respects R (k reply)).
    { eapply Forall_lookup_1 in Hi; [|exact Hw]. apply Hi. }
    destruct (start_respects (k reply) (mkWorld (page w) (delete i (waiting w))) Hk)
      as [HR Hb]; [by apply Forall_delete|]. by split.
  - destruct (waiting w !! i) as [[rq k|k]|] eqn:Hi; try done.
    intros [= <-].
    assert (Hk : respects R k).
    { eapply Forall_lookup_1 in Hi; [|exact Hw]. apply Hi. }
    destruct (start_respects k (mkWorld (page w) (delete i (waiting w))) Hk)
      as [HR Hb]; [by apply Forall_delete|]. by split.
Qed.

Lemma steps_respects evs :
  ∀ w w', Forall (respects_blocked R) (waiting w) →
          steps K w evs = Some w' →
          R (page w) (page w') ∧ Forall (respects_blocked R) (waiting w').
Proof.
  induction evs as [|ev evs IH]; intros w w' Hw; cbn [steps].
  - intros [= <-]. by split.
  - destruct (step K w ev) as [w1|] eqn:Hstep; [|done].
    destruct (step_respects w ev w1 Hw Hstep) as [HR1 Hw1].
    intros Hrest. destruct (IH w1 w' Hw1 Hrest) as [HR2 Hw2].
    split; [by etrans|done].
Qed.

End LoopRespects.

(** ** Loading the lists *)

Section ListingFacts.
Context {Num : Type} `{!Engine Num} (K : Consts).
#[local] Abbreviation Val := (JsVal Num).
Implicit Types (p q : Page Num) (t k : Task Num).

#[local] Instance same_frame_preorder : PreOrder (same_frame (Num:=Num)).
Proof.
  split; [by intros p|]. intros p q r Hpq Hqr. unfold same_frame in *. congruence.
Qed.

Lemma same_frame_of_frame p q : frame q = frame p → same_frame p q.
Proof. done. Qed.

Lemma same_frame_parts p q :
  same_frame p q →
  timers q = timers p
  ∧ weatherUpdateIntervalId q = weatherUpdateIntervalId p
  ∧ currentCountryCodeInModal q = currentCountryCodeInModal p
  ∧ requests q = requests p
  ∧ console q = console p.
Proof. unfold same_frame, frame. intros [= -> -> -> -> ->]. done. Qed.

Lemma frame_log_request rq p :
  frame (log_request rq p)
  = (timers p, weatherUpdateIntervalId p, currentCountryCodeInModal p,
     requests p ++ [rq], console p).
Proof. reflexivity. Qed.

(** A task whose first [await] is a [fetch], and which after the reply
    only writes to the document and lets no exception escape. *)
Definition one_fetch_then_document (rq : Request) (t : Task Num) : Prop :=
  ∀ p rs,
    ∃ P, frame P = frame p
         ∧ ((rs = [] ∧ ∃ c, drive t p rs = (log_request rq P, [], Suspended (OnFetch rq c), []))
            ∨ ∃ T r rs', rs = r :: rs'
                         ∧ drive t p rs = drive T (log_request rq P) rs'
                         ∧ settles T ∧ respects same_frame T).

Lemma one_fetch_then_document_spec rq t p rs :
  one_fetch_then_document rq t →
  (∀ e, (drive t p rs).1.2 ≠ Rejected e)
  ∧ frame (drive t p rs).1.1.1
    = (timers p, weatherUpdateIntervalId p, currentCountryCodeInModal p,
       requests p ++ [rq], console p).
Proof.
  intros Ht. destruct (Ht p rs) as (P & HP & [[-> [c ->]]|(T & r & rs' & -> & -> & Hs & Hr)]).
  - split; [done|]. cbn [fst]. rewrite frame_log_request.
    by destruct (same_frame_parts p P HP) as (-> & -> & -> & -> & ->).
  - split; [by apply settles_drive|].
    pose proof (drive_respects same_frame T Hr (log_request rq P) rs') as Hf.
    unfold same_frame in Hf. rewrite Hf, frame_log_request.
    by destruct (same_frame_parts p P HP) as (-> & -> & -> & -> & ->).
Qed.

Lemma settles_innerHTML_paragraph r cls inner k :
  settles k → settles (innerHTML_paragraph r cls inner k).
Proof.
  intros Hk. unfold innerHTML_paragraph, Alloc.
  apply st_Write, st_Read. intros p. cbv zeta. apply st_Write, st_Write, Hk.
Qed.

Lemma settles_showCustomMessage message k :
  settles k → settles (showCustomMessage K message k).
Proof. intros Hk. unfold showCustomMessage. repeat apply st_Write. exact Hk. Qed.

Lemma drive_innerHTML_paragraph r cls inner k p rs :
  ∃ P, frame P = frame p ∧ drive (innerHTML_paragraph r cls inner k) p rs = drive k P rs.
Proof.
  unfold innerHTML_paragraph, Alloc.
  rewrite drive_Write, drive_Read. cbv zeta. rewrite !drive_Write.
  eexists. split; [|reflexivity].
  rewrite frame_attach, frame_upd_elems. apply frame_set_innerHTML.
Qed.

#[local] Ltac document_only :=
  repeat first
    [ apply respects_innerHTML_paragraph; [exact same_frame_of_frame|]
    | apply respects_forEach_createCard; [exact same_frame_of_frame|]
    | apply respects_showCustomMessage; [exact same_frame_of_frame|]
    | respects_step_with same_frame_of_frame I I ].

Lemma fetchAndDisplayCountries_one_fetch endpoint :
  one_fetch_then_document (mkRequest "GET" (API_URL +:+ endpoint))
    (fetchAndDisplayCountries K endpoint).
Proof.
  intros p rs. unfold fetchAndDisplayCountries.
  destruct (drive_innerHTML_paragraph (countriesGrid K) "loading-text"
              "Cargando países..."
              (try_catch
                 (await_fetch (API_URL +:+ endpoint) (λ response,
                    if negb (resp_ok response) then
                      Throw (mkError "Error" "No se encontraron países con ese criterio.")
                    else
                      await_json response (λ countries,
                        Write (set_innerHTML (countriesGrid K) "") $
                        forEach_createCard countries (countriesGrid K) "browse" Ret)))
                 (λ error,
                    innerHTML_paragraph (countriesGrid K) "error-text"
                      (err_message error) Ret)) p rs) as (P & HP & ->).
  exists P. split; [exact HP|].
  unfold await_fetch. rewrite try_catch_Fetch.
  destruct rs as [|r rs'].
  - left. split; [done|]. eexists. reflexivity.
  - right. rewrite drive_Fetch. eexists _, r, rs'.
    split; [done|]. split; [reflexivity|]. cbv beta. split.
    + apply settles_try_catch. intros e.
      apply settles_innerHTML_paragraph, st_Ret.
    + unfold await_json. document_only.
Qed.

Lemma displaySavedCountries_one_fetch :
  one_fetch_then_document (mkRequest "GET" (API_URL +:+ "/saved-countries"))
    (displaySavedCountries K).
Proof.
  intros p rs. unfold displaySavedCountries.
  destruct (drive_innerHTML_paragraph (savedCountriesGrid K) "loading-text"
              "Cargando países guardados..."
              (try_catch
                 (await_fetch (API_URL +:+ "/saved-countries") (λ response,
                    if negb (resp_ok response) then
                      Throw (mkError "Error" "No se pudo conectar a la base de datos.")
                    else
                      await_json response (λ countries,
                        Write (set_innerHTML (savedCountriesGrid K) "") $
                        let! empty := length_is_zero countries in
                        if empty then
                          innerHTML_paragraph (savedCountriesGrid K) "placeholder-text"
                            "No has guardado ningún país todavía." Ret
                        else
                          forEach_createCard countries (savedCountriesGrid K) "local" Ret)))
                 (λ error,
                    innerHTML_paragraph (savedCountriesGrid K) "error-text"
                      (err_message error) $
                    showCustomMessage K
                      ("⚠️ Error al cargar países guardados: " +:+ err_message error)
                      Ret)) p rs) as (P & HP & ->).
  exists P. split; [exact HP|].
  unfold await_fetch. rewrite try_catch_Fetch.
  destruct rs as [|r rs'].
  - left. split; [done|]. eexists. reflexivity.
  - right. rewrite drive_Fetch. eexists _, r, rs'.
    split; [done|]. split; [reflexivity|]. cbv beta. split.
    + apply settles_try_catch. intros e.
      apply settles_innerHTML_paragraph, settles_showCustomMessage, st_Ret.
    + unfold await_json. document_only.
Qed.

(** X1 (fetchAndDisplayCountries, lines 151-162): whatever the server
    answers, if it answers at all, the promise of
    [fetchAndDisplayCountries(endpoint)] is never rejected; the call sends
    the single request [GET API_URL + endpoint]; and it leaves the timers,
    [weatherUpdateIntervalId], [currentCountryCodeInModal] and the console
    as they were: every failure ends in the grid, none in the console. *)
Theorem fetchAndDisplayCountries_contained endpoint p rs :
  (∀ e, (drive (fetchAndDisplayCountries K endpoint) p rs).1.2 ≠ Rejected e)
  ∧ frame (drive (fetchAndDisplayCountries K endpoint) p rs).1.1.1
    = (timers p, weatherUpdateIntervalId p, currentCountryCodeInModal p,
       requests p ++ [mkRequest "GET" (API_URL +:+ endpoint)], console p).
Proof.
  apply one_fetch_then_document_spec, fetchAndDisplayCountries_one_fetch.
Qed.

(** X2 (displaySavedCountries, lines 341-362): the promise of
    [displaySavedCountries()] is never rejected; the call sends the single
    request [GET API_URL + '/saved-countries']; and it leaves the timers,
    the two closure variables and the console as they were. *)
Theorem displaySavedCountries_contained p rs :
  (∀ e, (drive (displaySavedCountries K) p rs).1.2 ≠ Rejected e)
  ∧ frame (drive (displaySavedCountries K) p rs).1.1.1
    = (timers p, weatherUpdateIntervalId p, currentCountryCodeInModal p,
       requests p ++ [mkRequest "GET" (API_URL +:+ "/saved-countries")], console p).
Proof.
  apply one_fetch_then_document_spec, displaySavedCountries_one_fetch.
Qed.

End ListingFacts.

(** ** Requests in order *)

Section SendsFacts.
Context {Num : Type} `{!Engine Num}.
Implicit Types (p q : Page Num) (t k fin : Task Num) (h : JsError → Task Num)
  (l : list Request).

Lemma sends_within_app_l l1 l t : sends_within l t → sends_within (l1 ++ l) t.
Proof. intros Ht. induction l1 as [|rq l1 IH]; [exact Ht|]. by apply sw_skip. Qed.

Lemma sends_within_app_r l l2 t : sends_within l t → sends_within (l ++ l2) t.
Proof.
  induction 1; cbn [app]; try (constructor; auto).
Qed.

Lemma sends_within_seq l1 l2 t k :
  sends_within l1 t → sends_within l2 k → sends_within (l1 ++ l2) (seq t k).
Proof.
  intros Ht Hk. induction Ht; cbn [seq app]; try (constructor; auto).
  - by apply sends_within_app_l.
Qed.

Lemma sends_within_try_catch l1 l2 t h :
  sends_within l1 t → (∀ e, sends_within l2 (h e)) →
  sends_within (l1 ++ l2) (try_catch t h).
Proof.
  intros Ht Hh. induction Ht; cbn [try_catch app]; try (constructor; auto).
  - by apply sends_within_app_l.
Qed.

Lemma sends_within_try_finally l1 l2 t fin :
  sends_within l1 t → sends_within l2 fin →
  sends_within (l1 ++ l2) (try_finally t fin).
Proof.
  intros Ht Hf. induction Ht; cbn [try_finally app]; try (constructor; auto).
  - by apply sends_within_app_l.
  - apply sends_within_app_l.
    rewrite <- (app_nil_r l2). apply sends_within_seq; [exact Hf|constructor].
Qed.

Lemma sends_within_drive l t :
  sends_within l t →
  ∀ p rs, ∃ sent, sublist sent l
                  ∧ requests (drive t p rs).1.1.1 = requests p ++ sent.
Proof.
  induction 1 as [l|l e|l k _ IH|l f k Hf _ IH|rq l k _ IH|l k _ IH|rq l t _ IH];
    intros p rs; cbn [drive].
  - exists []. split; [apply sublist_nil_l|by rewrite app_nil_r].
  - exists []. split; [apply sublist_nil_l|by rewrite app_nil_r].
  - apply IH.
  - destruct (IH (f p) rs) as (sent & Hs & ->). exists sent. by rewrite Hf.
  - destruct rs as [|r rs].
    + exists [rq]. split; [apply sublist_skip, sublist_nil_l|done].
    + destruct (IH r (log_request rq p) rs) as (sent & Hs & ->).
      exists (rq :: sent). split; [by apply sublist_skip|].
      cbn. by rewrite <- app_assoc.
  - apply IH.
  - destruct (IH p rs) as (sent & Hs & ->). exists sent.
    split; [by apply sublist_cons|done].
Qed.

End SendsFacts.

(** ** openModal: its failures and its requests *)

Section OpenModalFacts.
Context {Num : Type} `{!Engine Num} (K : Consts).
#[local] Abbreviation Val := (JsVal Num).
Implicit Types (p q : Page Num) (t k : Task Num) (h : JsError → Task Num).

Lemma settles_clear_weather_interval k :
  settles k → settles (clear_weather_interval k).
Proof.
  intros Hk. unfold clear_weather_interval. apply st_Read. intros p.
  destruct (weatherUpdateIntervalId p); [apply st_Write, st_Write, Hk|exact Hk].
Qed.

(** X4 (openModal, lines 181-183 and 195-245): without an element
    [#modal-body] the call throws at line 183 before it has changed
    anything or sent a request; with it, whatever the replies, the
    promise of openModal is never rejected: each failure of the [try]
    block is caught at line 242. *)
Theorem openModal_rejects_only_without_body countryCode isFromSavedView p rs :
  match getElementById p "modal-body" with
  | Some _ =>
      ∀ e, (drive (openModal K countryCode isFromSavedView) p rs).1.2 ≠ Rejected e
  | None =>
      drive (openModal K countryCode isFromSavedView) p rs
      = (p, [], Rejected (typeError (nullish_access_message JNull "innerHTML")), rs)
  end.
Proof.
  unfold openModal. rewrite drive_Read.
  destruct (getElementById p "modal-body") as [modalBody|]; [|reflexivity].
  apply settles_drive, settles_innerHTML_paragraph,
    settles_clear_weather_interval, st_Write.
  destruct isFromSavedView; repeat apply st_Write.
  all: apply settles_try_catch; intros e; unfold openModal_catch.
  all: apply settles_innerHTML_paragraph, (settles_showCustomMessage K), st_Ret.
Qed.

Lemma frame_requests p q : frame q = frame p → requests q = requests p.
Proof. intros Hf. by destruct (same_frame_parts p q Hf) as (_ & _ & _ & -> & _). Qed.

#[local] Ltac sends_step :=
  lazymatch goal with
  | |- sends_within _ Ret => apply sw_Ret
  | |- sends_within _ (Throw _) => apply sw_Throw
  | |- sends_within _ (Read _) => apply sw_Read; intros ?
  | |- sends_within _ (Write _ _) =>
      apply sw_Write;
      [intros ?; first [apply frame_requests; solve [auto with frame]|reflexivity]|]
  | |- sends_within _ (Yield _) => apply sw_Yield
  | |- sends_within (?rq :: _) (Fetch ?rq _) => apply sw_Fetch; intros ?
  | |- sends_within _ (lift ?x _) => destruct x; cbn [lift]
  | |- sends_within _ (match ?x with _ => _ end) => destruct x
  | |- sends_within _ ((if ?b then _ else _) _) => destruct b
  | |- sends_within _ ((match ?x with _ => _ end) _) => destruct x
  end; cbv beta.

Lemma sends_within_innerHTML_paragraph l r cls inner k :
  sends_within l k → sends_within l (innerHTML_paragraph r cls inner k).
Proof.
  intros Hk. unfold innerHTML_paragraph, Alloc. repeat sends_step. exact Hk.
Qed.

Lemma sends_within_showCustomMessage l message k :
  sends_within l k → sends_within l (showCustomMessage K message k).
Proof. intros Hk. unfold showCustomMessage. repeat sends_step. exact Hk. Qed.

Lemma sends_within_fetchWeatherForCountry (cca3 : Val) force :
  sends_within [weather_request cca3] (fetchWeatherForCountry cca3 force).
Proof.
  unfold fetchWeatherForCountry. apply sw_Read. intros p.
  repeat lazymatch goal with
  | |- sends_within _ (match ?x with _ => _ end) => destruct x
  end; try apply sw_Ret.
  repeat sends_step.
  change [weather_request cca3] with ([weather_request cca3] ++ []).
  apply sends_within_try_finally.
  - change [weather_request cca3] with ([weather_request cca3] ++ []).
    apply sends_within_try_catch.
    + unfold weather_try, await_fetch, weather_request.
      apply sw_Fetch. intros r. unfold on_weather_response, await_json.
      repeat sends_step.
    + intros e. unfold weather_catch. repeat sends_step.
  - unfold weather_finally. repeat sends_step.
Qed.

Lemma sends_within_openModal (countryCode : Val) isFromSavedView :
  sends_within
    [mkRequest "GET" (API_URL +:+ "/country/" +:+ toStr countryCode);
     weather_request countryCode]
    (openModal K countryCode isFromSavedView).
Proof.
  unfold openModal. apply sw_Read. intros p.
  destruct (getElementById p "modal-body") as [modalBody|]; [|apply sw_Throw].
  apply sends_within_innerHTML_paragraph.
  unfold clear_weather_interval. repeat sends_step.
  all: match goal with
       | |- sends_within ?l _ =>
           change l with (l ++ []); apply sends_within_try_catch
       end.
  all: try (intros e; unfold openModal_catch;
            apply sends_within_innerHTML_paragraph,
                  sends_within_showCustomMessage, sw_Ret).
  all: unfold openModal_try, await_fetch; apply sw_Fetch; intros r;
       unfold await_json, mount_weather_info, Alloc; repeat sends_step.
  all: match goal with
       | |- sends_within ?l _ =>
           change l with (l ++ []); apply sends_within_seq;
           [apply sends_within_fetchWeatherForCountry|repeat sends_step]
       end.
Qed.

(** X5 (openModal, lines 197 and 240, with line 266): one call of
    openModal puts at most two requests on the wire, whatever the
    replies: [GET /country/<code>] and after it [GET /weather/<code>]
    for the same code, each at most once, and no other. *)
Theorem openModal_requests (countryCode : Val) isFromSavedView p rs :
  ∃ sent,
    sublist sent [mkRequest "GET" (API_URL +:+ "/country/" +:+ toStr countryCode);
                  weather_request countryCode]
    ∧ requests (drive (openModal K countryCode isFromSavedView) p rs).1.1.1
      = requests p ++ sent.
Proof. apply sends_within_drive, sends_within_openModal. Qed.

Lemma drive_openModal_head countryCode isFromSavedView modalBody p rs :
  getElementById p "modal-body" = Some modalBody →
  ∃ P, frame P = (without_weather_interval p, None, Some countryCode,
                  requests p, console p)
       ∧ drive (openModal K countryCode isFromSavedView) p rs
         = drive (try_catch (openModal_try K countryCode isFromSavedView modalBody)
                            (openModal_catch K modalBody)) P rs.
Proof.
  intros Hbody. unfold openModal. rewrite drive_Read, Hbody.
  match goal with
  | |- context [drive (innerHTML_paragraph ?r ?c ?i ?k) ?p ?rs] =>
      destruct (drive_innerHTML_paragraph r c i k p rs) as (P & HP & ->)
  end.
  destruct (same_frame_parts p P HP) as (Ht & Hw & Hc & Hr & Hl).
  unfold clear_weather_interval, without_weather_interval.
  rewrite drive_Read, Hw.
  destruct (weatherUpdateIntervalId p) as [h|], isFromSavedView;
    rewrite !drive_Write; (eexists; split; [|reflexivity]);
    rewrite ?frame_classList_remove, ?frame_classList_add, ?frame_modify,
      ?frame_classList_remove, ?frame_classList_add;
    unfold frame; cbn; by rewrite ?Hw, Ht, Hr, Hl.
Qed.

Lemma drive_openModal_try_fails (countryCode : Val) isFromSavedView modalBody h
    reply error q rs :
  openModal_error reply = Some error →
  drive (try_catch (openModal_try K countryCode isFromSavedView modalBody) h)
        q (reply :: rs)
  = drive (h error)
          (log_request
             (mkRequest "GET" (API_URL +:+ "/country/" +:+ toStr countryCode)) q)
          rs.
Proof.
  intros Herr. unfold openModal_try, await_fetch.
  rewrite try_catch_Fetch, drive_Fetch.
  destruct reply as [e|response]; cbn [openModal_error] in Herr.
  - injection Herr as ->. by rewrite try_catch_Throw.
  - destruct (negb (resp_ok response)).
    + injection Herr as <-. by rewrite try_catch_Throw.
    + unfold await_json. rewrite try_catch_Yield, drive_Yield.
      destruct (body response) as [country|msg].
      * destruct (country_details country) as [markup|e]; [discriminate|].
        injection Herr as ->. by rewrite lift_Raise, try_catch_Throw.
      * injection Herr as <-. by rewrite try_catch_Throw.
Qed.

Lemma drive_openModal_catch modalBody error q rs :
  ∃ q', drive (openModal_catch K modalBody error) q rs = (q', [], Completed, rs)
        ∧ frame q' = frame q
        ∧ focused q' = Some (customMessageConfirmBtn K).
Proof.
  unfold openModal_catch.
  match goal with
  | |- context [drive (innerHTML_paragraph ?r ?c ?i ?k) ?p ?rs] =>
      destruct (drive_innerHTML_paragraph r c i k p rs) as (P & HP & ->)
  end.
  unfold showCustomMessage. rewrite !drive_Write, drive_Ret.
  eexists. split; [reflexivity|]. split; [|reflexivity].
  rewrite frame_modify, frame_set_focused, frame_classList_remove,
    frame_classList_add, frame_classList_remove, frame_set_innerHTML.
  exact HP.
Qed.


End OpenModalFacts.

(** ** switchView *)

Section SwitchViewFacts.
Context {Num : Type} `{!Engine Num} (K : Consts).
#[local] Abbreviation Val := (JsVal Num).
Implicit Types (p q : Page Num) (t k : Task Num).

Lemma run_Write f k p : run (Write f k) p = run k (f p).
Proof. reflexivity. Qed.
Lemma run_Read (k : Page Num → Task Num) p : run (Read k) p = run (k p) p.
Proof. reflexivity. Qed.
Lemma run_Spawn t k p q bs o :
  run t p = (q, bs, o) →
  run (Spawn t k) p
  = let '(p2, bs2, o2) := run k q in (p2, bs ++ parked o ++ bs2, o2).
Proof. intros Ht. cbn [run]. by rewrite Ht. Qed.

Lemma run_innerHTML_paragraph r cls inner k p :
  ∃ P, frame P = frame p ∧ run (innerHTML_paragraph r cls inner k) p = run k P.
Proof.
  unfold innerHTML_paragraph, Alloc.
  rewrite run_Write, run_Read. cbv zeta. rewrite !run_Write.
  eexists. split; [|reflexivity].
  rewrite frame_attach, frame_upd_elems. apply frame_set_innerHTML.
Qed.

Lemma run_fetchAndDisplayCountries endpoint p :
  ∃ P c, frame P = frame p
         ∧ run (fetchAndDisplayCountries K endpoint) p
           = (log_request (mkRequest "GET" (API_URL +:+ endpoint)) P, [],
              Suspended (OnFetch (mkRequest "GET" (API_URL +:+ endpoint)) c)).
Proof.
  unfold fetchAndDisplayCountries.
  match goal with
  | |- context [run (innerHTML_paragraph ?r ?c ?i ?k) ?p] =>
      destruct (run_innerHTML_paragraph r c i k p) as (P & HP & ->)
  end.
  exists P. eexists. split; [exact HP|]. reflexivity.
Qed.

Lemma run_displaySavedCountries p :
  ∃ P c, frame P = frame p
         ∧ run (displaySavedCountries K) p
           = (log_request (mkRequest "GET" (API_URL +:+ "/saved-countries")) P, [],
              Suspended (OnFetch (mkRequest "GET" (API_URL +:+ "/saved-countries")) c)).
Proof.
  unfold displaySavedCountries.
  match goal with
  | |- context [run (innerHTML_paragraph ?r ?c ?i ?k) ?p] =>
      destruct (run_innerHTML_paragraph r c i k p) as (P & HP & ->)
  end.
  exists P. eexists. split; [exact HP|]. reflexivity.
Qed.

Lemma run_clear_and_reset p :
  ∃ p', run (clear_weather_interval
               (Write (set_currentCountryCodeInModal None) Ret)) p
        = (p', [], Completed)
        ∧ frame p' = (without_weather_interval p, None, None, requests p, console p).
Proof.
  unfold clear_weather_interval, without_weather_interval.
  rewrite run_Read.
  destruct (weatherUpdateIntervalId p) as [h|] eqn:Hw;
    rewrite !run_Write; (eexists; split; [reflexivity|]);
    unfold frame; cbn; by rewrite ?Hw.
Qed.

Lemma childElementCount_modify r (f : Element Num → Element Num) p x :
  (∀ e, descendants (f e) = descendants e) →
  childElementCount (modify r f p) x = childElementCount p x.
Proof.
  intros Hf. unfold childElementCount, modify. cbn.
  destruct (decide (r = x)) as [->|Hne].
  - rewrite lookup_alter_eq. destruct (elems p !! x); [cbn; by rewrite Hf|done].
  - by rewrite lookup_alter_ne.
Qed.

Lemma childElementCount_classList_toggle r c b p x :
  childElementCount (classList_toggle r c b p) x = childElementCount p x.
Proof. destruct b; by apply childElementCount_modify. Qed.

Lemma childElementCount_foldl {A} (g : Page Num → A → Page Num) (l : list A) x :
  (∀ q a, childElementCount (g q a) x = childElementCount q x) →
  ∀ p, childElementCount (foldl g p l) x = childElementCount p x.
Proof.
  intros Hg. induction l as [|a l IH]; intros p; [done|].
  simpl. by rewrite IH, Hg.
Qed.

Lemma run_maybe_Spawn (b : bool) t q rq :
  (∃ P bs o, frame P = frame q ∧ run t q = (log_request rq P, bs, o)) →
  ∃ q2 bs1,
    frame q2 = (timers q, weatherUpdateIntervalId q, currentCountryCodeInModal q,
                requests q ++ (if b then [rq] else []), console q)
    ∧ ∀ k, run ((if b then Spawn t else λ k, k) k) q
           = let '(p2, bs2, o2) := run k q2 in (p2, bs1 ++ bs2, o2).
Proof.
  intros (P & bs & o & HP & Hrun). destruct b.
  - exists (log_request rq P), (bs ++ parked o). split.
    + rewrite frame_log_request.
      by destruct (same_frame_parts q P HP) as (-> & -> & -> & -> & ->).
    + intros k. rewrite (run_Spawn _ _ _ _ _ _ Hrun).
      destruct (run k (log_request rq P)) as [[p2 bs2] o2].
      by rewrite <- app_assoc.
  - exists q, []. split; [unfold frame; by rewrite app_nil_r|].
    intros k. by destruct (run k q) as [[p2 bs2] o2].
Qed.

Lemma run_switchView viewName p :
  ∃ p' bs,
    run (switchView K viewName) p = (p', bs, Completed)
    ∧ frame p'
      = (without_weather_interval p, None, None,
         requests p
           ++ (if bool_decide (viewName = Some "browse")
                  && (childElementCount p (countriesGrid K) =? 0)%nat
               then [mkRequest "GET" (API_URL +:+ "/countries/all")] else [])
           ++ (if bool_decide (viewName = Some "local")
               then [mkRequest "GET" (API_URL +:+ "/saved-countries")] else []),
         console p).
Proof.
  unfold switchView. rewrite run_Write, run_Read.
  match goal with
  | |- context [run (?a $ Write ?f ?k) ?q] =>
      assert (∃ q', frame q' = frame p
                    ∧ childElementCount q' (countriesGrid K)
                      = childElementCount p (countriesGrid K)
                    ∧ run (a $ Write f k) q = run k q') as (q' & Hf & Hc & ->)
  end.
  { destruct (getElementById _ _) as [activeView|];
      rewrite !run_Write; (eexists; split; [|split; [|reflexivity]]).
    - rewrite frame_foldl by (intros; apply frame_classList_toggle).
      rewrite frame_classList_remove.
      by rewrite frame_foldl by (intros; apply frame_classList_add).
    - rewrite childElementCount_foldl
        by (intros; apply childElementCount_classList_toggle).
      unfold classList_remove. rewrite childElementCount_modify by done.
      by rewrite childElementCount_foldl
        by (intros; by apply childElementCount_modify).
    - rewrite frame_foldl by (intros; apply frame_classList_toggle).
      by rewrite frame_foldl by (intros; apply frame_classList_add).
    - rewrite childElementCount_foldl
        by (intros; apply childElementCount_classList_toggle).
      by rewrite childElementCount_foldl
        by (intros; by apply childElementCount_modify). }
  rewrite run_Read, Hc.
  destruct (run_maybe_Spawn
              (bool_decide (viewName = Some "browse")
               && (childElementCount p (countriesGrid K) =? 0)%nat)
              (fetchCountriesByRegion K "all") q'
              (mkRequest "GET" (API_URL +:+ "/countries/all")))
    as (q2 & bs1 & Hq2 & ->).
  { destruct (run_fetchAndDisplayCountries "/countries/all" q')
      as (P1 & c1 & HP1 & Hrun1).
    exists P1. do 2 eexists. split; [exact HP1|].
    unfold fetchCountriesByRegion. cbn [String.eqb Ascii.eqb Bool.eqb].
    rewrite (run_Spawn _ Ret _ _ _ _ Hrun1). reflexivity. }
  destruct (run_maybe_Spawn (bool_decide (viewName = Some "local"))
              (displaySavedCountries K) q2
              (mkRequest "GET" (API_URL +:+ "/saved-countries")))
    as (q3 & bs2 & Hq3 & ->).
  { destruct (run_displaySavedCountries q2) as (P2 & c2 & HP2 & Hrun2).
    exists P2. do 2 eexists. split; [exact HP2|exact Hrun2]. }
  destruct (run_clear_and_reset q3) as (p' & -> & Hp').
  exists p'. eexists. split; [reflexivity|].
  rewrite Hp'. unfold without_weather_interval.
  injection Hq3 as -> -> _ -> ->. injection Hq2 as -> -> _ -> ->.
  destruct (same_frame_parts p q' Hf) as (-> & -> & _ & -> & ->).
  by rewrite <- app_assoc.
Qed.

(** X7 (switchView, lines 84-103, with lines 138-141, 151-153 and
    341-344): switchView returns without throwing; it asks for the full
    list exactly when the view is ['browse'] and the grid has no child
    element at the call, and for the saved list exactly when the view is
    ['local'], and sends nothing else; it cancels the recorded interval
    and resets both closure variables; the console is untouched. *)
Theorem switchView_effects viewName p :
  ∃ p' bs,
    run (switchView K viewName) p = (p', bs, Completed)
    ∧ frame p'
      = (without_weather_interval p, None, None,
         requests p
           ++ (if bool_decide (viewName = Some "browse")
                  && (childElementCount p (countriesGrid K) =? 0)%nat
               then [mkRequest "GET" (API_URL +:+ "/countries/all")] else [])
           ++ (if bool_decide (viewName = Some "local")
               then [mkRequest "GET" (API_URL +:+ "/saved-countries")] else []),
         console p).
Proof. apply run_switchView. Qed.

End SwitchViewFacts.

(** ** What the grids hold *)

Section GridFacts.
Context {Num : Type} `{!Engine Num} (K : Consts).
#[local] Abbreviation Val := (JsVal Num).
Implicit Types (p q : Page Num) (t k : Task Num) (h : JsError → Task Num).

Lemma elems_attach_one a r p :
  elems (attach [a] None r p)
  = alter (set_descendants (λ ds, ds ++ [r])) a (elems p).
Proof. reflexivity. Qed.

Lemma fresh_elems_ne p r (e : Element Num) :
  elems p !! r = Some e → fresh (dom (elems p)) ≠ r.
Proof.
  intros Hr Heq. apply (is_fresh (dom (elems p))). rewrite Heq.
  apply elem_of_dom. eauto.
Qed.

(** Where [r.innerHTML = '<p class="cls">inner</p>'] leaves a live [r]:
    with that markup and the one paragraph below it. *)
Lemma drive_innerHTML_paragraph_live r cls inner k p rs g :
  elems p !! r = Some g →
  ∃ P para g',
    drive (innerHTML_paragraph r cls inner k) p rs = drive k P rs
    ∧ frame P = frame p
    ∧ elems P !! r = Some g'
    ∧ content g'
      = Html ("<p class=" +:+ dq +:+ cls +:+ dq +:+ ">" +:+ inner +:+ "</p>")
    ∧ descendants g' = [para]
    ∧ elems P !! para = Some (element {[cls]} (Html inner)).
Proof.
  intros Hr. unfold innerHTML_paragraph, Alloc.
  rewrite drive_Write, drive_Read. cbv zeta. rewrite !drive_Write.
  set (p1 := set_innerHTML r _ p). set (para := fresh (dom (elems p1))).
  assert (elems p1 !! r
          = Some (set_content
                    (Html ("<p class=" +:+ dq +:+ cls +:+ dq +:+ ">" +:+ inner +:+ "</p>"))
                    (set_descendants (λ _, []) g))) as Hp1.
  { unfold p1. by rewrite elems_set_innerHTML, !lookup_alter_eq, Hr. }
  assert (para ≠ r) as Hne by exact (fresh_elems_ne p1 r _ Hp1).
  eexists _, para, _. split; [reflexivity|]. split.
  { rewrite frame_attach, frame_upd_elems. apply frame_set_innerHTML. }
  rewrite elems_attach_one. cbn [elems upd_elems].
  rewrite lookup_alter_eq, lookup_insert_ne, Hp1 by done.
  split; [reflexivity|]. split; [reflexivity|]. split; [reflexivity|].
  by rewrite lookup_alter_ne, lookup_insert_eq by done.
Qed.

Lemma try_catch_innerHTML_paragraph r cls inner k h :
  try_catch (innerHTML_paragraph r cls inner k) h
  = innerHTML_paragraph r cls inner (try_catch k h).
Proof. reflexivity. Qed.

Lemma drive_try_catch_paragraph r cls inner k h p rs g :
  elems p !! r = Some g →
  ∃ P para g',
    drive (try_catch (innerHTML_paragraph r cls inner k) h) p rs
    = drive (try_catch k h) P rs
    ∧ frame P = frame p
    ∧ elems P !! r = Some g'
    ∧ content g'
      = Html ("<p class=" +:+ dq +:+ cls +:+ dq +:+ ">" +:+ inner +:+ "</p>")
    ∧ descendants g' = [para]
    ∧ elems P !! para = Some (element {[cls]} (Html inner)).
Proof.
  intros Hr. rewrite try_catch_innerHTML_paragraph.
  exact (drive_innerHTML_paragraph_live r cls inner (try_catch k h) p rs g Hr).
Qed.

Lemma children_of_paragraph p r g para (e : Element Num) :
  elems p !! r = Some g → descendants g = [para] → elems p !! para = Some e →
  children_of p r = [e].
Proof. intros Hr Hd Hp. unfold children_of. rewrite Hr, Hd. cbn. by rewrite Hp. Qed.

Lemma children_of_cards source p r ds :
  holds_cards source p r ds → children_of p r = card_element source <$> ds.
Proof.
  intros (g & Hg & Hall). unfold children_of. rewrite Hg.
  induction Hall as [|c d cs ds' Hc _ IH]; [done|].
  cbn. by rewrite Hc, IH.
Qed.

(** One call of createCard inside a [try]: either the card is there, as
    the last element below the container, or the exception is caught
    with the container as it was. *)
Lemma drive_createCard country container source k h q rs g :
  elems q !! container = Some g →
  ∃ q',
    frame q' = frame q
    ∧ match card_data country with
      | Ok d =>
          drive (try_catch (createCard country container source k) h) q rs
          = drive (try_catch k h) q' rs
          ∧ elems q'
            = <[container := set_descendants
                               (λ ds, ds ++ [fresh (dom (elems q))]) g]>
                (<[fresh (dom (elems q)) := card_element source d]> (elems q))
      | Raise e =>
          drive (try_catch (createCard country container source k) h) q rs
          = drive (h e) q' rs
          ∧ elems q' !! container = Some g
      end.
Proof.
  intros Hg. pose proof (fresh_elems_ne q container g Hg) as Hne.
  unfold createCard, Alloc, card_data.
  rewrite try_catch_Read, drive_Read. cbv zeta.
  rewrite try_catch_Write, drive_Write.
  set (card := fresh (dom (elems q))) in *.
  assert (Hfirst : ∀ e,
    ∃ q', frame q' = frame q
          ∧ drive (try_catch (Throw e) h)
                  (upd_elems <[card := element {["card"]} (Html "")]> q) rs
            = drive (h e) q' rs
          ∧ elems q' !! container = Some g).
  { intros e. rewrite try_catch_Throw. eexists. split; [|split; [reflexivity|]].
    - apply frame_upd_elems.
    - cbn [elems upd_elems]. by rewrite lookup_insert_ne. }
  destruct (prop country "flags") as [flags|e];
    cbn [mbind Exn_bind lift]; [|exact (Hfirst e)].
  destruct (if truthy flags then prop flags "png" else prop country "flag_url")
    as [flagUrl|e]; cbn [mbind Exn_bind lift]; [|exact (Hfirst e)].
  destruct (prop country "name") as [name|e];
    cbn [mbind Exn_bind lift]; [|exact (Hfirst e)].
  destruct (prop name "common") as [common|e];
    cbn [mbind Exn_bind lift]; [|exact (Hfirst e)].
  destruct (ToString flagUrl) as [flagText|e];
    cbn [mbind Exn_bind lift]; [|exact (Hfirst e)].
  destruct (ToString (if truthy common then common else name)) as [nameText|e];
    cbn [mbind Exn_bind lift]; [|exact (Hfirst e)].
  clear Hfirst. rewrite try_catch_Write, drive_Write.
  destruct (prop country "cca3") as [cca3|e]; cbn [mbind Exn_bind lift].
  - rewrite !try_catch_Write, !drive_Write.
    eexists. split; [|split; [reflexivity|]].
    + rewrite frame_attach, frame_modify, frame_set_innerHTML.
      apply frame_upd_elems.
    + rewrite elems_attach_one, elems_modify, elems_set_innerHTML.
      cbn [elems upd_elems]. apply map_eq. intros j.
      destruct (decide (j = container)) as [->|Hjc].
      * rewrite lookup_alter_eq, lookup_insert_eq, !lookup_alter_ne,
          lookup_insert_ne, Hg by done. done.
      * rewrite lookup_alter_ne, (lookup_insert_ne _ container) by done.
        destruct (decide (j = card)) as [->|Hjr].
        -- by rewrite !lookup_alter_eq, !lookup_insert_eq.
        -- by rewrite !lookup_alter_ne, !lookup_insert_ne by done.
  - rewrite try_catch_Throw. eexists. split; [|split; [reflexivity|]].
    + rewrite frame_set_innerHTML. apply frame_upd_elems.
    + rewrite elems_set_innerHTML. cbn [elems upd_elems].
      by rewrite !lookup_alter_ne, lookup_insert_ne by done.
Qed.

(** The loop of line 158 (and 353) inside its [try]: either every
    country has its card below the container, after those that were
    there, or the exception of the first malformed one is caught, with
    the container still a live element. *)
Lemma drive_forEach_createCard container source k h items :
  ∀ q ds0 rs,
    holds_cards source q container ds0 →
    ∃ q',
      frame q' = frame q
      ∧ match cards_data items with
        | Ok ds =>
            drive (try_catch
                     (foldr (λ country, createCard country container source) k items)
                     h) q rs
            = drive (try_catch k h) q' rs
            ∧ holds_cards source q' container (ds0 ++ ds)
        | Raise e =>
            drive (try_catch
                     (foldr (λ country, createCard country container source) k items)
                     h) q rs
            = drive (h e) q' rs
            ∧ is_Some (elems q' !! container)
        end.
Proof.
  induction items as [|country items IH]; intros q ds0 rs Hq.
  { exists q. split; [done|]. cbn. split; [done|]. by rewrite app_nil_r. }
  destruct Hq as (g & Hg & Hall). cbn [foldr cards_data].
  destruct (drive_createCard country container source
              (foldr (λ country, createCard country container source) k items)
              h q rs g Hg) as (q1 & Hf1 & Hstep).
  destruct (card_data country) as [d|e]; cbn [mbind Exn_bind].
  - destruct Hstep as [-> Helems].
    destruct (IH q1 (ds0 ++ [d]) rs) as (q' & Hf' & Hrest).
    { eexists. split; [rewrite Helems; apply lookup_insert_eq|].
      cbn [descendants set_descendants]. apply Forall2_app.
      - apply Forall2_same_length_lookup.
        split; [by eapply Forall2_length|]. intros i c d' Hi Hd'.
        pose proof (proj2 (proj1 (Forall2_same_length_lookup _ _ _) Hall)
                      i c d' Hi Hd') as Hc.
        cbn beta in Hc. rewrite Helems.
        assert (c ≠ container) as Hcc.
        { intros ->. rewrite Hg in Hc. injection Hc as ->. discriminate Hi. }
        rewrite lookup_insert_ne by done.
        rewrite lookup_insert_ne; [exact Hc|].
        intros Heq. by apply (fresh_elems_ne q c _ Hc).
      - constructor; [|constructor]. rewrite Helems.
        rewrite lookup_insert_ne by (intros Heq; by apply (fresh_elems_ne q container g Hg)).
        apply lookup_insert_eq. }
    exists q'. split; [by rewrite Hf', Hf1|].
    destruct (cards_data items) as [ds|e]; cbn [mbind Exn_bind].
    + destruct Hrest as [-> Hcards]. split; [done|].
      by rewrite <- app_assoc in Hcards.
    + exact Hrest.
  - destruct Hstep as [-> Hlive]. exists q1. split; [exact Hf1|].
    split; [done|]. by rewrite Hlive.
Qed.


Lemma drive_listing_try_fails endpoint h reply error q rs g :
  elems q !! countriesGrid K = Some g →
  listing_error reply = Some error →
  ∃ q',
    drive (try_catch
             (await_fetch (API_URL +:+ endpoint) (λ response,
                if negb (resp_ok response) then
                  Throw (mkError "Error" "No se encontraron países con ese criterio.")
                else
                  await_json response (λ countries,
                    Write (set_innerHTML (countriesGrid K) "") $
                    forEach_createCard countries (countriesGrid K) "browse" Ret)))
             h) q (reply :: rs)
    = drive (h error) q' rs
    ∧ frame q' = frame (log_request (mkRequest "GET" (API_URL +:+ endpoint)) q)
    ∧ is_Some (elems q' !! countriesGrid K).
Proof.
  intros Hg Herr. unfold await_fetch. rewrite try_catch_Fetch, drive_Fetch.
  set (Q := log_request _ q).
  assert (HQ : elems Q !! countriesGrid K = Some g) by exact Hg.
  destruct reply as [e|response]; cbn [listing_error] in Herr.
  { injection Herr as ->. rewrite try_catch_Throw. exists Q. by eauto. }
  destruct (negb (resp_ok response)).
  { injection Herr as <-. rewrite try_catch_Throw. exists Q. by eauto. }
  unfold await_json. rewrite try_catch_Yield, drive_Yield.
  destruct (body response) as [v|msg].
  2: { injection Herr as <-. rewrite try_catch_Throw. exists Q. by eauto. }
  rewrite try_catch_Write, drive_Write.
  set (Q1 := set_innerHTML _ _ Q).
  assert (HfQ1 : frame Q1 = frame Q) by apply frame_set_innerHTML.
  assert (HQ1 : elems Q1 !! countriesGrid K
                = Some (set_content (Html "") (set_descendants (λ _, []) g))).
  { unfold Q1. by rewrite elems_set_innerHTML, !lookup_alter_eq, HQ. }
  destruct v as [| | | | |items|]; cbn [forEach_createCard];
    try (injection Herr as <-; rewrite try_catch_Throw; exists Q1; by eauto).
  destruct (drive_forEach_createCard (countriesGrid K) "browse" Ret h items Q1 [] rs)
    as (q' & Hf & Hres).
  { eexists. split; [exact HQ1|]. constructor. }
  destruct (cards_data items) as [ds|e]; [discriminate|]. injection Herr as ->.
  destruct Hres as [-> Hlive]. exists q'. split; [done|]. split; [by rewrite Hf|done].
Qed.

(** X8 (fetchAndDisplayCountries, lines 155-158, with createCard,
    lines 165-179): when the response is ok and its body an array of
    countries createCard can read, the call returns with the grid holding
    exactly one card per country, in the order of the response: nothing
    of the loading text or of an earlier list is left.  Each card carries
    the flag and the name of its country and opens the dialog for its
    [cca3], as a country that is not from the saved view. *)
Theorem fetchAndDisplayCountries_cards endpoint p response items ds rest g :
  elems p !! countriesGrid K = Some g →
  resp_ok response = true →
  body response = JsonBody (JArr items) →
  cards_data items = Ok ds →
  ∃ p',
    drive (fetchAndDisplayCountries K endpoint) p (NetResp response :: rest)
    = (p', [], Completed, rest)
    ∧ children_of p' (countriesGrid K) = card_element "browse" <$> ds.
Proof.
  intros Hg Hok Hbody Hcards. unfold fetchAndDisplayCountries.
  match goal with
  | |- context [drive (innerHTML_paragraph ?r ?c ?i ?k) ?p ?rs] =>
      destruct (drive_innerHTML_paragraph_live r c i k p rs g Hg)
        as (P & para & g' & -> & _ & HPg & _)
  end.
  unfold await_fetch. rewrite try_catch_Fetch, drive_Fetch. cbv beta.
  rewrite Hok. cbn [negb]. unfold await_json.
  rewrite try_catch_Yield, drive_Yield, Hbody, try_catch_Write, drive_Write.
  cbn [forEach_createCard].
  match goal with
  | |- context [drive _ ?Q rest] =>
      assert (elems Q !! countriesGrid K
              = Some (set_content (Html "") (set_descendants (λ _, []) g'))) as HQ
  end.
  { rewrite elems_set_innerHTML, !lookup_alter_eq. cbn [elems log_request].
    by rewrite HPg. }
  match goal with
  | |- context [drive (try_catch (foldr _ Ret items) ?h) ?Q ?rs] =>
      destruct (drive_forEach_createCard (countriesGrid K) "browse" Ret h items Q [] rs)
        as (q' & _ & Hres)
  end.
  { eexists. split; [exact HQ|constructor]. }
  rewrite Hcards in Hres. destruct Hres as [-> Hholds].
  rewrite try_catch_Ret, drive_Ret. exists q'. split; [reflexivity|].
  by apply children_of_cards.
Qed.


(** X10 (displaySavedCountries, lines 345-354): when the response is ok
    and its body an array, the saved grid ends up holding the placeholder
    paragraph alone if the array is empty, and otherwise exactly one card
    per saved country, in order, each opening the dialog as a country of
    the saved view. *)
Theorem displaySavedCountries_cards p response items ds rest g :
  elems p !! savedCountriesGrid K = Some g →
  resp_ok response = true →
  body response = JsonBody (JArr items) →
  cards_data items = Ok ds →
  ∃ p',
    drive (displaySavedCountries K) p (NetResp response :: rest)
    = (p', [], Completed, rest)
    ∧ children_of p' (savedCountriesGrid K)
      = match items with
        | [] => [element {["placeholder-text"]}
                   (Html "No has guardado ningún país todavía.")]
        | _ => card_element "local" <$> ds
        end.
Proof.
  intros Hg Hok Hbody Hcards. unfold displaySavedCountries.
  match goal with
  | |- context [drive (innerHTML_paragraph ?r ?c ?i ?k) ?p ?rs] =>
      destruct (drive_innerHTML_paragraph_live r c i k p rs g Hg)
        as (P & para & g' & -> & _ & HPg & _)
  end.
  unfold await_fetch. rewrite try_catch_Fetch, drive_Fetch. cbv beta.
  rewrite Hok. cbn [negb]. unfold await_json.
  rewrite try_catch_Yield, drive_Yield, Hbody, try_catch_Write, drive_Write.
  cbn [length_is_zero lift].
  match goal with
  | |- context [drive _ ?Q rest] =>
      assert (elems Q !! savedCountriesGrid K
              = Some (set_content (Html "") (set_descendants (λ _, []) g'))) as HQ
  end.
  { rewrite elems_set_innerHTML, !lookup_alter_eq. cbn [elems log_request].
    by rewrite HPg. }
  destruct items as [|country items].
  - rewrite bool_decide_eq_true_2 by done.
    match goal with
    | |- context [drive (try_catch (innerHTML_paragraph ?r ?c ?i ?k) ?h) ?Q ?rs] =>
        destruct (drive_try_catch_paragraph r c i k h Q rs _ HQ)
          as (p' & para' & g3 & -> & _ & Hg3 & _ & Hdesc & Hpara)
    end.
    rewrite try_catch_Ret, drive_Ret. exists p'. split; [reflexivity|].
    by eapply children_of_paragraph.
  - rewrite bool_decide_eq_false_2 by done. cbn [forEach_createCard].
    match goal with
    | |- context [drive (try_catch (foldr _ Ret ?l) ?h) ?Q ?rs] =>
        destruct (drive_forEach_createCard (savedCountriesGrid K) "local" Ret h l Q [] rs)
          as (q' & _ & Hres)
    end.
    { eexists. split; [exact HQ|constructor]. }
    rewrite Hcards in Hres. destruct Hres as [-> Hholds].
    rewrite try_catch_Ret, drive_Ret. exists q'. split; [reflexivity|].
    by apply children_of_cards.
Qed.

End GridFacts.

(** ** One element, followed through the writes *)

Section TouchedFacts.
Context {Num : Type} (x : nat) (I : Element Num → Element Num → Prop)
  (HI : PreOrder I).
Implicit Types (p q : Page Num).

Lemma touched_refl p : touched x I p p.
Proof. intros a Ha. by exists a. Qed.

Lemma touched_same_elems p q q' :
  elems q' = elems q → touched x I p q → touched x I p q'.
Proof. intros Heq Hq a Ha. rewrite Heq. by apply Hq. Qed.

Lemma touched_modify r (f : Element Num → Element Num) p q :
  (r = x → ∀ a, I a (f a)) → touched x I p q → touched x I p (modify r f q).
Proof.
  intros Hf Hq a Ha. destruct (Hq a Ha) as (a' & Ha' & Haa').
  rewrite elems_modify. destruct (decide (r = x)) as [->|Hne].
  - exists (f a'). rewrite lookup_alter_eq, Ha'. split; [done|].
    by etrans; [exact Haa'|apply Hf].
  - exists a'. by rewrite lookup_alter_ne.
Qed.

Lemma touched_set_innerHTML r m p q :
  (r = x → ∀ a, I a (set_content (Html m) (set_descendants (λ _, []) a))) →
  touched x I p q → touched x I p (set_innerHTML r m q).
Proof.
  intros Hf Hq a Ha. destruct (Hq a Ha) as (a' & Ha' & Haa').
  rewrite elems_set_innerHTML. destruct (decide (r = x)) as [->|Hne].
  - eexists. rewrite !lookup_alter_eq, Ha'. split; [reflexivity|].
    by etrans; [exact Haa'|apply Hf].
  - exists a'. by rewrite !lookup_alter_ne.
Qed.

Lemma touched_alloc (e : Element Num) p q :
  touched x I p q →
  touched x I p (upd_elems <[fresh (dom (elems q)) := e]> q).
Proof.
  intros Hq a Ha. destruct (Hq a Ha) as (a' & Ha' & Haa').
  exists a'. split; [|done]. cbn [elems upd_elems].
  rewrite lookup_insert_ne; [done|]. by apply (fresh_elems_ne q x a').
Qed.

Lemma touched_attach r c p q :
  (r = x → ∀ a, I a (set_descendants (λ ds, ds ++ [c]) a)) →
  touched x I p q → touched x I p (attach [r] None c q).
Proof. intros Hf Hq. by apply (touched_modify r _ p q Hf). Qed.

Lemma touched_cleared p q : touched x I p q → touched x I p (cleared q).
Proof.
  apply touched_same_elems. unfold cleared.
  by destruct (weatherUpdateIntervalId q).
Qed.

Lemma touched_log_request rq p q :
  touched x I p q → touched x I p (log_request rq q).
Proof. by apply touched_same_elems. Qed.

Lemma touched_set_focused r p q :
  touched x I p q → touched x I p (set_focused r q).
Proof. by apply touched_same_elems. Qed.

Lemma touched_set_currentCountryCodeInModal (c : option (JsVal Num)) p q :
  touched x I p q → touched x I p (set_currentCountryCodeInModal c q).
Proof. by apply touched_same_elems. Qed.

End TouchedFacts.

(** Follow an element from the outermost write inwards; [side] proves
    that a write to the element itself keeps the relation, or that the
    write is to another element. *)
Ltac touched_through HI side :=
  repeat lazymatch goal with
  | |- touched _ _ ?p ?p => apply (touched_refl _ _ HI)
  | |- touched _ _ _ (modify _ _ _) => apply (touched_modify _ _ HI); [side|]
  | |- touched _ _ _ (classList_add _ _ _) =>
      apply (touched_modify _ _ HI); [side|]
  | |- touched _ _ _ (classList_remove _ _ _) =>
      apply (touched_modify _ _ HI); [side|]
  | |- touched _ _ _ (set_innerHTML _ _ _) =>
      apply (touched_set_innerHTML _ _ HI); [side|]
  | |- touched _ _ _ (attach [_] None _ _) =>
      apply (touched_attach _ _ HI); [side|]
  | |- touched _ _ _ (upd_elems _ _) => apply touched_alloc
  | |- touched _ _ _ (cleared _) => apply touched_cleared
  | |- touched _ _ _ (log_request _ _) => apply touched_log_request
  | |- touched _ _ _ (set_focused _ _) => apply touched_set_focused
  | |- touched _ _ _ (set_currentCountryCodeInModal _ _) =>
      apply touched_set_currentCountryCodeInModal
  | |- touched _ _ _ (if ?b then _ else _) => destruct b
  end.

(** ** openModal: what is on the page after a failure *)

Section FailureFacts.
Context {Num : Type} `{!Engine Num} (K : Consts).
#[local] Abbreviation Val := (JsVal Num).
Implicit Types (p q : Page Num) (t k : Task Num).

Lemma drive_innerHTML_paragraph_eq r cls inner k p rs :
  drive (innerHTML_paragraph r cls inner k) p rs
  = drive k (with_paragraph r cls inner p) rs.
Proof. reflexivity. Qed.

Lemma drive_clear_weather_interval_eq k p rs :
  drive (clear_weather_interval k) p rs = drive k (cleared p) rs.
Proof.
  unfold clear_weather_interval, cleared. rewrite drive_Read.
  by destruct (weatherUpdateIntervalId p).
Qed.

Lemma drive_showCustomMessage_eq message k p rs :
  drive (showCustomMessage K message k) p rs
  = drive k (message_shown K message p) rs.
Proof. reflexivity. Qed.

(** The run of openModal when its [try] block throws at once. *)
Lemma drive_openModal_failed countryCode isFromSavedView modalBody p reply
    error rest :
  getElementById p "modal-body" = Some modalBody →
  openModal_error reply = Some error →
  drive (openModal K countryCode isFromSavedView) p (reply :: rest)
  = (openModal_failed K countryCode isFromSavedView modalBody error p,
     [], Completed, rest).
Proof.
  intros Hbody Herr. unfold openModal. rewrite drive_Read, Hbody.
  rewrite drive_innerHTML_paragraph_eq, drive_clear_weather_interval_eq,
    drive_Write.
  assert (Hhead : ∀ q k,
    drive ((if isFromSavedView then
              λ k, Write (classList_add (modalAddBtn K) "hidden") $
                   Write (classList_remove (modalDeleteBtn K) "hidden") $
                   Write (modify (modalDeleteBtn K)
                            (set_onclick (CbDeleteCountry countryCode))) k
            else
              λ k, Write (classList_remove (modalAddBtn K) "hidden") $
                   Write (classList_add (modalDeleteBtn K) "hidden") k) $
           Write (classList_remove (modalContainer K) "hidden") k)
          q (reply :: rest)
    = drive k (buttons_shown K countryCode isFromSavedView q) (reply :: rest)).
  { intros q k. unfold buttons_shown. by destruct isFromSavedView. }
  rewrite Hhead.
  rewrite (drive_openModal_try_fails K _ _ _ _ _ error _ _ Herr).
  unfold openModal_catch.
  by rewrite drive_innerHTML_paragraph_eq, drive_showCustomMessage_eq, drive_Ret.
Qed.

Lemma with_paragraph_shows r cls inner q (g : Element Num) :
  elems q !! r = Some g →
  shows (with_paragraph r cls inner q) r
    (Html ("<p class=" +:+ dq +:+ cls +:+ dq +:+ ">" +:+ inner +:+ "</p>")).
Proof.
  intros Hr. unfold with_paragraph, shows. cbv zeta.
  set (p1 := set_innerHTML r _ q).
  assert (elems p1 !! r
          = Some (set_content
                    (Html ("<p class=" +:+ dq +:+ cls +:+ dq +:+ ">" +:+ inner +:+ "</p>"))
                    (set_descendants (λ _, []) g))) as Hp1.
  { unfold p1. by rewrite elems_set_innerHTML, !lookup_alter_eq, Hr. }
  rewrite elems_attach_one. cbn [elems upd_elems].
  rewrite lookup_alter_eq, lookup_insert_ne, Hp1
    by exact (fresh_elems_ne p1 r _ Hp1).
  reflexivity.
Qed.

Lemma always_preorder : PreOrder (λ _ _ : Element Num, True).
Proof. by split. Qed.

Lemma same_content_preorder :
  PreOrder (λ a a' : Element Num, content a' = content a).
Proof. split; [done|]. intros a b c Hab Hbc. congruence. Qed.

Lemma same_onclick_preorder :
  PreOrder (λ a a' : Element Num,
              onclick a' = onclick a
              ∧ ("hidden" ∈ classes a' → "hidden" ∈ classes a)).
Proof.
  split; [done|]. intros a b c [Hab Hab'] [Hbc Hbc'].
  split; [congruence|]. auto.
Qed.

#[local] Ltac fields :=
  cbn [onclick classes content set_content set_descendants set_classes
       set_listeners].

#[local] Ltac side :=
  let Heq := fresh in
  intros Heq;
  first [ intros ?; fields;
          first [ done
                | split; [done|];
                  let Hin := fresh in
                  intros Hin;
                  first [ exact Hin
                        | apply elem_of_difference in Hin; exact (proj1 Hin) ] ]
        | exfalso; congruence ].

(** X12 (openModal, lines 182 and 242-245, with showCustomMessage,
    lines 26-32): when the country does not load or does not render,
    for a code that has a string, the dialog body ends up showing the
    error paragraph with the message of the error that the [try] block
    threw first, and the message dialog the warning with the same
    message; nothing that openModal or showCustomMessage does afterwards
    overwrites either. *)
Theorem openModal_failure_shown (countryCode : JsVal Num) (code : string)
    isFromSavedView modalBody p reply error rest (g m : Element Num) :
  getElementById p "modal-body" = Some modalBody →
  ToString countryCode = Ok code →
  openModal_error reply = Some error →
  elems p !! modalBody = Some g →
  elems p !! customMessageText K = Some m →
  modalBody ≠ customMessageText K →
  let p' := (drive (openModal K countryCode isFromSavedView) p
                   (reply :: rest)).1.1.1 in
  shows p' modalBody
    (Html ("<p class=" +:+ dq +:+ "error-text" +:+ dq +:+ ">"
           +:+ ("Error al cargar el país: " +:+ err_message error) +:+ "</p>"))
  ∧ shows p' (customMessageText K)
      (Html ("<p>" +:+ ("⚠️ Error al cargar los detalles del país: "
                        +:+ err_message error) +:+ "</p>")).
Proof.
  intros Hbody _ Herr Hg Hm Hne p'. subst p'.
  rewrite (drive_openModal_failed _ _ _ _ _ _ _ Hbody Herr). cbn [fst].
  unfold openModal_failed.
  match goal with
  | |- context [message_shown K ?msg (with_paragraph modalBody ?c ?i ?Q)] =>
      assert (touched modalBody (λ _ _, True) p Q) as HQb;
      [|assert (touched (customMessageText K) (λ _ _, True) p
                  (with_paragraph modalBody c i Q)) as HQm;
        [|remember Q as Q0 eqn:HQ0; clear HQ0]]
  end.
  { unfold buttons_shown, with_paragraph. cbv zeta.
    touched_through always_preorder side. }
  { unfold buttons_shown, with_paragraph. cbv zeta.
    touched_through always_preorder side. }
  destruct (HQb g Hg) as (g0 & Hg0 & _).
  pose proof (with_paragraph_shows modalBody "error-text"
                ("Error al cargar el país: " +:+ err_message error) Q0 g0 Hg0)
    as Hshown.
  remember (with_paragraph modalBody "error-text"
              ("Error al cargar el país: " +:+ err_message error) Q0) as P2 eqn:HP2.
  clear HP2. destruct (HQm m Hm) as (m2 & Hm2 & _).
  unfold message_shown. split.
  - assert (touched modalBody (λ a a', content a' = content a) P2
              (message_shown K ("⚠️ Error al cargar los detalles del país: "
                                +:+ err_message error) P2)) as Ht.
    { unfold message_shown. touched_through same_content_preorder side. }
    unfold shows in *. destruct (elems P2 !! modalBody) as [g2|] eqn:Hg2;
      [|discriminate].
    destruct (Ht g2 Hg2) as (g3 & Hg3 & Hc).
    unfold message_shown in Hg3. rewrite Hg3. cbn [fmap option_fmap option_map] in *. congruence.
  - match goal with
    | |- context [set_innerHTML (customMessageText K) ?msg P2] =>
        assert (elems (set_innerHTML (customMessageText K) msg P2)
                !! customMessageText K
                = Some (set_content (Html msg) (set_descendants (λ _, []) m2)))
          as Hm3
          by (by rewrite elems_set_innerHTML, !lookup_alter_eq, Hm2);
        remember (set_innerHTML (customMessageText K) msg P2) as P3 eqn:HP3;
        clear HP3
    end.
    match goal with
    | |- shows ?P _ _ =>
        assert (touched (customMessageText K)
                  (λ a a', content a' = content a) P3 P) as Ht
          by touched_through same_content_preorder side
    end.
    destruct (Ht _ Hm3) as (m4 & Hm4 & Hc).
    unfold shows. rewrite Hm4. cbn [fmap option_fmap option_map]. cbn [onclick classes content set_content set_descendants set_classes set_listeners] in Hc.
    congruence.
Qed.

Lemma add_button_head (countryCode : Val) modalBody p :
  touched (modalAddBtn K)
    (λ a a', onclick a' = onclick a
             ∧ ("hidden" ∈ classes a' → "hidden" ∈ classes a)) p
    (set_currentCountryCodeInModal (Some countryCode)
       (cleared (with_paragraph modalBody "loading-text" "Cargando detalles..." p))).
Proof.
  unfold with_paragraph. cbv zeta. touched_through same_onclick_preorder side.
Qed.

Lemma add_button_tail message cls inner rq modalBody q :
  modalAddBtn K ≠ modalDeleteBtn K →
  modalAddBtn K ≠ customMessageCancelBtn K →
  touched (modalAddBtn K)
    (λ a a', onclick a' = onclick a
             ∧ ("hidden" ∈ classes a' → "hidden" ∈ classes a)) q
    (message_shown K message
       (with_paragraph modalBody cls inner
          (log_request rq
             (classList_remove (modalContainer K) "hidden"
                (classList_add (modalDeleteBtn K) "hidden" q))))).
Proof.
  intros Hdel Hcancel.
  unfold message_shown, with_paragraph. cbv zeta.
  touched_through same_onclick_preorder side.
Qed.

Lemma add_button_path (countryCode : Val) modalBody error p (a : Element Num) :
  elems p !! modalAddBtn K = Some a →
  modalAddBtn K ≠ modalDeleteBtn K →
  modalAddBtn K ≠ customMessageCancelBtn K →
  ∃ a',
    elems (openModal_failed K countryCode false modalBody error p)
      !! modalAddBtn K = Some a'
    ∧ onclick a' = onclick a
    ∧ "hidden" ∉ classes a'.
Proof.
  intros Ha Hdel Hcancel.
  destruct (add_button_head countryCode modalBody p a Ha) as (a0 & Ha0 & Hon0 & _).
  destruct (add_button_tail
              ("⚠️ Error al cargar los detalles del país: " +:+ err_message error)
              "error-text" ("Error al cargar el país: " +:+ err_message error)
              (mkRequest "GET" (API_URL +:+ "/country/" +:+ toStr countryCode))
              modalBody
              (classList_remove (modalAddBtn K) "hidden"
                 (set_currentCountryCodeInModal (Some countryCode)
                    (cleared (with_paragraph modalBody "loading-text"
                                "Cargando detalles..." p))))
              Hdel Hcancel (set_classes (λ cs, cs ∖ {["hidden"]}) a0))
    as (a' & Ha' & Hon & Hhid).
  { rewrite elems_classList_remove, lookup_alter_eq, Ha0. reflexivity. }
  exists a'. split; [exact Ha'|].
  cbn [onclick classes set_classes] in Hon, Hhid.
  split; [congruence|].
  intros Hin. apply Hhid, elem_of_difference in Hin. destruct Hin as [_ Hn].
  apply Hn. by apply elem_of_singleton.
Qed.

(** X13 (openModal, lines 188-196, 229 and 242-245): when a country
    opened from the browse view does not load, the button "add" is
    left visible although there is no country to add: line 193 has
    shown it, line 229 has not been reached, so its [onclick] is still
    what it was before the call, the handler of the country opened
    before, if any. *)
Theorem openModal_failure_leaves_add_button countryCode modalBody p reply error
    rest (a : Element Num) :
  getElementById p "modal-body" = Some modalBody →
  openModal_error reply = Some error →
  elems p !! modalAddBtn K = Some a →
  modalAddBtn K ≠ modalDeleteBtn K →
  modalAddBtn K ≠ customMessageCancelBtn K →
  ∃ a',
    elems (drive (openModal K countryCode false) p (reply :: rest)).1.1.1
      !! modalAddBtn K = Some a'
    ∧ onclick a' = onclick a
    ∧ "hidden" ∉ classes a'.
Proof.
  intros Hbody Herr Ha Hdel Hcancel.
  rewrite (drive_openModal_failed _ _ _ _ _ _ _ Hbody Herr).
  exact (add_button_path countryCode modalBody error p a Ha Hdel Hcancel).
Qed.

End FailureFacts.

(** ** The message dialog *)

Section DismissFacts.
Context {Num : Type} `{!Engine Num} (K : Consts).
Implicit Types (p q : Page Num).

Lemma dispatch_dismiss n :
  dispatch K (replicate n (CbDismissMessage (Num:=Num)))
  = Some (Nat.iter n (Spawn (clickHandler K)) Ret).
Proof.
  induction n as [|n IH]; [done|].
  cbn [replicate dispatch handler]. by rewrite IH.
Qed.

(** All the pending [clickHandler]s run, one after the other. *)
Lemma run_dismiss_all n :
  ∀ q (e m : Element Num),
    elems q !! customMessageConfirmBtn K = Some e →
    listeners e = replicate n CbDismissMessage →
    elems q !! customMessageModal K = Some m →
    ∃ q' e' m',
      run (Nat.iter n (Spawn (clickHandler K)) Ret) q = (q', [], Completed)
      ∧ frame q' = frame q
      ∧ elems q' !! customMessageConfirmBtn K = Some e'
      ∧ listeners e' = []
      ∧ elems q' !! customMessageModal K = Some m'
      ∧ (n ≠ 0%nat ∨ "hidden" ∈ classes m → "hidden" ∈ classes m').
Proof.
  induction n as [|n IH]; intros q e m He Hl Hm.
  { exists q, e, m. repeat split; try done. by intros [?|?]. }
  rewrite Nat.iter_succ.
  assert (run (clickHandler K) q
          = (modify (customMessageConfirmBtn K)
               (set_listeners
                  (remove_listener
                     (λ cb, match cb with CbDismissMessage => true | _ => false end)))
               (classList_add (customMessageModal K) "hidden" q),
             [], Completed)) as Hrun by reflexivity.
  rewrite (run_Spawn _ _ _ _ _ _ Hrun).
  set (q1 := modify _ _ _) in *.
  assert (∃ e1, elems q1 !! customMessageConfirmBtn K = Some e1
                ∧ listeners e1 = replicate n CbDismissMessage) as (e1 & He1 & Hl1).
  { unfold q1. rewrite elems_modify, lookup_alter_eq, elems_classList_add.
    destruct (decide (customMessageModal K = customMessageConfirmBtn K)) as [Heq|Hne].
    - rewrite Heq, lookup_alter_eq, He. eexists. split; [reflexivity|].
      cbn [listeners set_listeners set_classes]. by rewrite Hl.
    - rewrite lookup_alter_ne, He by done. eexists. split; [reflexivity|].
      cbn [listeners set_listeners]. by rewrite Hl. }
  assert (∃ m1, elems q1 !! customMessageModal K = Some m1
                ∧ "hidden" ∈ classes m1) as (m1 & Hm1 & Hh1).
  { unfold q1. rewrite elems_modify, elems_classList_add.
    destruct (decide (customMessageConfirmBtn K = customMessageModal K)) as [Heq|Hne].
    - rewrite Heq, !lookup_alter_eq, Hm. eexists. split; [reflexivity|].
      cbn [classes set_listeners set_classes].
      apply elem_of_union. right. by apply elem_of_singleton.
    - rewrite lookup_alter_ne, lookup_alter_eq, Hm by done.
      eexists. split; [reflexivity|]. cbn [classes set_classes].
      apply elem_of_union. right. by apply elem_of_singleton. }
  destruct (IH q1 e1 m1 He1 Hl1 Hm1)
    as (q' & e' & m' & -> & Hf & He' & Hl' & Hm' & Hh').
  exists q', e', m'. split; [reflexivity|].
  split; [by rewrite Hf|]. do 3 (split; [done|]). intros _. apply Hh'. by right.
Qed.

(** X14 (showCustomMessage, lines 26-43, called at lines 244 and 360):
    openModal and displaySavedCountries raise their message without
    awaiting it, and each such call registers a click handler of its own
    on the confirm button.  When the handlers on the button are those of
    [n + 1] such calls, one click runs them all: the dialog is hidden,
    no handler is left on the button, nothing else changes outside the
    document, and no task is left waiting.  The messages of saveCountry
    and deleteCountry, which are awaited, are not covered. *)
Theorem one_click_dismisses_all n p (e m : Element Num) :
  elems p !! customMessageConfirmBtn K = Some e →
  listeners e = replicate (S n) CbDismissMessage →
  onclick e = None →
  disabled e = false →
  elems p !! customMessageModal K = Some m →
  ∃ p',
    step K (mkWorld p []) (Click (customMessageConfirmBtn K))
    = Some (mkWorld p' [])
    ∧ (listeners <$> elems p' !! customMessageConfirmBtn K) = Some []
    ∧ has_class p' "hidden" (customMessageModal K) = true
    ∧ frame p' = frame p.
Proof.
  intros He Hl Hon Hdis Hm.
  destruct (run_dismiss_all (S n) p e m He Hl Hm)
    as (p' & e' & m' & Hrun & Hf & He' & Hl' & Hm' & Hh').
  exists p'. split.
  - unfold step. cbn [page]. rewrite He, Hdis, Hl, Hon.
    assert (in_document K p (customMessageConfirmBtn K) = true) as ->.
    { unfold in_document. apply bool_decide_eq_true_2.
      do 3 (apply elem_of_app; right). repeat constructor. }
    cbn [negb andb option_list]. rewrite app_nil_r, dispatch_dismiss.
    unfold start. cbn [page waiting]. by rewrite Hrun.
  - split; [rewrite He'; cbn [fmap option_fmap option_map]; by rewrite Hl'|].
    split; [|exact Hf].
    unfold has_class. rewrite Hm'. apply bool_decide_eq_true_2.
    apply Hh'. by left.
Qed.

End DismissFacts.

(** ** The record saveCountry posts, read by createCard *)

Section RecordFacts.
Context {Num : Type} `{!Engine Num}.
#[local] Abbreviation Val := (JsVal Num).

(** X11 (saveCountry, lines 320-325, with createCard, lines 168-169
    and 177): the record that saveCountry builds from a country is read
    by createCard through its two fallbacks ([country.flag_url] as there
    is no [flags], [country.name] as a string has no [common]), and the
    card made from the record shows the same flag and the same name and
    opens the same code as the card made from the country itself,
    provided the country has a truthy [flags] and a non-empty string as
    [name.common]. *)
Theorem saved_record_gives_same_card (country saved flags name : Val) (s : string) :
  countryData country = Ok saved →
  prop country "flags" = Ok flags →
  truthy flags = true →
  prop country "name" = Ok name →
  prop name "common" = Ok (JStr s) →
  s ≠ "" →
  card_data saved = card_data country.
Proof.
  intros Hsaved Hflags Htruthy Hname Hcommon Hs.
  assert (truthy (JStr s) = true) as Hts.
  { destruct s; [done|reflexivity]. }
  unfold countryData in Hsaved. unfold card_data at 2.
  rewrite Hflags. cbn [mbind Exn_bind]. rewrite Htruthy.
  destruct (prop country "cca3") as [cca3|e]; [|discriminate].
  cbn [mbind Exn_bind] in Hsaved. rewrite Hname in Hsaved.
  cbn [mbind Exn_bind] in Hsaved. rewrite Hcommon in Hsaved.
  cbn [mbind Exn_bind] in Hsaved.
  destruct (prop country "region") as [region|e]; [|discriminate].
  cbn [mbind Exn_bind] in Hsaved. rewrite Hflags in Hsaved.
  cbn [mbind Exn_bind] in Hsaved.
  destruct (prop flags "png") as [png|e]; [|discriminate].
  cbn [mbind Exn_bind] in Hsaved. injection Hsaved as <-.
  cbn [mbind Exn_bind]. rewrite Hname. cbn [mbind Exn_bind].
  rewrite Hcommon. cbn [mbind Exn_bind]. rewrite Hts.
  reflexivity.
Qed.

End RecordFacts.

(** ** The intervals of the page *)

Section IntervalFacts.
Context {Num : Type} `{!Engine Num} (K : Consts).
Implicit Types (p q : Page Num).

#[local] Instance keeps_weather_intervals_preorder :
  PreOrder (keeps_weather_intervals (Num:=Num)).
Proof.
  split; [intros p Hp; exact Hp|]. intros p q r Hpq Hqr Hp. exact (Hqr (Hpq Hp)).
Qed.

Lemma keeps_same_timers p q : timers q = timers p → keeps_weather_intervals p q.
Proof. intros Ht Hp h iv. rewrite Ht. apply Hp. Qed.

Lemma keeps_frame p q : frame q = frame p → keeps_weather_intervals p q.
Proof. intros Hf. apply keeps_same_timers. by destruct (same_frame_parts p q Hf). Qed.

Lemma keeps_clearInterval h p : keeps_weather_intervals p (clearInterval h p).
Proof.
  intros Hp h' iv. unfold clearInterval. cbn.
  rewrite lookup_delete_Some. intros [_ Hiv]. by apply (Hp h').
Qed.

Lemma keeps_start_weather_interval (c : JsVal Num) p :
  keeps_weather_intervals p (start_weather_interval c p).
Proof.
  intros Hp h iv. unfold start_weather_interval, setInterval. cbn.
  rewrite lookup_insert_Some. intros [[_ <-]|[_ Hiv]]; [|by apply (Hp h)].
  split; [done|]. by exists c.
Qed.

(** X3 (line 241, with lines 89-92, 183-186 and 303-306): in every run
    that is made of the events modelled here (navigation, closing the
    dialog, clicks on cards, on the weather button and on the button of
    a message, firings, settlements and resumptions), however the
    requests are answered, every interval the page has fires every
    60000 ms and calls [fetchWeatherForCountry] without the force flag.
    A run with a click on the add or the delete button is not covered:
    saveCountry and deleteCountry are not modelled, and such a click is
    no step. *)
Theorem intervals_are_weather_intervals p evs w' :
  weather_intervals_only p →
  steps K (mkWorld p []) evs = Some w' →
  weather_intervals_only (page w').
Proof.
  intros Hp Hsteps.
  destruct (steps_respects K keeps_weather_intervals keeps_frame
              (λ rq q, keeps_same_timers q (log_request rq q) eq_refl)
              (λ e q, keeps_same_timers q (console_error e q) eq_refl)
              keeps_clearInterval
              (λ o q, keeps_same_timers q (set_weatherUpdateIntervalId o q) eq_refl)
              (λ c q, keeps_same_timers q (set_currentCountryCodeInModal c q) eq_refl)
              keeps_start_weather_interval
              evs (mkWorld p []) w' (Forall_nil_2 _) Hsteps) as [HR _].
  exact (HR Hp).
Qed.

End IntervalFacts.

(** ** The refresh interval of the dialog *)

Section RefreshFacts.
Context {Num : Type} `{!Engine Num} (K : Consts).
#[local] Abbreviation Val := (JsVal Num).
Implicit Types (p q : Page Num) (t k : Task Num).

#[local] Instance timers_kept_preorder : PreOrder (timers_kept (Num:=Num)).
Proof.
  split.
  - intros p. by split.
  - intros p q r [H1 H2] [H3 H4]. split; congruence.
Qed.

Lemma timers_kept_frame p q : frame q = frame p → timers_kept p q.
Proof. intros Hf. destruct (same_frame_parts p q Hf) as (?&?&_). by split. Qed.

Lemma respects_refresh (cca3 : Val) force :
  respects timers_kept (fetchWeatherForCountry cca3 force).
Proof.
  apply respects_fetchWeatherForCountry.
  - exact timers_kept_frame.
  - intros rq p. by split.
  - intros e p. by split.
Qed.

Lemma sends_within_starts_nothing l t :
  sends_within l t → ∀ p rs, (drive t p rs).1.1.2 = [].
Proof.
  induction 1 as [l|l e|l k _ IH|l f k Hf _ IH|rq l k _ IH|l k _ IH|rq l t _ IH];
    intros p rs; cbn [drive]; try done.
  destruct rs as [|r rs]; [done|apply IH].
Qed.

(** Lines 250-266: an invocation that finds its elements sets the
    controls to loading and stops at the [await] of line 266 with its
    request sent. *)
Lemma run_fetchWeather p cca3 force statusText details btn spinner :
  weather_found p statusText details btn spinner →
  ∃ next, run (fetchWeatherForCountry cca3 force) p
       = (log_request (weather_request cca3)
            (weather_begin statusText details btn spinner p),
          [], Suspended (OnFetch (weather_request cca3) next)).
Proof.
  intros [(st & Hst & Hsp) Ht Hd Hb].
  unfold fetchWeatherForCountry. cbn [run].
  rewrite Hst, Ht, Hd, Hb, Hsp.
  cbn [run try_finally try_catch weather_try await_fetch].
  eexists. reflexivity.
Qed.

Lemma run_fetchWeather_missing p cca3 force :
  weather_element_missing p →
  run (fetchWeatherForCountry cca3 force) p = (p, [], Completed).
Proof.
  intros Hmiss. unfold fetchWeatherForCountry. cbn [run].
  destruct Hmiss as [H|[H|[H|[H|(st & H1 & H2)]]]].
  - by rewrite H.
  - rewrite H. by repeat case_match.
  - rewrite H. by repeat case_match.
  - rewrite H. by repeat case_match.
  - rewrite H1, H2. by repeat case_match.
Qed.

Lemma refresh_step h (cca3 : Val) w ev w' :
  Forall (respects_blocked timers_kept) (waiting w) →
  timers (page w) !! h = Some (mkInterval (CbFetchWeather cca3 false) 60000) →
  refresh_event h ev →
  step K w ev = Some w' →
  timers_kept (page w) (page w')
  ∧ Forall (respects_blocked timers_kept) (waiting w').
Proof.
  intros Hw Hh. destruct ev as [v| |r|h'|i reply|i]; cbn [refresh_event step];
    try (by intros []).
  - intros ->. rewrite Hh. cbn [iv_callback handler]. intros [= <-].
    apply (start_respects timers_kept); [apply respects_refresh|done].
  - intros _. destruct (waiting w !! i) as [[rq k|k]|] eqn:Hi; try done.
    intros [= <-].
    assert (Hk : respects timers_kept (k reply)).
    { eapply Forall_lookup_1 in Hi; [|exact Hw]. apply Hi. }
    destruct (start_respects timers_kept (k reply)
                (mkWorld (page w) (delete i (waiting w))) Hk) as [HR Hb];
      [by apply Forall_delete|]. by split.
  - intros _. destruct (waiting w !! i) as [[rq k|k]|] eqn:Hi; try done.
    intros [= <-].
    assert (Hk : respects timers_kept k).
    { eapply Forall_lookup_1 in Hi; [|exact Hw]. apply Hi. }
    destruct (start_respects timers_kept k
                (mkWorld (page w) (delete i (waiting w))) Hk) as [HR Hb];
      [by apply Forall_delete|]. by split.
Qed.

Lemma refresh_steps h (cca3 : Val) evs :
  ∀ w w',
    Forall (respects_blocked timers_kept) (waiting w) →
    timers (page w) !! h = Some (mkInterval (CbFetchWeather cca3 false) 60000) →
    Forall (refresh_event h) evs →
    steps K w evs = Some w' →
    timers_kept (page w) (page w').
Proof.
  induction evs as [|ev evs IH]; intros w w' Hw Hh Hevs; cbn [steps].
  - intros [= <-]. by split.
  - apply Forall_cons in Hevs as [Hev Hevs].
    destruct (step K w ev) as [w1|] eqn:Hstep; [|done].
    destruct (refresh_step h cca3 w ev w1 Hw Hh Hev Hstep) as [[Ht Hid] Hw1].
    intros Hrest.
    assert (Hh1 : timers (page w1) !! h
                  = Some (mkInterval (CbFetchWeather cca3 false) 60000))
      by (by rewrite Ht).
    destruct (IH w1 w' Hw1 Hh1 Hevs Hrest) as [Ht' Hid'].
    split; congruence.
Qed.


End RefreshFacts.

Module MoreEvaluation.
Import Example.

Lemma index_html_no_intervals : weather_intervals_only index_html.
Proof.
  intros h iv H. change (timers index_html) with (∅ : gmap positive (Interval Z)) in H.
  by rewrite lookup_empty in H.
Qed.


Lemma fetchAndDisplayCountries_cards_witness :
  ∃ p',
    drive (fetchAndDisplayCountries K "/countries/all") index_html
          [ok_json (JArr [CRI; USA])]
    = (p', [], Completed, [])
    ∧ children_of p' 6%nat
      = card_element "browse"
          <$> [("https://flagcdn.com/w320/cr.png", "Costa Rica", JStr "CRI");
               ("https://flagcdn.com/w320/cr.png", "United States", JStr "USA")].
Proof.
  exact (fetchAndDisplayCountries_cards K "/countries/all" index_html
           (mkResponse 200 (JsonBody (JArr [CRI; USA]))) [CRI; USA] _ [] _
           eq_refl eq_refl eq_refl eq_refl).
Defined.


Lemma displaySavedCountries_cards_witness :
  ∃ p',
    drive (displaySavedCountries K) index_html [ok_json (JArr [CRI])]
    = (p', [], Completed, [])
    ∧ children_of p' 7%nat
      = card_element "local"
          <$> [("https://flagcdn.com/w320/cr.png", "Costa Rica", JStr "CRI")].
Proof.
  exact (displaySavedCountries_cards K index_html
           (mkResponse 200 (JsonBody (JArr [CRI]))) [CRI] _ [] _
           eq_refl eq_refl eq_refl eq_refl).
Defined.

Lemma openModal_failure_shown_witness :
  let p' := (drive (openModal K (JStr "CRI") false) index_html
                   [NetResp not_found]).1.1.1 in
  shows p' 15%nat
    (Html ("<p class=" +:+ dq +:+ "error-text" +:+ dq +:+ ">"
           +:+ "Error al cargar el país: No se pudieron cargar los detalles del país."
           +:+ "</p>"))
  ∧ shows p' 12%nat
      (Html ("<p>"
             +:+ "⚠️ Error al cargar los detalles del país: No se pudieron cargar los detalles del país."
             +:+ "</p>")).
Proof.
  assert (15%nat ≠ customMessageText K) as Hne by discriminate.
  exact (openModal_failure_shown K (JStr "CRI") "CRI" false 15%nat index_html
           (NetResp not_found)
           (mkError "Error" "No se pudieron cargar los detalles del país.") []
           _ _ eq_refl eq_refl eq_refl eq_refl eq_refl Hne).
Defined.

Lemma openModal_failure_leaves_add_button_witness :
  ∃ a',
    elems (drive (openModal K (JStr "CRI") false) index_html
                 [NetResp not_found]).1.1.1 !! 9%nat = Some a'
    ∧ onclick a' = None
    ∧ "hidden" ∉ classes a'.
Proof.
  assert (modalAddBtn K ≠ modalDeleteBtn K) as Hdel by discriminate.
  assert (modalAddBtn K ≠ customMessageCancelBtn K) as Hcancel by discriminate.
  exact (openModal_failure_leaves_add_button K (JStr "CRI") 15%nat index_html
           (NetResp not_found)
           (mkError "Error" "No se pudieron cargar los detalles del país.") []
           _ eq_refl eq_refl eq_refl Hdel Hcancel).
Defined.

Lemma one_click_dismisses_all_witness :
  ∃ p',
    step K (mkWorld two_failures []) (Click 13%nat) = Some (mkWorld p' [])
    ∧ (listeners <$> elems p' !! 13%nat) = Some []
    ∧ has_class p' "hidden" 11%nat = true
    ∧ frame p' = frame two_failures.
Proof.
  exact (one_click_dismisses_all K 1 two_failures _ _
           eq_refl eq_refl eq_refl eq_refl eq_refl).
Defined.

Lemma saved_record_gives_same_card_witness :
  card_data (JObj [("cca3", JStr "CRI"); ("name", JStr "Costa Rica");
                   ("region", JStr "Americas");
                   ("flag_url", JStr "https://flagcdn.com/w320/cr.png")])
  = card_data CRI.
Proof.
  apply (saved_record_gives_same_card CRI _
           (JObj [("png", JStr "https://flagcdn.com/w320/cr.png")])
           (JObj [("common", JStr "Costa Rica")]) "Costa Rica");
    try reflexivity.
  discriminate.
Defined.

Lemma intervals_are_weather_intervals_witness :
  weather_intervals_only two_dialogs_page.
Proof.
  apply (intervals_are_weather_intervals K index_html two_dialogs
           (mkWorld two_dialogs_page [])).
  - exact index_html_no_intervals.
  - vm_compute. reflexivity.
Defined.



End MoreEvaluation.
